(** * imgui_memory_editor.h: range lookup, note outlines and the value codec

    A shallow embedding of the rendering-independent parts of
    [struct MemoryEditor] (imgui_memory_editor/imgui_memory_editor.h):
    [IsInRange], [isNextByteHighlighted], [drawNoteRect], [hasRangeBelow],
    the endianness copy, [FormatBinary], [DrawPreviewData] and the parsing
    step of the converter panel in [DrawPreviewLine].

    Conventions.  A [size_t] is a [Z] in [0, 2^64); arithmetic that can wrap
    in the source is written with [wrap].  A [std::vector] is a [list];
    out-parameters are threaded as explicit state. *)

From Equations Require Import Equations.
From Stdlib Require Import ZArith List Bool Lia String Ascii Sorted DecimalString.
From Stdlib Require DecimalPos DecimalFacts.
Import ListNotations.

Local Open Scope Z_scope.

(** ** Machine integers *)

Definition SIZE_BITS : Z := 64.
Definition SIZE_MAX : Z := 2 ^ SIZE_BITS - 1.

(** Unsigned wrap-around of [size_t] arithmetic. *)
Definition wrap (z : Z) : Z := z mod 2 ^ SIZE_BITS.

Definition is_size_t (z : Z) : Prop := 0 <= z <= SIZE_MAX.

Lemma wrap_small z : is_size_t z -> wrap z = z.
Proof.
  unfold is_size_t, wrap, SIZE_MAX, SIZE_BITS. intros H.
  apply Z.mod_small. lia.
Qed.

Lemma wrap_range z : is_size_t (wrap z).
Proof.
  unfold is_size_t, wrap, SIZE_MAX, SIZE_BITS.
  pose proof (Z.mod_pos_bound z (2 ^ 64) ltac:(lia)). lia.
Qed.

(** ** Data model (lines 101-131) *)

(** [union Color]: only the packed 32-bit [id] is observed here. *)
Definition Color : Type := Z.

Record HighlightRange : Type := mkHighlightRange {
  hr_RangeStartAddress : Z;   (* inclusive *)
  hr_RangeEndAddress   : Z;   (* exclusive *)
  hr_RangeColor        : Color;
  hr_isActive          : bool
}.

Record NoteRange : Type := mkNoteRange {
  nr_RangeStartAddress : Z;   (* inclusive *)
  nr_RangeEndAddress   : Z;   (* exclusive *)
  nr_RangeColor        : Color;
  nr_Description       : string;
  nr_isActive          : bool
}.

Inductive RangePosition : Type :=
  | NotInRange
  | Start
  | Middle
  | End.

Definition RangePosition_eq_dec (a b : RangePosition) : {a = b} + {a <> b}.
Proof. decide equality. Defined.

(** [IsInRange] is a template over the element type; the members it reads
    are collected in a class with one instance per range struct. *)
Class RangeLike (T : Type) : Type := {
  RangeStartAddress : T -> Z;
  RangeEndAddress   : T -> Z;
  RangeColor        : T -> Color;
  isActive          : T -> bool
}.

#[export] Instance HighlightRange_RangeLike : RangeLike HighlightRange := {
  RangeStartAddress := hr_RangeStartAddress;
  RangeEndAddress   := hr_RangeEndAddress;
  RangeColor        := hr_RangeColor;
  isActive          := hr_isActive
}.

#[export] Instance NoteRange_RangeLike : RangeLike NoteRange := {
  RangeStartAddress := nr_RangeStartAddress;
  RangeEndAddress   := nr_RangeEndAddress;
  RangeColor        := nr_RangeColor;
  isActive          := nr_isActive
}.

(** ** The binary search helper *)

Module BinarySearch.

(** Modelled from the spec: the comparator passed to [binary_find] returns
    an [s32] that is negative ("go left"), positive ("go right") or zero
    ("found"), or the value of [cancel_search<s32>()], which is not part of
    the sources and is kept apart from the three as [None]. *)
Definition order : Type := option Z.
Definition cancel_search : order := None.

Section Find.
Context {T St : Type}.

(** Any probe strictly inside the current window. *)
Variable pivot : nat -> nat -> nat.
Hypothesis pivot_inside : forall lo hi, (lo < hi)%nat -> (lo <= pivot lo hi < hi)%nat.

(** The comparator may update captured state ([St]); the search threads it. *)
Variable cmp : T -> St -> order * St.

(** Modelled from the spec: [lt::algorithms::binary_find] lives in
    include/algorithms/binary_search.hpp, which is not part of the sources.
    The specification (4.1, step 4) describes a binary search over a
    sequence assumed sorted: the comparator answers "go left" (negative),
    "go right" (positive), "found" (zero) or emits the cancellation signal,
    which ends the search as not-found.  The result is the index of the
    element found, if any, together with the comparator's final state. *)
Equations? find_window (v : list T) (lo hi : nat) (s : St) : option nat * St
  by wf (hi - lo)%nat lt :=
find_window v lo hi s with lt_dec lo hi := {
  | right _ := (None, s)
  | left Hlt with nth_error v (pivot lo hi) := {
    | None := (None, s)
    | Some x with cmp x s := {
      | (None, s') := (None, s')
      | (Some c, s') with Z_dec' c 0 := {
        | inleft (left _) := find_window v lo (pivot lo hi) s'
        | inleft (right _) := find_window v (S (pivot lo hi)) hi s'
        | inright _ := (Some (pivot lo hi), s')
        }
      }
    }
  }.
Proof.
  all: pose proof (pivot_inside lo hi Hlt); lia.
Qed.

End Find.

(** Modelled from the spec: the header with the probe is not part of the
    sources; the usual midpoint is taken (the lemmas on [find_window] hold
    for any probe inside the window). *)
Definition midpoint (lo hi : nat) : nat := (lo + (hi - lo) / 2)%nat.

Lemma midpoint_inside lo hi : (lo < hi)%nat -> (lo <= midpoint lo hi < hi)%nat.
Proof.
  intros H. unfold midpoint.
  assert ((hi - lo) / 2 < hi - lo)%nat by (apply Nat.div_lt; lia).
  lia.
Qed.

(** Modelled from the spec: [binary_find(begin, end, val, cmp)] searches the
    whole sequence; [val] is unused by the comparator of [IsInRange]. *)
Definition binary_find {T St : Type} (v : list T) (cmp : T -> St -> order * St) (s : St)
  : option nat * St :=
  find_window midpoint midpoint_inside cmp v 0 (List.length v) s.

End BinarySearch.

(** ** [IsInRange] (lines 133-219) *)

Module RangeIndex.
Import BinarySearch.

(** The out-parameters [Color& color] and [size_t* out_range_idx]: their
    contents before the call go in, their contents after the call come out.
    Every caller passes a non-null [out_range_idx]. *)
Record Out : Type := mkOut {
  color : Color;
  range_idx : Z
}.

Definition set_color (c : Color) (o : Out) : Out := mkOut c (range_idx o).
Definition set_range_idx (i : Z) (o : Out) : Out := mkOut (color o) i.

Section WithRange.
Context {T : Type} `{RangeLike T}.

(** [start <= addr && addr < end] *)
Definition contains (r : T) (addr : Z) : bool :=
  (RangeStartAddress r <=? addr) && (addr <? RangeEndAddress r).

(** The three-way tail shared by both paths (lines 163-171 and 207-215);
    [RangeEndAddress - 1] is [size_t] arithmetic. *)
Definition classify (r : T) (addr : Z) : RangePosition :=
  if addr =? RangeStartAddress r then Start
  else if addr =? wrap (RangeEndAddress r - 1) then End
  else Middle.

(** The loop of lines 150-173, entered at index [idx] with [rs] the elements
    from [idx] on. *)
Fixpoint linear_scan (rs : list T) (idx : nat) (addr : Z) (o : Out)
  : RangePosition * Out :=
  match rs with
  | [] => (NotInRange, o)
  | highlight_range :: rest =>
      if contains highlight_range addr then
        let o1 := set_color (RangeColor highlight_range) o in
        if negb (isActive highlight_range) then (NotInRange, o1)
        else (classify highlight_range addr, set_range_idx (Z.of_nat idx) o1)
      else linear_scan rest (S idx) addr o
  end.

(** The comparator lambda of lines 177-194; it captures [addr] by value and
    [color] by reference. *)
Definition range_cmp (addr : Z) (highlight_range : T) (o : Out) : order * Out :=
  if addr <? RangeStartAddress highlight_range then (Some (-1), o)
  else if addr >=? RangeEndAddress highlight_range then (Some 1, o)
  else if isActive highlight_range
       then (Some 0, set_color (RangeColor highlight_range) o)
       else (cancel_search, o).

(** Lines 175-215. *)
Definition binary_path (ranges : list T) (addr : Z) (o : Out)
  : RangePosition * Out :=
  match binary_find ranges (range_cmp addr) o with
  | (None, o1) => (NotInRange, o1)
  | (Some idx, o1) =>
      match nth_error ranges idx with
      | Some range => (classify range addr, set_range_idx (Z.of_nat idx) o1)
      | None => (NotInRange, o1)   (* [ranges[idx]] out of bounds: never reached *)
      end
  end.

(** [IsInRange] with the choice between the two paths made by the caller. *)
Definition IsInRange_via (linear : bool) (ranges : list T) (addr : Z) (o : Out)
  : RangePosition * Out :=
  match ranges with
  | [] => (NotInRange, o)
  | front :: _ =>
      let startRange := RangeStartAddress front in
      let endRange := RangeEndAddress (last ranges front) in
      if (addr <? startRange) || (addr >? endRange) then (NotInRange, o)
      else if linear then linear_scan ranges 0 addr o
      else binary_path ranges addr o
  end.

(** [IsInRange]: the linear path below 100 elements, the binary search from
    100 elements on. *)
Definition IsInRange (ranges : list T) (addr : Z) (o : Out) : RangePosition * Out :=
  IsInRange_via (Z.of_nat (List.length ranges) <? 100) ranges addr o.

End WithRange.

(** A sample sequence of a hundred ranges [10 i, 10 i + 5), used to exercise
    the binary-search path of [IsInRange]; [inactive] lists the indices
    whose range is switched off. *)
Definition sample_ranges (inactive : list nat) : list HighlightRange :=
  map (fun i => mkHighlightRange (10 * Z.of_nat i) (10 * Z.of_nat i + 5) (Z.of_nat i)
                  (negb (existsb (Nat.eqb i) inactive)))
      (seq 0 100).

(** The out-parameters as [DrawContents] initialises them (line 435). *)
Definition out0 : Out := mkOut 0 SIZE_MAX.

End RangeIndex.

(** ** Highlight width and note outlines (lines 453-460, 561-668) *)

Module Outline.
Import RangeIndex.

(** Arithmetic on [float] is kept abstract: the verified properties are about
    which branch is taken, not about rounding. *)
Class FloatOps (F : Type) : Type := {
  fadd : F -> F -> F;
  fsub : F -> F -> F;
  fmul : F -> F -> F;
  fconst : Z -> F          (* a literal such as [2.f] *)
}.

(** The members of [struct Sizes] that the cell code reads. *)
Record Sizes (F : Type) : Type := mkSizes {
  LineHeight : F;
  GlyphWidth : F;
  HexCellWidth : F;
  SpacingBetweenMidCols : F
}.
Arguments mkSizes {F}.
Arguments LineHeight {F}.
Arguments GlyphWidth {F}.
Arguments HexCellWidth {F}.
Arguments SpacingBetweenMidCols {F}.

(** The editor members read by the highlight and outline code.  [HighlightFn]
    is the optional callback from [(data, off)] to [bool]. *)
Record Editor : Type := mkEditor {
  Cols : Z;
  OptMidColsCount : Z;
  HighlightFn : option (list Z -> Z -> bool);
  DataPreviewAddr : Z;
  HighlightMin : Z;
  HighlightMax : Z;
  Ranges : list HighlightRange;
  Notes : list NoteRange
}.

(** [Ranges[rangeIdx]] behind the guard [rangeIdx < Ranges.size()]. *)
Definition vector_at {A : Type} (v : list A) (i : Z) : option A :=
  if (0 <=? i) && (i <? Z.of_nat (List.length v)) then nth_error v (Z.to_nat i) else None.

(** Lines 561-569. *)
Definition isNextByteHighlighted (ed : Editor) (addr mem_size preview_data_type_size rangeIdx : Z)
    (mem_data : list Z) : bool :=
  let isNotLastAddr := wrap (addr + 1) <? mem_size in
  let highlighMaxWasSet := negb (HighlightMax ed =? SIZE_MAX) in
  let highlighFromFn :=
    match HighlightFn ed with
    | Some fn => fn mem_data (wrap (addr + 1))
    | None => false
    end in
  let isNotLastHighlighAddr := wrap (addr + 1) <? HighlightMax ed in
  let highlightFromPreview :=
    wrap (addr + 1) <? wrap (DataPreviewAddr ed + preview_data_type_size) in
  let isNotLastInRange :=
    match vector_at (Ranges ed) rangeIdx with
    | Some r => wrap (addr + 1) <? RangeEndAddress r
    | None => false
    end in
  isNotLastAddr &&
  ((highlighMaxWasSet && isNotLastHighlighAddr) || highlighFromFn
   || highlightFromPreview || isNotLastInRange).

(** The test repeated at lines 458, 473 and 589: the cell is followed by the
    extra spacing between two column groups.  [%] is C's remainder. *)
Definition mid_cols_gap (ed : Editor) (colIdx : Z) : bool :=
  (OptMidColsCount ed >? 0) && (colIdx >? 0) && (colIdx + 1 <? Cols ed)
  && (Z.rem (colIdx + 1) (OptMidColsCount ed) =? 0).

(** [hasRangeBelow], lines 630-668.  The scan of line 644 carries the three
    members of [rangesInNextLine] that it writes; [first] tells whether the
    element is the one at [noteStartIdx]. *)
Record NextLine : Type := mkNextLine {
  nl_RangeStartAddress : Z;
  nl_RangeEndAddress : Z;
  nl_isActive : bool
}.

Fixpoint scan_notes_below (notes : list NoteRange) (first : bool)
    (nextLineFirstAddr cellAddrBellow : Z) (acc : NextLine) : NextLine :=
  match notes with
  | [] => acc
  | note :: rest =>
      if nextLineFirstAddr >=? nr_RangeStartAddress note then
        if cellAddrBellow <? nr_RangeEndAddress note then
          let start := if first then nr_RangeStartAddress note else nl_RangeStartAddress acc in
          scan_notes_below rest false nextLineFirstAddr cellAddrBellow
            (mkNextLine start (nr_RangeEndAddress note) (nr_isActive note))
        else acc                                   (* [break] *)
      else scan_notes_below rest false nextLineFirstAddr cellAddrBellow acc
  end.

Definition hasRangeBelow (ed : Editor) (lastLineAddr note_idx lineIdx colIdx line_max_idx : Z)
  : bool :=
  let nextLineFirstAddr := wrap (lastLineAddr + 1) in
  let cellAddrBellow := wrap (nextLineFirstAddr + colIdx) in
  let '(noteDoesntEndInSameLine, cellBelowInSameNote, rangesInNextLine) :=
    match vector_at (Notes ed) note_idx with
    | Some note =>
        (nextLineFirstAddr <? nr_RangeEndAddress note,
         cellAddrBellow <? nr_RangeEndAddress note,
         scan_notes_below (skipn (S (Z.to_nat note_idx)) (Notes ed)) true
           nextLineFirstAddr cellAddrBellow (mkNextLine 0 0 false))
    | None => (false, false, mkNextLine 0 0 false)
    end in
  let cellAddrBellowBellongToRangesInNextLine :=
    cellAddrBellow <? nl_RangeEndAddress rangesInNextLine in
  let cellAddrBellowRangeIsActive := nl_isActive rangesInNextLine in
  let hasAnotherNoteBelow :=
    cellAddrBellowBellongToRangesInNextLine && cellAddrBellowRangeIsActive in
  let hasSameNoteBelow := noteDoesntEndInSameLine && cellBelowInSameNote in
  let hasNoteBelow := hasSameNoteBelow || hasAnotherNoteBelow in
  let isNotLastLine := lineIdx <? line_max_idx in
  isNotLastLine && hasNoteBelow.

Section Drawing.
Context {F : Type} `{FloatOps F}.

(** The body of lines 454-460 (repeated at 469-475): the width of the filled
    highlight of one hex cell. *)
Definition highlight_width (ed : Editor) (s : Sizes F)
    (addr mem_size preview_data_type_size range_idx : Z) (mem_data : list Z) (colIdx : Z) : F :=
  let is_next_byte_highlighted :=
    isNextByteHighlighted ed addr mem_size preview_data_type_size range_idx mem_data in
  if is_next_byte_highlighted || (colIdx + 1 =? Cols ed) then
    if mid_cols_gap ed colIdx
    then fadd (HexCellWidth s) (SpacingBetweenMidCols s)
    else HexCellWidth s
  else fmul (GlyphWidth s) (fconst 2).

(** One [draw_list->AddLine(p1, p2, col, thickness)]. *)
Record Line : Type := mkLine {
  x1 : F; y1 : F; x2 : F; y2 : F;
  line_color : Color;
  thickness : F
}.

(** What [drawNoteRect] draws, edge by edge. *)
Record NoteRect : Type := mkNoteRect {
  HorizontalTop : option Line;
  HorizontalBottom : option Line;
  VerticalLeft : option Line;
  VerticalRight : option Line
}.

Definition LINE_THICKNESS : F := fconst 2.
Definition HORIZONTAL_PADDING : F := fconst 2.
Definition VERTICAL_PADDING : F := fconst 0.

(** Lines 571-628.  [lineIdx] and [line_max_idx] are non-negative [int]s
    handed on as [size_t]. *)
Definition drawNoteRect (ed : Editor) (note_idx addr : Z) (pos_x pos_y : F)
    (highlight_range_color : Color) (range_position : RangePosition)
    (highlight_width : F) (colIdx lineIdx line_max_idx : Z) (s : Sizes F) : NoteRect :=
  let is_end := if RangePosition_eq_dec range_position End then true else false in
  let is_start := if RangePosition_eq_dec range_position Start then true else false in
  let is_space_in_between := mid_cols_gap ed colIdx in
  let highlight_width :=
    if is_space_in_between then
      if is_end then fsub highlight_width (SpacingBetweenMidCols s)
      else fadd highlight_width (SpacingBetweenMidCols s)
    else highlight_width in
  let highlight_width :=
    if negb is_space_in_between && is_end
    then fsub highlight_width (fmul HORIZONTAL_PADDING (fconst 2))
    else highlight_width in
  let '(pos_x, highlight_width) :=
    if negb is_space_in_between && is_start
    then (fsub pos_x HORIZONTAL_PADDING, fadd highlight_width HORIZONTAL_PADDING)
    else (pos_x, highlight_width) in
  let top :=
    mkLine pos_x (fadd pos_y VERTICAL_PADDING)
           (fadd pos_x highlight_width) (fadd pos_y VERTICAL_PADDING)
           highlight_range_color LINE_THICKNESS in
  let firstLineAddr := wrap (addr - colIdx) in
  let lastLineAddr := wrap (addr + wrap (Cols ed - colIdx - 1)) in
  let notRangeBelow :=
    negb (hasRangeBelow ed lastLineAddr note_idx (wrap lineIdx) (wrap colIdx) (wrap line_max_idx)) in
  let bottom :=
    mkLine pos_x (fsub (fadd pos_y (LineHeight s)) VERTICAL_PADDING)
           (fadd pos_x highlight_width) (fsub (fadd pos_y (LineHeight s)) VERTICAL_PADDING)
           highlight_range_color LINE_THICKNESS in
  let left :=
    mkLine pos_x (fadd pos_y VERTICAL_PADDING)
           pos_x (fadd (fadd pos_y (LineHeight s)) VERTICAL_PADDING)
           highlight_range_color LINE_THICKNESS in
  let right :=
    mkLine (fadd pos_x highlight_width) (fadd pos_y VERTICAL_PADDING)
           (fadd pos_x highlight_width) (fadd (fadd pos_y (LineHeight s)) VERTICAL_PADDING)
           highlight_range_color LINE_THICKNESS in
  mkNoteRect
    (Some top)
    (if is_space_in_between || notRangeBelow then Some bottom else None)
    (if is_start || (addr =? firstLineAddr) then Some left else None)
    (if is_end || (addr =? lastLineAddr) then Some right else None).

End Drawing.

(** Exact arithmetic on integer-valued sizes, for worked examples. *)
#[export] Instance Z_FloatOps : FloatOps Z := {
  fadd := Z.add;
  fsub := Z.sub;
  fmul := Z.mul;
  fconst := fun z => z
}.

(** Sizes of a 7-pixel glyph: [HexCellWidth = (int)(7 * 2.5)] and
    [SpacingBetweenMidCols = (int)(17 * 0.25)]. *)
Definition sample_sizes : Sizes Z := mkSizes 13 7 17 4.

(** An editor with the constructor's defaults (lines 261-291) except for 16
    columns, holding the given ranges and notes and previewing at
    [preview]. *)
Definition sample_editor (preview : Z) (ranges : list HighlightRange) (notes : list NoteRange)
  : Editor :=
  mkEditor 16 8 None preview SIZE_MAX SIZE_MAX ranges notes.

End Outline.

(** ** The C library's text conversions used by the codec *)

Module Libc.

Definition hex_digit_lower (d : Z) : ascii :=
  match d with
  | 0 => "0" | 1 => "1" | 2 => "2" | 3 => "3" | 4 => "4" | 5 => "5" | 6 => "6" | 7 => "7"
  | 8 => "8" | 9 => "9" | 10 => "a" | 11 => "b" | 12 => "c" | 13 => "d" | 14 => "e"
  | _ => "f"
  end%char.

(** Value of a character as a digit, for bases up to 16. *)
Definition digit_value (c : ascii) : option Z :=
  let n := Z.of_N (N_of_ascii c) in
  if (48 <=? n) && (n <=? 57) then Some (n - 48)
  else if (97 <=? n) && (n <=? 102) then Some (n - 87)
  else if (65 <=? n) && (n <=? 70) then Some (n - 55)
  else None.

Definition digit_in_base (base : Z) (c : ascii) : option Z :=
  match digit_value c with
  | Some d => if d <? base then Some d else None
  | None => None
  end.

(** [n] hexadecimal digits of [v], most significant first. *)
Fixpoint hex_digits (n : nat) (v : Z) : string :=
  match n with
  | O => EmptyString
  | S k => String (hex_digit_lower ((v / 16 ^ Z.of_nat k) mod 16)) (hex_digits k v)
  end.

(** Number of hexadecimal digits of a non-negative value, at least one. *)
Definition hex_length (v : Z) : nat :=
  if v <=? 0 then 1%nat else Z.to_nat (Z.log2 v / 4 + 1).

(** [printf("%0<width>x", v)] for an unsigned argument [v]. *)
Definition printf_0x (width : nat) (v : Z) : string :=
  hex_digits (Nat.max width (hex_length v)) v.

(** [printf("%d", v)] and its length-modified and unsigned variants, once
    the argument has been converted to the mathematical integer printed. *)
Definition printf_d (v : Z) : string :=
  DecimalString.NilZero.string_of_int (Z.to_int v).

(** [snprintf] keeps at most [size - 1] characters. *)
Fixpoint truncate (n : nat) (s : string) : string :=
  match n, s with
  | S k, String c r => String c (truncate k r)
  | _, _ => EmptyString
  end.

Definition snprintf (size : Z) (s : string) : string :=
  truncate (Z.to_nat (size - 1)) s.

(** *** [sscanf] integer conversions *)

Definition is_space (c : ascii) : bool :=
  let n := N_of_ascii c in
  (n =? 32)%N || ((9 <=? n)%N && (n <=? 13)%N).

Fixpoint skip_space (s : string) : string :=
  match s with
  | String c r => if is_space c then skip_space r else s
  | EmptyString => s
  end.

(** An optional sign: [(negative, rest)]. *)
Definition read_sign (s : string) : bool * string :=
  match s with
  | String "-"%char r => (true, r)
  | String "+"%char r => (false, r)
  | _ => (false, s)
  end.

(** The optional [0x] or [0X] of a hexadecimal conversion, taken only when a
    hexadecimal digit follows it. *)
Definition skip_0x (s : string) : string :=
  match s with
  | String "0"%char (String x (String d r)) =>
      if (Ascii.eqb x "x" || Ascii.eqb x "X")%char then
        match digit_in_base 16 d with
        | Some _ => String d r
        | None => s
        end
      else s
  | _ => s
  end.

(** The longest run of digits, accumulated from [acc]. *)
Fixpoint read_digits (base : Z) (s : string) (acc : Z) : Z :=
  match s with
  | String c r =>
      match digit_in_base base c with
      | Some d => read_digits base r (acc * base + d)
      | None => acc
      end
  | EmptyString => acc
  end.

Definition starts_with_digit (base : Z) (s : string) : bool :=
  match s with
  | String c _ => match digit_in_base base c with Some _ => true | None => false end
  | EmptyString => false
  end.

(** [strtoul]: magnitude, negated modulo [2^64], saturating at [ULONG_MAX].
    [None] is a matching failure: no digit where one is required. *)
Definition scan_unsigned (base : Z) (s : string) : option Z :=
  let '(negative, s) := read_sign (skip_space s) in
  let s := if base =? 16 then skip_0x s else s in
  if starts_with_digit base s then
    let magnitude := read_digits base s 0 in
    Some (if magnitude >? SIZE_MAX then SIZE_MAX
          else if negative then wrap (- magnitude) else magnitude)
  else None.

(** [strtol]: saturating at [LONG_MIN] and [LONG_MAX]. *)
Definition scan_signed (base : Z) (s : string) : option Z :=
  let '(negative, s) := read_sign (skip_space s) in
  if starts_with_digit base s then
    let magnitude := read_digits base s 0 in
    Some (if negative then Z.max (- magnitude) (- 2 ^ 63)
          else Z.min magnitude (2 ^ 63 - 1))
  else None.

(** [sscanf(s, "%zX", &v)], [sscanf(s, "%lu", &v)] and [sscanf(s, "%ld", &v)]:
    the value stored through the pointer when the conversion succeeds. *)
Definition sscanf_zX (s : string) : option Z := scan_unsigned 16 s.
Definition sscanf_lu (s : string) : option Z := scan_unsigned 10 s.
Definition sscanf_ld (s : string) : option Z := scan_signed 10 s.

(** *** Floating-point values and [printf("%a")] *)

(** The value denoted by an IEEE 754 bit pattern; a finite non-zero value is
    [m * 2^e] with [m > 0]. *)
Inductive fp_value : Type :=
  | FpZero (negative : bool)
  | FpFinite (negative : bool) (m e : Z)
  | FpInf (negative : bool)
  | FpNaN (negative : bool).

Definition ieee_decode (ebits mbits : Z) (bits : Z) : fp_value :=
  let negative := Z.testbit bits (ebits + mbits) in
  let biased := Z.land (Z.shiftr bits mbits) (Z.ones ebits) in
  let mantissa := Z.land bits (Z.ones mbits) in
  let bias := 2 ^ (ebits - 1) - 1 in
  if biased =? Z.ones ebits then
    if mantissa =? 0 then FpInf negative else FpNaN negative
  else if biased =? 0 then
    if mantissa =? 0 then FpZero negative
    else FpFinite negative mantissa (1 - bias - mbits)
  else FpFinite negative (2 ^ mbits + mantissa) (biased - bias - mbits).

Definition binary16 : Z -> fp_value := ieee_decode 5 10.
Definition binary32 : Z -> fp_value := ieee_decode 8 23.
Definition binary64 : Z -> fp_value := ieee_decode 11 52.

Definition sign_text (negative : bool) : string :=
  if negative then "-"%string else EmptyString.

Fixpoint strip_trailing_zeros (s : string) : string :=
  match s with
  | EmptyString => EmptyString
  | String c r =>
      match strip_trailing_zeros r with
      | EmptyString => if Ascii.eqb c "0" then EmptyString else String c EmptyString
      | r' => String c r'
      end
  end.

(** [printf("%a", (double)x)] as glibc prints it: one leading digit, the
    fraction in hexadecimal without trailing zeros, the binary exponent in
    decimal.  Widening [_Float16] and [float] to [double] is exact, so the
    text only depends on the value. *)
Definition printf_a (x : fp_value) : string :=
  match x with
  | FpNaN negative => (sign_text negative ++ "nan")%string
  | FpInf negative => (sign_text negative ++ "inf")%string
  | FpZero negative => (sign_text negative ++ "0x0p+0")%string
  | FpFinite negative m e =>
      let k := Z.log2 m in
      let '(lead, fraction, exponent) :=
        if e + k >=? -1022
        then ("1"%string, (m - 2 ^ k) * 2 ^ (52 - k), e + k)
        else ("0"%string, m * 2 ^ (e + 1074), -1022) in
      let digits := strip_trailing_zeros (hex_digits 13 fraction) in
      (sign_text negative ++ "0x" ++ lead
        ++ (match digits with EmptyString => EmptyString | _ => "." ++ digits end)
        ++ "p" ++ (if exponent >=? 0 then "+" else "-")
        ++ DecimalString.NilZero.string_of_uint (N.to_uint (Z.to_N (Z.abs exponent))))%string
  end.

End Libc.

(** ** The typed-value codec (lines 995-1203) and the converter (lines 842-871) *)

Module Codec.
Import Libc.

Inductive DataType_ : Type :=
  | DataType_S8 | DataType_U8 | DataType_S16 | DataType_U16
  | DataType_S32 | DataType_U32 | DataType_S64 | DataType_U64
  | DataType_HalfFloat | DataType_Float | DataType_Double.

Inductive DataFormat : Type :=
  | DataFormat_Bin | DataFormat_Dec | DataFormat_Hex.

(** The enumerant's position, as used by [ConvertValueType % 2]. *)
Definition DataType_index (t : DataType_) : Z :=
  match t with
  | DataType_S8 => 0 | DataType_U8 => 1 | DataType_S16 => 2 | DataType_U16 => 3
  | DataType_S32 => 4 | DataType_U32 => 5 | DataType_S64 => 6 | DataType_U64 => 7
  | DataType_HalfFloat => 8 | DataType_Float => 9 | DataType_Double => 10
  end.

Definition all_DataTypes : list DataType_ :=
  [DataType_S8; DataType_U8; DataType_S16; DataType_U16; DataType_S32; DataType_U32;
   DataType_S64; DataType_U64; DataType_HalfFloat; DataType_Float; DataType_Double].

(** Lines 1003-1008. *)
Definition DataTypeGetSize (data_type : DataType_) : nat :=
  match data_type with
  | DataType_S8 | DataType_U8 => 1
  | DataType_S16 | DataType_U16 => 2
  | DataType_S32 | DataType_U32 => 4
  | DataType_S64 | DataType_U64 => 8
  | DataType_HalfFloat => 2
  | DataType_Float => 4
  | DataType_Double => 8
  end.

Definition is_integer_type (t : DataType_) : bool := DataType_index t <=? 7.

(** *** Object representations *)

(** The [n] bytes of an unsigned integer object, lowest address first; a
    byte is a [Z] in [0, 256). *)
Fixpoint little_endian_bytes (n : nat) (v : Z) : list Z :=
  match n with
  | O => []
  | S k => (v mod 256) :: little_endian_bytes k (v / 256)
  end.

Fixpoint little_endian_value (bytes : list Z) : Z :=
  match bytes with
  | [] => 0
  | b :: rest => b + 256 * little_endian_value rest
  end.

(** Two's complement reading of a [bits]-bit pattern. *)
Definition to_signed (bits : Z) (v : Z) : Z :=
  if v <? 2 ^ (bits - 1) then v else v - 2 ^ bits.

Section Host.
(** Byte order of the machine that runs the editor. *)
Variable host_little_endian : bool.

Definition object_bytes (n : nat) (v : Z) : list Z :=
  if host_little_endian then little_endian_bytes n v else rev (little_endian_bytes n v).

Definition object_value (bytes : list Z) : Z :=
  if host_little_endian then little_endian_value bytes else little_endian_value (rev bytes).

(** Lines 1017-1023: the first byte of a [uint16_t] holding 1. *)
Definition IsBigEndian : bool :=
  negb (nth 0 (object_bytes 2 1) 0 =? 0).

(** [memcpy(dst, src, s)] and the byte-reversing loop, on the first [s] bytes
    of [dst]. *)
Definition memcpy (dst src : list Z) (s : nat) : list Z :=
  firstn s src ++ skipn s dst.

Definition reversed_copy (dst src : list Z) (s : nat) : list Z :=
  rev (firstn s src) ++ skipn s dst.

(** Lines 1025-1039. *)
Definition EndianessCopyBigEndian (dst src : list Z) (s : nat) (is_little_endian : Z) : list Z :=
  if negb (is_little_endian =? 0) then reversed_copy dst src s else memcpy dst src s.

(** Lines 1041-1055. *)
Definition EndianessCopyLittleEndian (dst src : list Z) (s : nat) (is_little_endian : Z) : list Z :=
  if negb (is_little_endian =? 0) then memcpy dst src s else reversed_copy dst src s.

(** Lines 1057-1063; the selector [PreviewEndianess] is 0 for "LE" and 1 for
    "BE" (the combo of line 738). *)
Definition EndianessCopy (PreviewEndianess : Z) (dst src : list Z) (size : nat) : list Z :=
  let fp := if IsBigEndian then EndianessCopyBigEndian else EndianessCopyLittleEndian in
  fp dst src size PreviewEndianess.

(** Lines 1065-1080. *)
Definition bit_char (byte : Z) (i : Z) : ascii :=
  if Z.land byte (Z.shiftl 1 (7 - i)) =? 0 then "0"%char else "1"%char.

Definition byte_bits (byte : Z) : string :=
  fold_right (fun i s => String (bit_char byte i) s) (String " "%char EmptyString)
             [0; 1; 2; 3; 4; 5; 6; 7].

Fixpoint FormatBinary_from (buf : list Z) (j : nat) : string :=
  match j with
  | O => EmptyString
  | S k => (byte_bits (nth k buf 0) ++ FormatBinary_from buf k)%string
  end.

Definition FormatBinary (buf : list Z) (width : Z) : string :=
  FormatBinary_from buf (Z.to_nat (width / 8)).

(** A typed variable initialised to zero and filled by [EndianessCopy]
    (the first two statements of every [case] of lines 1108-1198), read back
    as the unsigned value of its object representation. *)
Definition decode (PreviewEndianess : Z) (data_type : DataType_) (buf : list Z) (size : nat) : Z :=
  object_value
    (EndianessCopy PreviewEndianess (repeat 0 (DataTypeGetSize data_type)) buf size).

Section Preview.
(** [printf("%f", x)], left abstract. *)
Variable printf_f : fp_value -> string.

(** The [snprintf] calls of lines 1108-1198 on the decoded variable [raw]. *)
Definition format_value (data_type : DataType_) (data_format : DataFormat) (raw : Z) : string :=
  match data_type, data_format with
  | _, DataFormat_Bin => EmptyString
  | DataType_S8, DataFormat_Dec => printf_d (to_signed 8 raw)
  | DataType_S8, DataFormat_Hex => ("0x" ++ printf_0x 2 (Z.land (to_signed 8 raw) 0xFF))%string
  | DataType_U8, DataFormat_Dec => printf_d raw
  | DataType_U8, DataFormat_Hex => ("0x" ++ printf_0x 2 (Z.land raw 0xFF))%string
  | DataType_S16, DataFormat_Dec => printf_d (to_signed 16 raw)
  | DataType_S16, DataFormat_Hex => ("0x" ++ printf_0x 4 (Z.land (to_signed 16 raw) 0xFFFF))%string
  | DataType_U16, DataFormat_Dec => printf_d raw
  | DataType_U16, DataFormat_Hex => ("0x" ++ printf_0x 4 (Z.land raw 0xFFFF))%string
  | DataType_S32, DataFormat_Dec => printf_d (to_signed 32 raw)
  | DataType_S32, DataFormat_Hex => ("0x" ++ printf_0x 8 (to_signed 32 raw mod 2 ^ 32))%string
  | DataType_U32, DataFormat_Dec => printf_d raw
  | DataType_U32, DataFormat_Hex => ("0x" ++ printf_0x 8 raw)%string
  | DataType_S64, DataFormat_Dec => printf_d (to_signed 64 raw)
  | DataType_S64, DataFormat_Hex => ("0x" ++ printf_0x 16 (to_signed 64 raw mod 2 ^ 64))%string
  | DataType_U64, DataFormat_Dec => printf_d raw
  | DataType_U64, DataFormat_Hex => ("0x" ++ printf_0x 16 raw)%string
  | DataType_HalfFloat, DataFormat_Dec => printf_f (binary16 raw)
  | DataType_HalfFloat, DataFormat_Hex => printf_a (binary16 raw)
  | DataType_Float, DataFormat_Dec => printf_f (binary32 raw)
  | DataType_Float, DataFormat_Hex => printf_a (binary32 raw)
  | DataType_Double, DataFormat_Dec => printf_f (binary64 raw)
  | DataType_Double, DataFormat_Hex => printf_a (binary64 raw)
  end.

(** Lines 1083-1203.  [mem_data = None] is the null pointer, in which case
    the bytes are those of [addr] itself.  [ReadFn] is the optional read
    callback.  The result is the text left in [out_buf]. *)
Definition DrawPreviewData (ReadFn : option (list Z -> Z -> Z)) (PreviewEndianess : Z)
    (addr : Z) (mem_data : option (list Z)) (mem_size : Z)
    (data_type : DataType_) (data_format : DataFormat) (out_buf_size : Z) : string :=
  let elem_size := Z.of_nat (DataTypeGetSize data_type) in
  let size :=
    if wrap (addr + elem_size) >? mem_size then wrap (mem_size - addr) else elem_size in
  let '(buf, size) :=
    match mem_data with
    | Some mem =>
        (match ReadFn with
         | Some read =>
             map (fun i => read mem (wrap (addr + Z.of_nat i))) (seq 0 (Z.to_nat size))
         | None => firstn (Z.to_nat size) (skipn (Z.to_nat addr) mem)
         end, size)
    | None => (firstn (Z.to_nat elem_size) (object_bytes 8 addr), elem_size)
    end in
  match data_format with
  | DataFormat_Bin =>
      let binbuf := EndianessCopy PreviewEndianess (repeat 0 8%nat) buf (Z.to_nat size) in
      snprintf out_buf_size (FormatBinary binbuf (size * 8))
  | _ =>
      snprintf out_buf_size
        (format_value data_type data_format
           (decode PreviewEndianess data_type buf (Z.to_nat size)))
  end.

End Preview.

(** *** The converter's input field (lines 842-871) *)

Section Converter.
(** [sscanf(s, "%f", &x)] and [sscanf(s, "%lf", &x)]: the bit pattern of the
    [float] or [double] stored on success.  Left abstract. *)
Variable sscanf_f : string -> option Z.
Variable sscanf_lf : string -> option Z.

Record ConverterState : Type := mkConverterState {
  ValueToConvert : Z;
  ConvertValueType : DataType_;
  ConvertValueFormat : DataFormat;
  ValueConverterInputBuf : string
}.

(** Storing a [float] through [(f32* )&ValueToConvert] replaces the four
    bytes at the lowest addresses of the register. *)
Definition store_f32 (bits : Z) (value : Z) : Z :=
  object_value (memcpy (object_bytes 8 value) (object_bytes 4 bits) 4).

(** What the scan selected by the radix and the type yields: [None] when the
    conversion fails, otherwise the new content of [ValueToConvert].
    For [DataType_HalfFloat] the scan target is the local [_f16]. *)
Inductive ScanTarget : Type :=
  | IntoValueToConvert (new_value : Z)
  | IntoLocal (f : Z).

Definition converter_scan (st : ConverterState) : option ScanTarget :=
  let text := ValueConverterInputBuf st in
  match ConvertValueFormat st with
  | DataFormat_Hex => option_map IntoValueToConvert (sscanf_zX text)
  | _ =>
      match ConvertValueType st with
      | DataType_HalfFloat => option_map IntoLocal (sscanf_f text)
      | DataType_Float =>
          option_map (fun b => IntoValueToConvert (store_f32 b (ValueToConvert st)))
                     (sscanf_f text)
      | DataType_Double => option_map IntoValueToConvert (sscanf_lf text)
      | t =>
          if Z.rem (DataType_index t) 2 =? 0
          then option_map (fun v => IntoValueToConvert (wrap v)) (sscanf_ld text)
          else option_map IntoValueToConvert (sscanf_lu text)
      end
  end.

(** The body of the [if] at line 842. *)
Definition parse_input (st : ConverterState) : ConverterState :=
  match converter_scan st with
  | Some (IntoValueToConvert v) =>
      mkConverterState v (ConvertValueType st) (ConvertValueFormat st)
                       (ValueConverterInputBuf st)
  | Some (IntoLocal _) => st
  | None => st
  end.

End Converter.
End Host.

(** Stand-ins for the conversions left abstract, for worked examples that
    never reach them. *)
Definition unused_printf_f : fp_value -> string := fun _ => EmptyString.
Definition unused_sscanf : string -> option Z := fun _ => None.

End Codec.

(** ** More of the C library's text conversions *)

Module LibcText.
Import Libc.

Definition hex_digit_upper (d : Z) : ascii :=
  match d with
  | 0 => "0" | 1 => "1" | 2 => "2" | 3 => "3" | 4 => "4" | 5 => "5" | 6 => "6" | 7 => "7"
  | 8 => "8" | 9 => "9" | 10 => "A" | 11 => "B" | 12 => "C" | 13 => "D" | 14 => "E"
  | _ => "F"
  end%char.

(** [n] upper-case hexadecimal digits of [v], most significant first. *)
Fixpoint hex_digits_upper (n : nat) (v : Z) : string :=
  match n with
  | O => EmptyString
  | S k => String (hex_digit_upper ((v / 16 ^ Z.of_nat k) mod 16)) (hex_digits_upper k v)
  end.

(** [printf("%0<width>zX", v)] and [printf("%lX", v)] for an unsigned [v]. *)
Definition printf_0X (width : nat) (v : Z) : string :=
  hex_digits_upper (Nat.max width (hex_length v)) v.

Definition printf_X (v : Z) : string := printf_0X 0 v.

(** Left-justified padding with spaces, as for a negative field width. *)
Fixpoint pad_right (width : nat) (s : string) : string :=
  match width, s with
  | O, _ => s
  | S k, EmptyString => String " "%char (pad_right k EmptyString)
  | S k, String c r => String c (pad_right k r)
  end.

(** [printf("%0*zX", width, v)] and its lower-case variant; a negative
    width asks for left justification in [-width] columns. *)
Definition printf_0star (upper : bool) (width : Z) (v : Z) : string :=
  if width <? 0
  then pad_right (Z.to_nat (- width)) (if upper then printf_0X 0 v else printf_0x 0 v)
  else if upper then printf_0X (Z.to_nat width) v else printf_0x (Z.to_nat width) v.

End LibcText.

(** ** The grid of [DrawContents] and the address column of [CalcSizes] *)

Module Grid.
Import Libc LibcText.

(** Conversion to [int] (32 bits, two's complement). *)
Definition to_int (z : Z) : Z := (z + 2 ^ 31) mod 2 ^ 32 - 2 ^ 31.


(** Line 389: [(int)((mem_size + Cols - 1) / Cols)], in [size_t] arithmetic. *)
Definition line_total_count (Cols mem_size : Z) : Z :=
  to_int (wrap (wrap (mem_size + wrap Cols) - 1) / wrap Cols).

(** The loop of line 426 over the cells of one line, entered at column
    [colIdx] and address [addr]; it runs at most [Cols] times, which bounds
    [fuel].  Each cell is [(colIdx, addr)]. *)
Fixpoint hex_cells_from (fuel : nat) (Cols mem_size colIdx addr : Z) : list (Z * Z) :=
  match fuel with
  | O => []
  | S k =>
      if (colIdx <? Cols) && (addr <? mem_size)
      then (colIdx, addr) :: hex_cells_from k Cols mem_size (colIdx + 1) (wrap (addr + 1))
      else []
  end.

(** Lines 420 and 426: the cells of display line [line_i]. *)
Definition hex_cells (Cols mem_size line_i : Z) : list (Z * Z) :=
  hex_cells_from (Z.to_nat Cols) Cols mem_size 0 (wrap (to_int (line_i * Cols))).

(** Lines 322-323: [for (n = ...; n > 0; n >>= 4) count++]; a [size_t] is
    exhausted after sixteen shifts. *)
Fixpoint count_shifts (fuel : nat) (n count : Z) : Z :=
  match fuel with
  | O => count
  | S k => if n >? 0 then count_shifts k (Z.shiftr n 4) (count + 1) else count
  end.

(** Lines 320-323 of [CalcSizes]. *)
Definition AddrDigitsCount (OptAddrDigitsCount mem_size base_display_addr : Z) : Z :=
  if OptAddrDigitsCount =? 0
  then count_shifts 16 (wrap (wrap (base_display_addr + mem_size) - 1)) OptAddrDigitsCount
  else OptAddrDigitsCount.

(** Lines 411 and 421: the text of the address column of one line. *)
Definition address_label (OptUpperCaseHex : bool) (digits base_display_addr addr : Z) : string :=
  (printf_0star OptUpperCaseHex digits (wrap (base_display_addr + addr)) ++ ": ")%string.

End Grid.

(** ** Cursor and go-to state (lines 294-299, 395-398, 489-492, 506-507,
       536-545, 694-715) *)

Module Navigation.
Import Libc Grid.

Record NavState : Type := mkNavState {
  GotoAddr : Z;
  HighlightMin : Z;
  HighlightMax : Z;
  DataPreviewAddr : Z;
  DataEditingAddr : Z;
  DataEditingTakeFocus : bool;
  AddrInputBuf : string
}.

Definition set_cursor (addr : Z) (st : NavState) : NavState :=
  mkNavState (GotoAddr st) (HighlightMin st) (HighlightMax st) addr addr true
             (AddrInputBuf st).

(** Lines 294-299. *)
Definition GotoAddrAndHighlight (addr_min addr_max : Z) (st : NavState) : NavState :=
  mkNavState addr_min addr_min addr_max (DataPreviewAddr st) (DataEditingAddr st)
             (DataEditingTakeFocus st) (AddrInputBuf st).





(** Lines 694-715 of [DrawOptionsLine].  [entered] tells whether the address
    field returned true; the second component is the line scrolled to, if
    any. *)
Definition goto_step (entered : bool) (Cols mem_size base_display_addr : Z) (st : NavState)
  : NavState * option Z :=
  let st :=
    if entered then
      match sscanf_zX (AddrInputBuf st) with
      | Some goto_addr =>
          mkNavState (wrap (goto_addr - base_display_addr)) SIZE_MAX SIZE_MAX
                     (DataPreviewAddr st) (DataEditingAddr st) (DataEditingTakeFocus st)
                     (AddrInputBuf st)
      | None => st
      end
    else st in
  if negb (GotoAddr st =? SIZE_MAX) then
    let '(st1, scroll) :=
      if GotoAddr st <? mem_size
      then (set_cursor (GotoAddr st) st, Some (GotoAddr st / wrap Cols))
      else (st, None) in
    (mkNavState SIZE_MAX (HighlightMin st1) (HighlightMax st1) (DataPreviewAddr st1)
                (DataEditingAddr st1) (DataEditingTakeFocus st1) (AddrInputBuf st1),
     scroll)
  else (st, None).


End Navigation.

(** ** The converter panel around its input field (lines 754-871) *)

Module ConverterPanel.
Import Libc LibcText Codec.

Section Panel.
Variable host_little_endian : bool.
(** [printf("%f", x)] and the two floating-point scans, left abstract. *)
Variable printf_f : fp_value -> string.
Variable sscanf_f : string -> option Z.
Variable sscanf_lf : string -> option Z.

(** [sizeof(ValueConverterInputBuf)]. *)
Definition INPUT_BUF_SIZE : Z := 32.

Definition set_text (text : string) (st : ConverterState) : ConverterState :=
  mkConverterState (ValueToConvert st) (ConvertValueType st) (ConvertValueFormat st) text.

(** [ImSnprintf(ValueConverterInputBuf, ..., "%lX" | "%ld" | "%lu", ValueToConvert)]. *)
Definition render_lX (st : ConverterState) : ConverterState :=
  set_text (snprintf INPUT_BUF_SIZE (printf_X (ValueToConvert st))) st.

Definition render_ld (st : ConverterState) : ConverterState :=
  set_text (snprintf INPUT_BUF_SIZE (printf_d (to_signed 64 (ValueToConvert st)))) st.

Definition render_lu (st : ConverterState) : ConverterState :=
  set_text (snprintf INPUT_BUF_SIZE (printf_d (ValueToConvert st))) st.

(** ["%lf"] applied to the register read as a [double] (line 833). *)
Definition render_lf (st : ConverterState) : ConverterState :=
  set_text (snprintf INPUT_BUF_SIZE (printf_f (binary64 (ValueToConvert st)))) st.

Definition is_even_type (t : DataType_) : bool := Z.rem (DataType_index t) 2 =? 0.

Definition DataFormat_eqb (a b : DataFormat) : bool :=
  match a, b with
  | DataFormat_Bin, DataFormat_Bin | DataFormat_Dec, DataFormat_Dec
  | DataFormat_Hex, DataFormat_Hex => true
  | _, _ => false
  end.

(** Lines 766-796: the body of the format combo while it is open;
    [clicked] is the entry selected in this frame, if any. *)
Definition format_combo (clicked : option DataFormat) (st : ConverterState) : ConverterState :=
  let prev_format := ConvertValueFormat st in
  let st :=
    match clicked with
    | Some f => mkConverterState (ValueToConvert st) (ConvertValueType st) f
                                 (ValueConverterInputBuf st)
    | None => st
    end in
  if DataFormat_eqb prev_format (ConvertValueFormat st) then st
  else
    match ConvertValueFormat st with
    | DataFormat_Hex => render_lX st
    | _ => if is_even_type (ConvertValueType st) then render_ld st else render_lu st
    end.

(** Lines 804-838: the body of the type combo while it is open. *)
Definition type_combo (clicked : option DataType_) (st : ConverterState) : ConverterState :=
  let prev_type := ConvertValueType st in
  let st :=
    match clicked with
    | Some t => mkConverterState (ValueToConvert st) t (ConvertValueFormat st)
                                 (ValueConverterInputBuf st)
    | None => st
    end in
  let t := ConvertValueType st in
  match ConvertValueFormat st with
  | DataFormat_Hex => render_lX st
  | _ =>
      if DataType_index prev_type >=? DataType_index DataType_HalfFloat then
        if DataType_index t <=? DataType_index DataType_U64 then
          if is_even_type t then render_ld st else render_lu st
        else st
      else
        let st :=
          if DataType_index t <=? DataType_index DataType_U64 then
            if is_even_type prev_type && (Z.rem (DataType_index t) 2 =? 1)
            then render_lu st else st
          else st in
        if DataType_index t >=? DataType_index DataType_HalfFloat
        then render_lf st else st
  end.

(** What the user did to the panel in one frame: each combo is closed
    ([None]) or open with possibly an entry clicked; [typed] is the new
    content of the input field when the field reports an edit. *)
Record PanelInput : Type := mkPanelInput {
  format_event : option (option DataFormat);
  type_event : option (option DataType_);
  typed : option string
}.

(** Lines 755-871: the two combos, then the scan when an update is forced or
    the field was edited (the field is not consulted when an update is
    forced). *)
Definition converter_frame (input : PanelInput) (st : ConverterState) : ConverterState :=
  let '(st, force1) :=
    match format_event input with
    | Some clicked => (format_combo clicked st, true)
    | None => (st, false)
    end in
  let '(st, force2) :=
    match type_event input with
    | Some clicked => (type_combo clicked st, true)
    | None => (st, false)
    end in
  if force1 || force2 then parse_input host_little_endian sscanf_f sscanf_lf st
  else
    match typed input with
    | Some text => parse_input host_little_endian sscanf_f sscanf_lf (set_text text st)
    | None => st
    end.

End Panel.
End ConverterPanel.

(** ** One hex cell of [DrawContents] (lines 433-485) and the "+" button of
       the notes table (lines 905-913) *)

Module Cell.
Import RangeIndex Outline Codec Grid.

(** Line 906: [Notes.push_back] of the default note. *)
Definition add_note (DEFAULT_NOTE_COLOR : Z) (notes : list NoteRange) : list NoteRange :=
  notes ++ [mkNoteRange 0 1 DEFAULT_NOTE_COLOR "Some description" true].

Section Draw.
Variable host_little_endian : bool.
Context {F : Type} `{FloatOps F}.

(** The members [r], [g], [b], [a] of [union Color] are the four bytes of
    [id] in address order. *)
Definition channels (c : Color) : list Z := object_bytes host_little_endian 4 c.

Definition of_channels (bytes : list Z) : Color := object_value host_little_endian bytes.

(** Lines 448-450: the colour channels are averaged, alpha is kept. *)
Definition blend (highlight_color highlight_range_color : Color) : Color :=
  let c1 := channels highlight_color in
  let c2 := channels highlight_range_color in
  of_channels [ ((nth 0 c1 0 + nth 0 c2 0) / 2) mod 256;
                ((nth 1 c1 0 + nth 1 c2 0) / 2) mod 256;
                ((nth 2 c1 0 + nth 2 c2 0) / 2) mod 256;
                nth 3 c1 0 ].

(** What is drawn behind one hex cell: the filled rectangle (its width and
    colour) and the note outline. *)
Record CellDraw : Type := mkCellDraw {
  fill : option (F * Color);
  outline : option (@NoteRect F)
}.

Definition is_in_range (p : RangePosition) : bool :=
  if RangePosition_eq_dec p NotInRange then false else true.

(** The common tail of the three branches: the note lookup and
    [drawNoteRect] (lines 463-466, 477-480, 481-485).  [color] is the
    current content of [highlight_range_color]. *)
Definition note_outline (ed : Editor) (s : Sizes F) (addr : Z) (pos_x pos_y : F)
    (color : Color) (colIdx line_idx line_max_idx : Z) : option (@NoteRect F) :=
  let '(range_position, o) := IsInRange (Notes ed) addr (mkOut color SIZE_MAX) in
  if is_in_range range_position
  then Some (drawNoteRect ed (RangeIndex.range_idx o) addr pos_x pos_y (RangeIndex.color o)
               range_position (HexCellWidth s) colIdx (to_int line_idx)
               (to_int line_max_idx) s)
  else None.

(** Lines 433-485.  [uninitialised] is the indeterminate initial content of
    the local [highlight_range_color]. *)
Definition draw_hex_cell (ed : Editor) (s : Sizes F) (HighlightColor : Z)
    (mem_data : list Z) (mem_size preview_data_type_size : Z)
    (addr colIdx line_idx line_max_idx : Z) (pos_x pos_y : F) (uninitialised : Color)
  : CellDraw :=
  let is_highlight_from_user_range :=
    (addr >=? HighlightMin ed) && (addr <? HighlightMax ed) in
  let is_highlight_from_user_func :=
    match HighlightFn ed with
    | Some fn => fn mem_data addr
    | None => false
    end in
  let is_highlight_from_preview :=
    (addr >=? DataPreviewAddr ed)
    && (addr <? wrap (DataPreviewAddr ed + preview_data_type_size)) in
  let '(range_position, o) := IsInRange (Ranges ed) addr (mkOut uninitialised SIZE_MAX) in
  let width :=
    highlight_width ed s addr mem_size preview_data_type_size (RangeIndex.range_idx o)
      mem_data colIdx in
  if is_highlight_from_user_range || is_highlight_from_user_func || is_highlight_from_preview
  then
    let highlight_color :=
      if is_in_range range_position then blend HighlightColor (RangeIndex.color o)
      else HighlightColor in
    mkCellDraw (Some (width, highlight_color))
      (note_outline ed s addr pos_x pos_y (RangeIndex.color o) colIdx line_idx line_max_idx)
  else if is_in_range range_position then
    mkCellDraw (Some (width, RangeIndex.color o))
      (note_outline ed s addr pos_x pos_y (RangeIndex.color o) colIdx line_idx line_max_idx)
  else
    mkCellDraw None
      (note_outline ed s addr pos_x pos_y (RangeIndex.color o) colIdx line_idx line_max_idx).

End Draw.
End Cell.

(** * Properties *)

(** ** Range lookup *)

Module RangeIndexFacts.
Import BinarySearch RangeIndex.

Section WithRange.
Context {T : Type} `{RangeLike T}.

(** Sorted by start address and pairwise non-overlapping: every range starts
    no later than, and ends no later than the start of, every range stored
    after it. *)
Definition precedes (a b : T) : Prop :=
  RangeStartAddress a <= RangeStartAddress b /\ RangeEndAddress a <= RangeStartAddress b.

Definition SortedDisjoint (rs : list T) : Prop := StronglySorted precedes rs.

(** The same requirement read set-wise on well-formed ranges. *)
Definition well_formed (r : T) : Prop := RangeStartAddress r < RangeEndAddress r.

Definition set_disjoint (a b : T) : Prop :=
  forall addr, ~ (contains a addr = true /\ contains b addr = true).

Lemma contains_iff (r : T) addr :
  contains r addr = true <-> RangeStartAddress r <= addr < RangeEndAddress r.
Proof. unfold contains. rewrite andb_true_iff, Z.leb_le, Z.ltb_lt. tauto. Qed.

Lemma contains_false_iff (r : T) addr :
  contains r addr = false <-> ~ (RangeStartAddress r <= addr < RangeEndAddress r).
Proof. rewrite <- contains_iff. destruct (contains r addr); split; congruence. Qed.

Lemma well_formed_precedes (a b : T) :
  well_formed a -> well_formed b ->
  RangeStartAddress a <= RangeStartAddress b -> set_disjoint a b -> precedes a b.
Proof.
  unfold well_formed, set_disjoint, precedes. intros Ha Hb Hs Hd. split; [assumption|].
  destruct (Z_le_gt_dec (RangeEndAddress a) (RangeStartAddress b)) as [Hle|Hgt]; [assumption|].
  exfalso. apply (Hd (RangeStartAddress b)). rewrite !contains_iff. lia.
Qed.

Lemma SortedDisjoint_nth (rs : list T) :
  SortedDisjoint rs ->
  forall i j a b, (i < j)%nat -> nth_error rs i = Some a -> nth_error rs j = Some b ->
  precedes a b.
Proof.
  induction 1 as [|x l Hs IH Hall]; intros i j a b Hij Hi Hj.
  - destruct i; discriminate.
  - destruct j as [|j]; [lia|]. simpl in Hj. destruct i as [|i]; simpl in Hi.
    + injection Hi as <-. rewrite Forall_forall in Hall. apply Hall.
      eapply nth_error_In; eassumption.
    + apply (IH i j); [lia|assumption|assumption].
Qed.

(** *** The linear scan *)

Lemma linear_scan_skip (l1 l2 : list T) idx addr o :
  Forall (fun r => contains r addr = false) l1 ->
  linear_scan (l1 ++ l2) idx addr o = linear_scan l2 (idx + List.length l1) addr o.
Proof.
  intros Hall. revert idx. induction Hall as [|r l Hr _ IH]; intros idx; simpl.
  - f_equal. lia.
  - rewrite Hr, IH. f_equal. lia.
Qed.

Lemma linear_scan_none (rs : list T) idx addr o :
  Forall (fun r => contains r addr = false) rs ->
  linear_scan rs idx addr o = (NotInRange, o).
Proof.
  intros Hall. rewrite <- (app_nil_r rs), (linear_scan_skip rs [] idx addr o Hall).
  reflexivity.
Qed.

(** Either no range contains [addr], or there is a first one. *)
Lemma first_containing (rs : list T) addr :
  Forall (fun r => contains r addr = false) rs \/
  exists l1 r l2, rs = l1 ++ r :: l2 /\
    Forall (fun r => contains r addr = false) l1 /\ contains r addr = true.
Proof.
  induction rs as [|x l IH].
  - left. constructor.
  - destruct (contains x addr) eqn:Hx.
    + right. exists [], x, l. repeat split; [constructor|assumption].
    + destruct IH as [Hnone|(l1 & r & l2 & -> & Hl1 & Hr)].
      * left. constructor; assumption.
      * right. exists (x :: l1), r, l2. repeat split; [constructor|]; assumption.
Qed.

Lemma linear_scan_first (l1 l2 : list T) r addr o :
  Forall (fun r => contains r addr = false) l1 -> contains r addr = true ->
  linear_scan (l1 ++ r :: l2) 0 addr o =
  if isActive r
  then (classify r addr,
        set_range_idx (Z.of_nat (List.length l1)) (set_color (RangeColor r) o))
  else (NotInRange, set_color (RangeColor r) o).
Proof.
  intros Hl1 Hr. rewrite (linear_scan_skip l1 (r :: l2) 0 addr o Hl1). simpl.
  rewrite Hr. destruct (isActive r); reflexivity.
Qed.

(** *** The comparator and the binary search *)

Lemma range_cmp_miss (r : T) addr o :
  contains r addr = false ->
  (range_cmp addr r o = (Some (-1), o) /\ addr < RangeStartAddress r) \/
  (range_cmp addr r o = (Some 1, o) /\
   RangeStartAddress r <= addr /\ RangeEndAddress r <= addr).
Proof.
  rewrite contains_false_iff. unfold range_cmp. intros Hn.
  destruct (addr <? RangeStartAddress r) eqn:H1.
  - left. apply Z.ltb_lt in H1. auto.
  - right. apply Z.ltb_ge in H1.
    destruct (addr >=? RangeEndAddress r) eqn:H2.
    + apply Z.geb_le in H2. auto.
    + rewrite Z.geb_leb in H2. apply Z.leb_gt in H2. lia.
Qed.

Lemma range_cmp_hit (r : T) addr o :
  contains r addr = true ->
  range_cmp addr r o =
  if isActive r then (Some 0, set_color (RangeColor r) o) else (cancel_search, o).
Proof.
  rewrite contains_iff. unfold range_cmp. intros [H1 H2].
  destruct (addr <? RangeStartAddress r) eqn:E1; [apply Z.ltb_lt in E1; lia|].
  destruct (addr >=? RangeEndAddress r) eqn:E2; [apply Z.geb_le in E2; lia|].
  reflexivity.
Qed.

Section AnyPivot.
Variable pivot : nat -> nat -> nat.
Hypothesis pivot_inside : forall lo hi, (lo < hi)%nat -> (lo <= pivot lo hi < hi)%nat.

(** Without any assumption on the order: when no range contains [addr] the
    search ends as not-found and leaves the state alone. *)
Lemma find_window_none (v : list T) addr lo hi o :
  Forall (fun r => contains r addr = false) v ->
  find_window pivot pivot_inside (range_cmp addr) v lo hi o = (None, o).
Proof.
  intros Hall.
  funelim (find_window pivot pivot_inside (range_cmp addr) v lo hi o);
    try reflexivity.
  all: match goal with
       | Hn : nth_error _ _ = Some ?x |- _ =>
           let Hx := fresh in
           assert (Hx : contains x addr = false)
             by (rewrite Forall_forall in Hall; apply Hall;
                 eapply nth_error_In; exact Hn);
           destruct (range_cmp_miss x addr s Hx) as [[Hc _]|[Hc _]];
           rewrite Hc in *
       end.
  all: try discriminate.
  all: match goal with
       | Hc : (Some _, _) = (Some _, _) |- _ => injection Hc as <- <-
       | Hc : (Some _, _) = (None, _) |- _ => discriminate Hc
       | _ => idtac
       end.
  all: try lia; auto.
Qed.

Lemma find_window_unfold {St : Type} (cmp : T -> St -> order * St) (v : list T) lo hi s :
  find_window pivot pivot_inside cmp v lo hi s =
  if lt_dec lo hi then
    match nth_error v (pivot lo hi) with
    | None => (None, s)
    | Some x =>
        match cmp x s with
        | (None, s') => (None, s')
        | (Some c, s') =>
            if c <? 0 then find_window pivot pivot_inside cmp v lo (pivot lo hi) s'
            else if 0 <? c then find_window pivot pivot_inside cmp v (S (pivot lo hi)) hi s'
            else (Some (pivot lo hi), s')
        end
    end
  else (None, s).
Proof.
  funelim (find_window pivot pivot_inside cmp v lo hi s);
    try clear Heqcall;
    repeat match goal with
           | Hr : ?a = _ |- context [?a] => rewrite Hr
           end;
    try reflexivity.
  all: repeat match goal with
         | |- context [?a <? ?b] => destruct (Z.ltb_spec a b); try lia
         end; try reflexivity.
Qed.

(** On a sorted, non-overlapping sequence the search reaches the range that
    contains [addr], whatever the probes, and reports it when it is active. *)
Lemma find_window_hit (v : list T) addr i r :
  SortedDisjoint v -> nth_error v i = Some r -> contains r addr = true ->
  forall n lo hi o, (hi - lo <= n)%nat -> (lo <= i < hi)%nat -> (hi <= List.length v)%nat ->
  find_window pivot pivot_inside (range_cmp addr) v lo hi o =
  if isActive r then (Some i, set_color (RangeColor r) o) else (None, o).
Proof.
  intros Hsorted Hi Hr. pose proof (proj1 (contains_iff r addr) Hr) as Hin.
  induction n as [|n IH]; intros lo hi o Hn Hlo Hhi; [lia|].
  rewrite find_window_unfold.
  destruct (lt_dec lo hi) as [Hlt|]; [|lia].
  pose proof (pivot_inside lo hi Hlt) as Hp.
  destruct (nth_error v (pivot lo hi)) as [x|] eqn:Hx;
    [|apply nth_error_None in Hx; lia].
  destruct (Nat.lt_trichotomy (pivot lo hi) i) as [Hpi|[Hpi|Hpi]].
  - (* the probe is before the range: go right *)
    destruct (SortedDisjoint_nth v Hsorted _ _ _ _ Hpi Hx Hi) as [Hs He].
    assert (Hmiss : contains x addr = false) by (apply contains_false_iff; lia).
    destruct (range_cmp_miss x addr o Hmiss) as [[Hc Hlt']|[Hc _]]; [lia|].
    rewrite Hc. simpl. apply IH; lia.
  - (* the probe is the range *)
    rewrite Hpi in Hx. rewrite Hi in Hx. injection Hx as <-.
    rewrite (range_cmp_hit r addr o Hr). destruct (isActive r); [|reflexivity].
    simpl. rewrite Hpi. reflexivity.
  - (* the probe is after the range: go left *)
    destruct (SortedDisjoint_nth v Hsorted _ _ _ _ Hpi Hi Hx) as [Hs He].
    assert (Hmiss : contains x addr = false) by (apply contains_false_iff; lia).
    destruct (range_cmp_miss x addr o Hmiss) as [[Hc _]|[Hc [Hge _]]]; [|lia].
    rewrite Hc. simpl. apply IH; lia.
Qed.

End AnyPivot.

(** *** The two paths against a common description *)

Lemma binary_path_none (rs : list T) addr o :
  Forall (fun r => contains r addr = false) rs ->
  binary_path rs addr o = (NotInRange, o).
Proof.
  intros Hall. unfold binary_path, binary_find.
  rewrite (find_window_none midpoint midpoint_inside rs addr 0 (List.length rs) o Hall).
  reflexivity.
Qed.

Lemma binary_path_hit (l1 l2 : list T) r addr o :
  SortedDisjoint (l1 ++ r :: l2) -> contains r addr = true ->
  binary_path (l1 ++ r :: l2) addr o =
  if isActive r
  then (classify r addr,
        set_range_idx (Z.of_nat (List.length l1)) (set_color (RangeColor r) o))
  else (NotInRange, o).
Proof.
  intros Hsorted Hr. unfold binary_path, binary_find.
  assert (Hnth : nth_error (l1 ++ r :: l2) (List.length l1) = Some r)
    by (rewrite nth_error_app2, Nat.sub_diag by lia; reflexivity).
  rewrite (find_window_hit midpoint midpoint_inside _ addr _ r Hsorted Hnth Hr
             (List.length (l1 ++ r :: l2)) 0 (List.length (l1 ++ r :: l2)) o).
  - destruct (isActive r); [rewrite Hnth|]; reflexivity.
  - lia.
  - rewrite length_app. simpl. lia.
  - lia.
Qed.

(** The result of either path always comes from an active range that
    contains the address. *)
Definition reports (rs : list T) (addr : Z) (res : RangePosition * Out) : Prop :=
  fst res = NotInRange \/
  exists i r, nth_error rs i = Some r /\ contains r addr = true /\ isActive r = true /\
    fst res = classify r addr /\ range_idx (snd res) = Z.of_nat i /\
    color (snd res) = RangeColor r.

Lemma classify_not_NotInRange (r : T) addr : classify r addr <> NotInRange.
Proof.
  unfold classify. destruct (addr =? RangeStartAddress r); [discriminate|].
  destruct (addr =? wrap (RangeEndAddress r - 1)); discriminate.
Qed.

Lemma linear_scan_reports (rs : list T) addr o : reports rs addr (linear_scan rs 0 addr o).
Proof.
  destruct (first_containing rs addr) as [Hnone|(l1 & r & l2 & -> & Hl1 & Hr)].
  - rewrite linear_scan_none by assumption. left. reflexivity.
  - rewrite linear_scan_first by assumption. destruct (isActive r) eqn:Ha.
    + right. exists (List.length l1), r. repeat split; try assumption; try reflexivity.
      rewrite nth_error_app2, Nat.sub_diag by lia. reflexivity.
    + left. reflexivity.
Qed.

Lemma binary_path_reports (rs : list T) addr o : reports rs addr (binary_path rs addr o).
Proof.
  unfold binary_path, binary_find.
  generalize (List.length rs) at 1. generalize 0%nat. intros lo hi.
  assert (Hgen : forall n lo hi o, (hi - lo <= n)%nat ->
    match find_window midpoint midpoint_inside (range_cmp addr) rs lo hi o with
    | (None, _) => True
    | (Some i, o1) => exists r, nth_error rs i = Some r /\ contains r addr = true /\
                        isActive r = true /\ color o1 = RangeColor r
    end).
  { induction n as [|n IH]; intros lo' hi' o' Hn; rewrite find_window_unfold.
    - destruct (lt_dec lo' hi'); [lia|exact I].
    - destruct (lt_dec lo' hi') as [Hlt|]; [|exact I].
      pose proof (midpoint_inside lo' hi' Hlt) as Hp.
      destruct (nth_error rs (midpoint lo' hi')) as [x|] eqn:Hx; [|exact I].
      destruct (contains x addr) eqn:Hc.
      + rewrite (range_cmp_hit x addr o' Hc). destruct (isActive x) eqn:Ha; [|exact I].
        simpl. exists x. repeat split; assumption || reflexivity.
      + destruct (range_cmp_miss x addr o' Hc) as [[-> _]|[-> _]]; simpl; apply IH; lia. }
  specialize (Hgen (hi - lo)%nat lo hi o (Nat.le_refl _)).
  destruct (find_window midpoint midpoint_inside (range_cmp addr) rs lo hi o) as [[i|] o1].
  - destruct Hgen as (r & Hi & Hc & Ha & Hcol). rewrite Hi.
    right. exists i, r. repeat split; assumption || reflexivity.
  - left. reflexivity.
Qed.

Lemma IsInRange_via_reports linear (rs : list T) addr o :
  reports rs addr (IsInRange_via linear rs addr o).
Proof.
  unfold IsInRange_via. destruct rs as [|front rest]; [left; reflexivity|].
  destruct ((addr <? RangeStartAddress front)
            || (addr >? RangeEndAddress (last (front :: rest) front)));
    [left; reflexivity|].
  destruct linear; [apply linear_scan_reports|apply binary_path_reports].
Qed.

End WithRange.

(** C1.  On every sequence of ranges sorted by start address and pairwise
    non-overlapping, and for every address (in particular every address of
    [front.start, back.end)), [IsInRange] run through the linear scan and
    run through the binary search return the same classification, and on a
    match the same colour and index. *)
Theorem IsInRange_linear_binary_agree :
  forall (T : Type) (R : RangeLike T) (rs : list T) (addr : Z) (o : Out),
  SortedDisjoint rs ->
  fst (IsInRange_via true rs addr o) = fst (IsInRange_via false rs addr o) /\
  (fst (IsInRange_via true rs addr o) <> NotInRange ->
   snd (IsInRange_via true rs addr o) = snd (IsInRange_via false rs addr o)).
Proof.
  intros T R rs addr o Hsorted. unfold IsInRange_via.
  destruct rs as [|front rest]; [split; reflexivity|].
  destruct ((addr <? RangeStartAddress front)
            || (addr >? RangeEndAddress (last (front :: rest) front)));
    [split; reflexivity|].
  destruct (first_containing (front :: rest) addr) as [Hnone|(l1 & r & l2 & Heq & Hl1 & Hr)].
  - rewrite linear_scan_none, binary_path_none by assumption. split; reflexivity.
  - rewrite Heq in *. rewrite linear_scan_first, binary_path_hit by assumption.
    destruct (isActive r); simpl; split; try reflexivity.
    intros Hne. congruence.
Qed.

Lemma IsInRange_linear_binary_agree_witness :
  let rs := [mkHighlightRange 0 4 7 true; mkHighlightRange 4 9 8 false;
             mkHighlightRange 20 30 9 true] in
  fst (IsInRange_via true rs 25 out0) = fst (IsInRange_via false rs 25 out0) /\
  (fst (IsInRange_via true rs 25 out0) <> NotInRange ->
   snd (IsInRange_via true rs 25 out0) = snd (IsInRange_via false rs 25 out0)).
Proof.
  intros rs. apply (IsInRange_linear_binary_agree HighlightRange _ rs 25 out0).
  unfold rs, SortedDisjoint.
  repeat (constructor; unfold precedes; simpl; try lia).
Defined.

(** C2, as the claim states it, fails on a range that holds a single
    address: for the active range [10, 11) the address 10 equals
    [RangeEndAddress - 1], yet the result is [Start], not [End]. *)
Lemma IsInRange_single_address_range_is_Start :
  let r := mkHighlightRange 10 11 1 true in
  fst (IsInRange [r] 10 out0) = Start /\
  range_idx (snd (IsInRange [r] 10 out0)) = 0 /\
  10 = RangeEndAddress r - 1 /\
  ~ (fst (IsInRange [r] 10 out0) = End <-> 10 = RangeEndAddress r - 1).
Proof.
  vm_compute. repeat split; try reflexivity.
  intros [_ Himp]. specialize (Himp eq_refl). discriminate Himp.
Qed.

(** C2 (amended).  When [IsInRange] reports a range, that range is active
    and contains the address, the colour and the index are its own, and the
    classification is [Start] iff the address is its start address, [End]
    iff the address is its end address minus one and is not also its start
    address, and [Middle] otherwise.  The result is [NotInRange] when no
    active range contains the address or the sequence is empty.  For the
    single active range [10, 15): 10 is [Start], 14 is [End], 11 to 13 are
    [Middle] and 15 is [NotInRange]. *)
Theorem IsInRange_classification :
  forall (T : Type) (R : RangeLike T) (rs : list T) (addr : Z) (o : Out),
  0 <= addr -> Forall (fun r => RangeEndAddress r <= SIZE_MAX) rs ->
  let res := IsInRange rs addr o in
  (fst res = NotInRange \/
   exists i r, nth_error rs i = Some r /\ isActive r = true /\
     RangeStartAddress r <= addr < RangeEndAddress r /\
     range_idx (snd res) = Z.of_nat i /\ color (snd res) = RangeColor r /\
     (fst res = Start <-> addr = RangeStartAddress r) /\
     (fst res = End <-> addr = RangeEndAddress r - 1 /\ addr <> RangeStartAddress r) /\
     (fst res = Middle <-> addr <> RangeStartAddress r /\ addr <> RangeEndAddress r - 1)) /\
  ((forall r, In r rs -> isActive r = true -> contains r addr = false) ->
   fst res = NotInRange) /\
  (rs = [] -> fst res = NotInRange) /\
  (let r := mkHighlightRange 10 15 1 true in
   map (fun a => fst (IsInRange [r] a out0)) [10; 11; 12; 13; 14; 15]
   = [Start; Middle; Middle; Middle; End; NotInRange]).
Proof.
  intros T R rs addr o Haddr Hbound res.
  pose proof (IsInRange_via_reports (Z.of_nat (List.length rs) <? 100) rs addr o) as Hrep.
  fold (IsInRange rs addr o) in Hrep. fold res in Hrep.
  split; [|split; [|split]].
  - destruct Hrep as [Hnot|(i & r & Hi & Hc & Ha & Hcl & Hidx & Hcol)]; [left; assumption|].
    right. exists i, r. apply contains_iff in Hc.
    assert (Hend : wrap (RangeEndAddress r - 1) = RangeEndAddress r - 1).
    { apply wrap_small. rewrite Forall_forall in Hbound.
      specialize (Hbound r (nth_error_In _ _ Hi)). unfold is_size_t. lia. }
    split; [assumption|]. split; [assumption|]. split; [lia|].
    split; [assumption|]. split; [assumption|].
    rewrite Hcl. unfold classify. rewrite Hend.
    destruct (Z.eqb_spec addr (RangeStartAddress r));
      destruct (Z.eqb_spec addr (RangeEndAddress r - 1));
      repeat split; intros; try congruence; try lia; try discriminate;
      try tauto.
  - intros Hnone.
    destruct Hrep as [Hnot|(i & r & Hi & Hc & Ha & _)]; [assumption|].
    rewrite (Hnone r (nth_error_In _ _ Hi) Ha) in Hc. discriminate.
  - intros ->. reflexivity.
  - vm_compute. reflexivity.
Qed.

Lemma IsInRange_classification_witness :
  let rs := [mkHighlightRange 3 4 5 false; mkHighlightRange 10 15 1 true] in
  let res := IsInRange rs 14 out0 in
  fst res = NotInRange \/
  exists i r, nth_error rs i = Some r /\ isActive r = true /\
    RangeStartAddress r <= 14 < RangeEndAddress r /\
    range_idx (snd res) = Z.of_nat i /\ color (snd res) = RangeColor r /\
    (fst res = Start <-> 14 = RangeStartAddress r) /\
    (fst res = End <-> 14 = RangeEndAddress r - 1 /\ 14 <> RangeStartAddress r) /\
    (fst res = Middle <-> 14 <> RangeStartAddress r /\ 14 <> RangeEndAddress r - 1).
Proof.
  intros rs res.
  apply (IsInRange_classification HighlightRange _ rs 14 out0).
  - lia.
  - repeat constructor; vm_compute; discriminate.
Defined.

(** C6.  Inactive ranges are never reported.  An address that no active range
    contains yields [NotInRange] on the linear path, on the binary-search
    path and hence from [IsInRange].  On the linear path, when the first
    range in insertion order that contains the address is inactive, the scan
    stops there with [NotInRange] whatever ranges follow, so that a later
    active range containing the address is not reported.  The inactive range
    [0, 100) with address 50 gives [NotInRange] below and above the
    threshold of 100 ranges. *)
Theorem IsInRange_inactive_never_reported :
  forall (T : Type) (R : RangeLike T),
  (forall (rs : list T) (addr : Z) (o : Out),
     (forall r, In r rs -> contains r addr = true -> isActive r = false) ->
     fst (IsInRange_via true rs addr o) = NotInRange /\
     fst (IsInRange_via false rs addr o) = NotInRange /\
     fst (IsInRange rs addr o) = NotInRange) /\
  (forall (l1 l2 : list T) (r : T) (addr : Z) (o : Out),
     Forall (fun x => contains x addr = false) l1 ->
     contains r addr = true -> isActive r = false ->
     linear_scan (l1 ++ r :: l2) 0 addr o = (NotInRange, set_color (RangeColor r) o) /\
     fst (IsInRange_via true (l1 ++ r :: l2) addr o) = NotInRange) /\
  (fst (IsInRange [mkHighlightRange 0 100 1 false] 50 out0) = NotInRange /\
   fst (IsInRange [mkHighlightRange 0 100 1 false; mkHighlightRange 40 60 2 true] 50 out0)
     = NotInRange /\
   List.length (sample_ranges [5%nat]) = 100%nat /\
   fst (IsInRange (sample_ranges [5%nat]) 52 out0) = NotInRange /\
   fst (IsInRange (sample_ranges []) 52 out0) = Middle).
Proof.
  intros T R. split; [|split].
  - intros rs addr o Hinactive.
    assert (Hgen : forall linear, fst (IsInRange_via linear rs addr o) = NotInRange).
    { intros linear.
      destruct (IsInRange_via_reports linear rs addr o)
        as [Hnot|(i & r & Hi & Hc & Ha & _)]; [assumption|].
      rewrite (Hinactive r (nth_error_In _ _ Hi) Hc) in Ha. discriminate. }
    repeat split; apply Hgen.
  - intros l1 l2 r addr o Hl1 Hr Ha. split.
    + rewrite linear_scan_first by assumption. rewrite Ha. reflexivity.
    + unfold IsInRange_via. destruct (l1 ++ r :: l2) as [|front rest] eqn:Heq;
        [reflexivity|].
      destruct ((addr <? RangeStartAddress front)
                || (addr >? RangeEndAddress (last (front :: rest) front)));
        [reflexivity|].
      rewrite <- Heq, linear_scan_first by assumption. rewrite Ha. reflexivity.
  - vm_compute. repeat split; reflexivity.
Qed.

Lemma IsInRange_inactive_never_reported_witness :
  let rs := [mkHighlightRange 0 100 1 false; mkHighlightRange 200 300 2 true] in
  fst (IsInRange_via true rs 50 out0) = NotInRange /\
  fst (IsInRange_via false rs 50 out0) = NotInRange /\
  fst (IsInRange rs 50 out0) = NotInRange.
Proof.
  intros rs.
  apply (proj1 (IsInRange_inactive_never_reported HighlightRange _) rs 50 out0).
  intros r [<-|[<-|[]]]; vm_compute; intros Hc; [reflexivity|discriminate Hc].
Defined.

End RangeIndexFacts.

(** ** Highlight width and note outlines *)

Module OutlineFacts.
Import RangeIndex Outline.

(** The next address lies in the buffer and is highlighted: by the user's
    interval, by the callback, by the preview span or by the range matched
    for the current cell. *)
Definition next_address_highlighted (ed : Editor) (addr mem_size preview_size range_idx : Z)
    (mem_data : list Z) : Prop :=
  addr + 1 < mem_size /\
  ((HighlightMax ed <> SIZE_MAX /\ HighlightMin ed <= addr + 1 < HighlightMax ed) \/
   (exists fn, HighlightFn ed = Some fn /\ fn mem_data (addr + 1) = true) \/
   (DataPreviewAddr ed <= addr + 1 < DataPreviewAddr ed + preview_size /\
    DataPreviewAddr ed + preview_size <= SIZE_MAX) \/
   (exists r, vector_at (Ranges ed) range_idx = Some r /\
              RangeStartAddress r <= addr + 1 < RangeEndAddress r)).

(** The next address is outside the buffer, or no highlight extends to it:
    the user's interval is unset or ends at or before it, the callback is
    absent or rejects it, the end of the preview span (in [size_t]
    arithmetic) and the end of the matched range, if any, are at or before
    it. *)
Definition no_highlight_reaches_next (ed : Editor) (addr mem_size preview_size range_idx : Z)
    (mem_data : list Z) : Prop :=
  mem_size <= addr + 1 \/
  ((HighlightMax ed = SIZE_MAX \/ HighlightMax ed <= addr + 1) /\
   (forall fn, HighlightFn ed = Some fn -> fn mem_data (addr + 1) = false) /\
   wrap (DataPreviewAddr ed + preview_size) <= addr + 1 /\
   (forall r, vector_at (Ranges ed) range_idx = Some r -> RangeEndAddress r <= addr + 1)).

Lemma isNextByteHighlighted_true ed addr mem_size preview_size range_idx mem_data :
  is_size_t (addr + 1) ->
  next_address_highlighted ed addr mem_size preview_size range_idx mem_data ->
  isNextByteHighlighted ed addr mem_size preview_size range_idx mem_data = true.
Proof.
  intros Hnext [Hmem Hsrc]. unfold isNextByteHighlighted.
  rewrite (wrap_small _ Hnext).
  apply andb_true_iff. split; [apply Z.ltb_lt; assumption|].
  destruct Hsrc as [[Hset [_ Hmax]]|[(fn & Hfn & Hcall)|[[[_ Hend] Hfit]|(r & Hr & [_ Hend])]]].
  - apply Z.eqb_neq in Hset. apply Z.ltb_lt in Hmax. rewrite Hset, Hmax. reflexivity.
  - rewrite Hfn, Hcall. apply orb_true_iff. left. apply orb_true_iff. left.
    apply orb_true_r.
  - assert (Hw : wrap (DataPreviewAddr ed + preview_size) = DataPreviewAddr ed + preview_size).
    { apply wrap_small. unfold is_size_t in *. lia. }
    rewrite Hw. apply Z.ltb_lt in Hend. rewrite Hend.
    apply orb_true_iff. left. apply orb_true_r.
  - rewrite Hr. apply Z.ltb_lt in Hend. rewrite Hend. apply orb_true_r.
Qed.

Lemma isNextByteHighlighted_false ed addr mem_size preview_size range_idx mem_data :
  is_size_t (addr + 1) ->
  no_highlight_reaches_next ed addr mem_size preview_size range_idx mem_data ->
  isNextByteHighlighted ed addr mem_size preview_size range_idx mem_data = false.
Proof.
  intros Hnext Hno. unfold isNextByteHighlighted.
  rewrite (wrap_small _ Hnext).
  destruct Hno as [Hmem|(Hmax & Hfn & Hprev & Hrange)].
  - apply Z.ltb_ge in Hmem. rewrite Hmem. reflexivity.
  - apply andb_false_iff. right.
    assert (H1 : negb (HighlightMax ed =? SIZE_MAX) && (addr + 1 <? HighlightMax ed) = false).
    { destruct Hmax as [Hunset|Hle].
      - apply Z.eqb_eq in Hunset. rewrite Hunset. reflexivity.
      - apply Z.ltb_ge in Hle. rewrite Hle. apply andb_false_r. }
    assert (H2 : match HighlightFn ed with
                 | Some fn => fn mem_data (addr + 1)
                 | None => false
                 end = false).
    { destruct (HighlightFn ed) as [fn|]; [apply Hfn|]; reflexivity. }
    assert (H3 : (addr + 1 <? wrap (DataPreviewAddr ed + preview_size)) = false)
      by (apply Z.ltb_ge; assumption).
    assert (H4 : match vector_at (Ranges ed) range_idx with
                 | Some r => addr + 1 <? RangeEndAddress r
                 | None => false
                 end = false).
    { destruct (vector_at (Ranges ed) range_idx) as [r|]; [|reflexivity].
      apply Z.ltb_ge. apply Hrange. reflexivity. }
    rewrite H1, H2, H3, H4. reflexivity.
Qed.

Ltac unwrap :=
  rewrite ?wrap_small by (unfold is_size_t in *; lia).

(** C8, as the claim states it, fails in two ways.  In both scenes the cell
    at address 5 belongs to the one-address range [5, 6) and is not in the
    last column, and the highlight is drawn with the full cell width.
    In the first scene the next address 6 is outside that range and is only
    flagged by the highlight callback.  In the second scene nothing
    annotates address 6 (no range, no note, no user highlight, no callback,
    and the preview span is [100, 104)). *)
Lemma highlight_widened_without_next_in_range :
  let flagged := mkEditor 16 8 (Some (fun _ off => off =? 6)) SIZE_MAX SIZE_MAX SIZE_MAX
                   [mkHighlightRange 5 6 1 true] [] in
  let ed := sample_editor 100 [mkHighlightRange 5 6 1 true] [] in
  let res := IsInRange (Ranges ed) 5 out0 in
  let narrow := fmul (GlyphWidth sample_sizes) (fconst 2) in
  (fst res = Start /\ range_idx (snd res) = 0 /\ 5 + 1 <> Cols ed /\
   fst (IsInRange (Ranges ed) 6 out0) = NotInRange /\
   HexCellWidth sample_sizes <> narrow) /\
  (highlight_width flagged sample_sizes 5 1000 4 (range_idx (snd res)) [] 5
     = HexCellWidth sample_sizes) /\
  (highlight_width ed sample_sizes 5 1000 4 (range_idx (snd res)) [] 5
     = HexCellWidth sample_sizes /\
   fst (IsInRange (Notes ed) 6 out0) = NotInRange /\
   ~ (DataPreviewAddr ed <= 6 < DataPreviewAddr ed + 4) /\
   ~ (HighlightMin ed <= 6 < HighlightMax ed) /\
   HighlightFn ed = None).
Proof.
  vm_compute. repeat split; try reflexivity; try discriminate.
  all: intros [H1 H2]; try apply H1; try discriminate H2; reflexivity.
Qed.

(** C8 (amended).  The width of a drawn highlight cell is the full cell width
    (plus the mid-column spacing where a column group ends) when the cell is
    in the last column of its line, and when the next address lies in the
    buffer and is highlighted by the user's interval, the callback, the
    preview span or the range matched for the cell.  It stays at two glyph
    widths when the cell is not in the last column and the next address is
    outside the buffer or no highlight extends to it. *)
Theorem highlight_width_widening :
  forall (F : Type) (ops : FloatOps F) (ed : Editor) (s : Sizes F)
         (addr mem_size preview_size range_idx : Z) (mem_data : list Z) (colIdx : Z),
  is_size_t (addr + 1) ->
  let w := highlight_width ed s addr mem_size preview_size range_idx mem_data colIdx in
  let full := if mid_cols_gap ed colIdx
              then fadd (HexCellWidth s) (SpacingBetweenMidCols s)
              else HexCellWidth s in
  (colIdx + 1 = Cols ed -> w = HexCellWidth s) /\
  (next_address_highlighted ed addr mem_size preview_size range_idx mem_data -> w = full) /\
  (colIdx + 1 <> Cols ed ->
   no_highlight_reaches_next ed addr mem_size preview_size range_idx mem_data ->
   w = fmul (GlyphWidth s) (fconst 2)).
Proof.
  intros F ops ed s addr mem_size preview_size range_idx mem_data colIdx Hnext w full.
  unfold w, full, highlight_width. split; [|split].
  - intros Hlast. apply Z.eqb_eq in Hlast. rewrite Hlast, orb_true_r.
    unfold mid_cols_gap. apply Z.eqb_eq in Hlast.
    destruct (Z.ltb_spec (colIdx + 1) (Cols ed)); [lia|].
    rewrite andb_false_r. reflexivity.
  - intros Hhl. rewrite (isNextByteHighlighted_true _ _ _ _ _ _ Hnext Hhl). reflexivity.
  - intros Hcol Hno. rewrite (isNextByteHighlighted_false _ _ _ _ _ _ Hnext Hno).
    apply Z.eqb_neq in Hcol. rewrite Hcol. reflexivity.
Qed.

Lemma highlight_width_widening_witness :
  let ed := sample_editor SIZE_MAX [mkHighlightRange 5 9 1 true] [] in
  let w := highlight_width ed sample_sizes 7 1000 4 0 [] 7 in
  let full := if mid_cols_gap ed 7
              then fadd (HexCellWidth sample_sizes) (SpacingBetweenMidCols sample_sizes)
              else HexCellWidth sample_sizes in
  (7 + 1 = Cols ed -> w = HexCellWidth sample_sizes) /\
  (next_address_highlighted ed 7 1000 4 0 [] -> w = full) /\
  (7 + 1 <> Cols ed -> no_highlight_reaches_next ed 7 1000 4 0 [] ->
   w = fmul (GlyphWidth sample_sizes) (fconst 2)).
Proof.
  intros ed.
  apply (highlight_width_widening Z Z_FloatOps ed sample_sizes 7 1000 4 0 [] 7).
  vm_compute. split; discriminate.
Defined.

(** C5, as the claim states it, fails on the last line of the visible
    window: the note [0, 32) occupies column 3 of line 0 (address 3) and of
    line 1 (address 19), there is no mid-column gap at column 3, and the
    bottom edge of the cell at line 0 is drawn when line 0 is the last
    visible line. *)
Lemma bottom_edge_drawn_on_last_visible_line :
  let ed := sample_editor SIZE_MAX []
              [mkNoteRange 0 32 1 "Some description" true] in
  let found := IsInRange (Notes ed) 3 out0 in
  let rect := drawNoteRect ed (range_idx (snd found)) 3 0 0 (color (snd found))
                (fst found) (HexCellWidth sample_sizes) 3 0 0 sample_sizes in
  fst found = Middle /\ range_idx (snd found) = 0 /\
  fst (IsInRange (Notes ed) (3 + Cols ed) out0) = Middle /\
  range_idx (snd (IsInRange (Notes ed) (3 + Cols ed) out0)) = 0 /\
  mid_cols_gap ed 3 = false /\
  HorizontalBottom rect <> None.
Proof.
  vm_compute. repeat split; try reflexivity. discriminate.
Qed.

(** C5 (amended).  For a cell of a matched note the top edge is always drawn,
    and the bottom edge is drawn iff a mid-column spacing gap follows the
    cell or [hasRangeBelow] answers false.  When the matched note also
    covers the cell directly below (same column, next line), no gap follows
    the cell and the line is not the last line of the visible window, the
    bottom edge is absent. *)
Theorem drawNoteRect_bottom_edge :
  forall (F : Type) (ops : FloatOps F) (ed : Editor) (note_idx addr : Z) (pos_x pos_y : F)
         (col : Color) (range_position : RangePosition) (width : F)
         (colIdx lineIdx line_max_idx : Z) (s : Sizes F),
  let rect := drawNoteRect ed note_idx addr pos_x pos_y col range_position width
                colIdx lineIdx line_max_idx s in
  let lastLineAddr := wrap (addr + wrap (Cols ed - colIdx - 1)) in
  HorizontalTop rect <> None /\
  (HorizontalBottom rect <> None <->
   mid_cols_gap ed colIdx = true \/
   hasRangeBelow ed lastLineAddr note_idx (wrap lineIdx) (wrap colIdx) (wrap line_max_idx)
     = false) /\
  (forall note : NoteRange,
     vector_at (Notes ed) note_idx = Some note ->
     0 <= addr -> 0 <= colIdx < Cols ed -> addr + Cols ed <= SIZE_MAX ->
     addr + Cols ed < RangeEndAddress note ->
     mid_cols_gap ed colIdx = false ->
     0 <= lineIdx < line_max_idx -> line_max_idx <= SIZE_MAX ->
     HorizontalBottom rect = None).
Proof.
  intros F ops ed note_idx addr pos_x pos_y col range_position width
         colIdx lineIdx line_max_idx s rect lastLineAddr.
  unfold rect, lastLineAddr, drawNoteRect. split; [|split].
  - destruct (negb (mid_cols_gap ed colIdx) && _); simpl; discriminate.
  - destruct (negb (mid_cols_gap ed colIdx) && _); simpl.
    all: destruct (mid_cols_gap ed colIdx); simpl.
    all: try (split; [intros _; left; reflexivity|intros _; discriminate]).
    all: destruct (hasRangeBelow ed _ note_idx _ _ _); simpl.
    all: split; intros Hx; try discriminate; try (right; reflexivity);
         try (exfalso; apply Hx; reflexivity);
         destruct Hx as [Hx|Hx]; discriminate Hx.
  - intros note Hnote Haddr Hcol Hfit Hbelow Hgap Hline Hmax.
    assert (Hhas : hasRangeBelow ed (wrap (addr + wrap (Cols ed - colIdx - 1))) note_idx
                     (wrap lineIdx) (wrap colIdx) (wrap line_max_idx) = true).
    { unfold hasRangeBelow. rewrite Hnote. cbv zeta.
      replace (wrap (Cols ed - colIdx - 1)) with (Cols ed - colIdx - 1) by (unwrap; reflexivity).
      replace (wrap (addr + (Cols ed - colIdx - 1))) with (addr + (Cols ed - colIdx - 1))
        by (unwrap; reflexivity).
      replace (wrap (addr + (Cols ed - colIdx - 1) + 1)) with (addr + Cols ed - colIdx)
        by (unwrap; lia).
      replace (wrap colIdx) with colIdx by (unwrap; reflexivity).
      replace (wrap (addr + Cols ed - colIdx + colIdx)) with (addr + Cols ed)
        by (unwrap; lia).
      replace (wrap lineIdx) with lineIdx by (unwrap; reflexivity).
      replace (wrap line_max_idx) with line_max_idx by (unwrap; reflexivity).
      change (RangeEndAddress note) with (nr_RangeEndAddress note) in Hbelow.
      destruct (Z.ltb_spec lineIdx line_max_idx); [|lia].
      destruct (Z.ltb_spec (addr + Cols ed - colIdx) (nr_RangeEndAddress note)); [|lia].
      destruct (Z.ltb_spec (addr + Cols ed) (nr_RangeEndAddress note)); [|lia].
      reflexivity. }
    rewrite Hhas, Hgap. simpl.
    destruct (if RangePosition_eq_dec range_position Start then true else false);
      reflexivity.
Qed.

Lemma drawNoteRect_bottom_edge_witness :
  let ed := sample_editor SIZE_MAX [] [mkNoteRange 0 32 1 "Some description" true] in
  HorizontalBottom
    (drawNoteRect ed 0 3 0 0 1 Middle (HexCellWidth sample_sizes) 3 0 5 sample_sizes)
  = None.
Proof.
  intros ed.
  apply (proj2 (proj2 (drawNoteRect_bottom_edge Z Z_FloatOps ed 0 3 0 0 1 Middle
                         (HexCellWidth sample_sizes) 3 0 5 sample_sizes))
           (mkNoteRange 0 32 1 "Some description" true)).
  all: vm_compute; try reflexivity; try (split; congruence); try discriminate.
Defined.

End OutlineFacts.

(** ** Text conversions *)

Module LibcFacts.
Import Libc.

Lemma digit_of_hex_digit d :
  0 <= d < 16 -> digit_in_base 16 (hex_digit_lower d) = Some d.
Proof.
  intros Hd.
  assert (Hcases : d = 0 \/ d = 1 \/ d = 2 \/ d = 3 \/ d = 4 \/ d = 5 \/ d = 6 \/ d = 7 \/
                   d = 8 \/ d = 9 \/ d = 10 \/ d = 11 \/ d = 12 \/ d = 13 \/ d = 14 \/ d = 15)
    by lia.
  repeat (destruct Hcases as [->|Hcases]; [reflexivity|]). subst d. reflexivity.
Qed.

(** Reading back [n] printed digits. *)
Lemma read_digits_hex_digits n v acc :
  read_digits 16 (hex_digits n v) acc = acc * 16 ^ Z.of_nat n + v mod 16 ^ Z.of_nat n.
Proof.
  revert acc. induction n as [|n IH]; intros acc.
  - simpl. rewrite Z.mod_1_r. lia.
  - cbn [hex_digits read_digits].
    rewrite digit_of_hex_digit by (apply Z.mod_pos_bound; lia).
    rewrite IH. rewrite Nat2Z.inj_succ, Z.pow_succ_r by lia.
    set (p := 16 ^ Z.of_nat n).
    assert (Hp : 0 < p) by (apply Z.pow_pos_nonneg; lia).
    rewrite (Z.mul_comm 16 p), Z.rem_mul_r by lia.
    lia.
Qed.

Lemma hex_length_le width v :
  0 <= v < 16 ^ Z.of_nat width -> (1 <= width)%nat -> (hex_length v <= width)%nat.
Proof.
  intros [Hv Hlt] Hw. unfold hex_length.
  destruct (Z.leb_spec v 0); [assumption|].
  assert (Hlog : Z.log2 v < 4 * Z.of_nat width).
  { apply Z.log2_lt_pow2; [lia|].
    rewrite Z.pow_mul_r by lia. exact Hlt. }
  pose proof (Z.log2_nonneg v).
  assert (Z.log2 v / 4 < Z.of_nat width) by (apply Z.div_lt_upper_bound; lia).
  assert (0 <= Z.log2 v / 4) by (apply Z.div_pos; lia).
  lia.
Qed.

(** [sscanf("%zX")] inverts ["0x%0<width>x"] on values of at most [width]
    digits, for widths up to the sixteen digits of a [size_t]. *)
Lemma sscanf_zX_printf_0x width v :
  (1 <= width <= 16)%nat -> 0 <= v < 16 ^ Z.of_nat width ->
  sscanf_zX ("0x" ++ printf_0x width v) = Some v.
Proof.
  intros Hw Hv. unfold printf_0x.
  rewrite Nat.max_l by (apply hex_length_le; [assumption|lia]).
  destruct width as [|n]; [lia|].
  unfold sscanf_zX, scan_unsigned.
  pose proof (read_digits_hex_digits (S n) v 0) as Hread.
  cbn [hex_digits] in *.
  set (d := (v / 16 ^ Z.of_nat n) mod 16) in *.
  assert (Hd : 0 <= d < 16) by (apply Z.mod_pos_bound; lia).
  cbn [append skip_space]. 
  change (is_space "0") with false. cbv iota.
  cbn [read_sign].
  change (Z.eqb 16 16) with true. cbv iota.
  cbn [skip_0x]. change (Ascii.eqb "x" "x" || Ascii.eqb "x" "X")%bool with true. cbv iota.
  rewrite (digit_of_hex_digit d Hd).
  cbn [starts_with_digit]. rewrite (digit_of_hex_digit d Hd).
  rewrite Hread, Z.mod_small by lia. simpl (0 * _ + v).
  assert (Hmax : v <= SIZE_MAX).
  { unfold SIZE_MAX, SIZE_BITS.
    assert (16 ^ Z.of_nat (S n) <= 2 ^ 64).
    { change 16 with (2 ^ 4). rewrite <- Z.pow_mul_r by lia.
      apply Z.pow_le_mono_r; lia. }
    lia. }
  destruct (Z.gtb_spec v SIZE_MAX); [lia|]. reflexivity.
Qed.

End LibcFacts.

(** ** The codec and the converter *)

Module CodecFacts.
Import Libc LibcFacts Codec.

Definition is_byte (b : Z) : Prop := 0 <= b < 256.

(** The text of [n] bytes of a value, most significant byte first, each
    byte as eight bit characters followed by a space. *)
Fixpoint value_bits (n : nat) (v : Z) : string :=
  match n with
  | O => EmptyString
  | S k => (byte_bits ((v / 256 ^ Z.of_nat k) mod 256) ++ value_bits k v)%string
  end.

Definition bit_text (b : bool) : ascii := if b then "1"%char else "0"%char.

Lemma land_pow2_testbit b k :
  0 <= k -> (Z.land b (Z.shiftl 1 k) =? 0) = negb (Z.testbit b k).
Proof.
  intros Hk. rewrite Z.shiftl_1_l.
  destruct (Z.testbit b k) eqn:Hb; simpl.
  - apply Z.eqb_neq. intros Hz.
    apply (f_equal (fun z => Z.testbit z k)) in Hz.
    rewrite Z.land_spec, Hb, Z.pow2_bits_true, Z.bits_0 in Hz by lia. discriminate.
  - apply Z.eqb_eq. apply Z.bits_inj'. intros n Hn.
    rewrite Z.land_spec, Z.bits_0, Z.pow2_bits_eqb by lia.
    destruct (Z.eqb_spec k n) as [->|]; [rewrite Hb|rewrite andb_false_r]; reflexivity.
Qed.

(** One byte is printed bit 7 first, then a space. *)
Lemma byte_bits_spec b :
  byte_bits b =
  String (bit_text (Z.testbit b 7)) (String (bit_text (Z.testbit b 6))
  (String (bit_text (Z.testbit b 5)) (String (bit_text (Z.testbit b 4))
  (String (bit_text (Z.testbit b 3)) (String (bit_text (Z.testbit b 2))
  (String (bit_text (Z.testbit b 1)) (String (bit_text (Z.testbit b 0))
  (String " "%char EmptyString)))))))).
Proof.
  unfold byte_bits, bit_char. cbn [fold_right].
  change (7 - 0) with 7. change (7 - 1) with 6. change (7 - 2) with 5.
  change (7 - 3) with 4. change (7 - 4) with 3. change (7 - 5) with 2.
  change (7 - 6) with 1. change (7 - 7) with 0.
  rewrite !land_pow2_testbit by lia.
  destruct (Z.testbit b 7), (Z.testbit b 6), (Z.testbit b 5), (Z.testbit b 4),
           (Z.testbit b 3), (Z.testbit b 2), (Z.testbit b 1), (Z.testbit b 0);
    reflexivity.
Qed.

Lemma length_append (s1 s2 : string) :
  String.length (s1 ++ s2) = (String.length s1 + String.length s2)%nat.
Proof. induction s1 as [|c s1 IH]; simpl; [|rewrite IH]; reflexivity. Qed.

Lemma byte_bits_length b : String.length (byte_bits b) = 9%nat.
Proof. rewrite byte_bits_spec. reflexivity. Qed.

Lemma little_endian_value_byte (bytes : list Z) :
  Forall is_byte bytes ->
  forall j, (j < List.length bytes)%nat ->
  (little_endian_value bytes / 256 ^ Z.of_nat j) mod 256 = nth j bytes 0.
Proof.
  induction 1 as [|b rest Hb Hrest IH]; intros j Hj; [simpl in Hj; lia|].
  unfold is_byte in Hb. cbn [little_endian_value nth].
  destruct j as [|j].
  - change (256 ^ Z.of_nat 0) with 1.
    rewrite Z.div_1_r, (Z.mul_comm 256), Z.mod_add by lia.
    apply Z.mod_small. assumption.
  - rewrite Nat2Z.inj_succ, Z.pow_succ_r by lia.
    rewrite <- Z.div_div by (try apply Z.pow_pos_nonneg; lia).
    rewrite (Z.add_comm b), (Z.mul_comm 256), Z.div_add_l by lia.
    rewrite (Z.div_small b 256), Z.add_0_r by lia.
    apply IH. simpl in Hj. lia.
Qed.

Lemma FormatBinary_from_value (buf : list Z) (v : Z) :
  forall n, (forall j, (j < n)%nat -> nth j buf 0 = (v / 256 ^ Z.of_nat j) mod 256) ->
  FormatBinary_from buf n = value_bits n v.
Proof.
  induction n as [|n IH]; intros Hn; [reflexivity|].
  cbn [FormatBinary_from value_bits]. rewrite Hn by lia. rewrite IH; [reflexivity|].
  intros j Hj. apply Hn. lia.
Qed.

Lemma FormatBinary_from_length (buf : list Z) n :
  String.length (FormatBinary_from buf n) = (9 * n)%nat.
Proof.
  induction n as [|n IH]; [reflexivity|].
  cbn [FormatBinary_from]. rewrite length_append, byte_bits_length, IH. lia.
Qed.

Lemma truncate_all n (s : string) : (String.length s <= n)%nat -> truncate n s = s.
Proof.
  revert n. induction s as [|c s IH]; intros n Hn; destruct n as [|n]; simpl in *;
    try reflexivity; try lia.
  rewrite IH by lia. reflexivity.
Qed.

Lemma binary_text_of_bytes (bytes pad : list Z) :
  Forall is_byte bytes ->
  FormatBinary_from (bytes ++ pad) (List.length bytes)
  = value_bits (List.length bytes) (little_endian_value bytes).
Proof.
  intros Hbytes. apply FormatBinary_from_value. intros j Hj.
  rewrite app_nth1 by assumption. symmetry.
  apply little_endian_value_byte; assumption.
Qed.

(** C4.  The four bytes 01 02 03 04 decode as [U32] to 0x04030201 under the
    "LE" selector ([PreviewEndianess = 0]) and to 0x01020304 under "BE"
    ([PreviewEndianess = 1]), on a little-endian and on a big-endian host
    alike; the hexadecimal preview shows the same values. *)
Theorem decode_U32_endianness :
  forall (host_little_endian : bool) (printf_f : fp_value -> string),
  decode host_little_endian 0 DataType_U32 [0x01; 0x02; 0x03; 0x04] 4 = 0x04030201 /\
  decode host_little_endian 1 DataType_U32 [0x01; 0x02; 0x03; 0x04] 4 = 0x01020304 /\
  DrawPreviewData host_little_endian printf_f None 0 0 (Some [0x01; 0x02; 0x03; 0x04]) 4
    DataType_U32 DataFormat_Hex 128 = "0x04030201"%string /\
  DrawPreviewData host_little_endian printf_f None 1 0 (Some [0x01; 0x02; 0x03; 0x04]) 4
    DataType_U32 DataFormat_Hex 128 = "0x01020304"%string.
Proof.
  intros [|] printf_f; vm_compute; repeat split; reflexivity.
Qed.

Lemma little_endian_value_app (a b : list Z) :
  little_endian_value (a ++ b)
  = little_endian_value a + 256 ^ Z.of_nat (List.length a) * little_endian_value b.
Proof.
  induction a as [|x a IH]; cbn [app little_endian_value List.length].
  - rewrite Z.pow_0_r. lia.
  - rewrite IH, Nat2Z.inj_succ, Z.pow_succ_r by lia. ring.
Qed.

Lemma little_endian_value_zeros n : little_endian_value (repeat 0 n) = 0.
Proof. induction n as [|n IH]; simpl; [|rewrite IH]; reflexivity. Qed.

Lemma little_endian_value_padded (a : list Z) n :
  little_endian_value (a ++ repeat 0 n) = little_endian_value a.
Proof. rewrite little_endian_value_app, little_endian_value_zeros. lia. Qed.

Lemma skipn_repeat {A : Type} (x : A) n m : skipn n (repeat x m) = repeat x (m - n).
Proof.
  revert m. induction n as [|n IH]; intros m; [rewrite Nat.sub_0_r; reflexivity|].
  destruct m as [|m]; [reflexivity|]. simpl. apply IH.
Qed.

(** How many bytes a preview reads at [addr]: the element size, cut at the
    end of the buffer. *)
Lemma preview_read_size addr mem_size (data_type : DataType_) :
  0 <= addr < mem_size -> mem_size + 8 <= SIZE_MAX ->
  (if wrap (addr + Z.of_nat (DataTypeGetSize data_type)) >? mem_size
   then wrap (mem_size - addr) else Z.of_nat (DataTypeGetSize data_type))
  = Z.min (Z.of_nat (DataTypeGetSize data_type)) (mem_size - addr).
Proof.
  intros Haddr Hmem.
  assert (Hn : (1 <= DataTypeGetSize data_type <= 8)%nat)
    by (destruct data_type; simpl; lia).
  rewrite (wrap_small (addr + _)) by (unfold is_size_t; lia).
  destruct (Z.gtb_spec (addr + Z.of_nat (DataTypeGetSize data_type)) mem_size).
  - rewrite wrap_small by (unfold is_size_t; lia). lia.
  - lia.
Qed.

(** On a little-endian host the decoded variable holds the bytes copied
    (reversed under the "BE" selector) as a little-endian number; the bytes
    of the variable that are not copied stay zero. *)
Lemma decode_little_endian_host (sel : Z) (data_type : DataType_) (buf : list Z) :
  decode true sel data_type buf (List.length buf)
  = little_endian_value (if negb (sel =? 0) then rev buf else buf).
Proof.
  unfold decode, EndianessCopy, IsBigEndian, object_bytes, object_value.
  change (negb (nth 0 (little_endian_bytes 2 1) 0 =? 0)) with true. cbv iota.
  unfold EndianessCopyBigEndian, reversed_copy, memcpy.
  rewrite firstn_all, skipn_repeat.
  destruct (negb (sel =? 0)); apply little_endian_value_padded.
Qed.

(** On a little-endian host the binary text of the bytes copied is the
    decoded variable, most significant byte first. *)
Lemma binary_text_little_endian_host (sel : Z) (data_type : DataType_) (buf : list Z) :
  Forall is_byte buf ->
  FormatBinary (EndianessCopy true sel (repeat 0 8%nat) buf (List.length buf))
    (Z.of_nat (List.length buf) * 8)
  = value_bits (List.length buf) (decode true sel data_type buf (List.length buf)).
Proof.
  intros Hbuf. rewrite decode_little_endian_host.
  unfold FormatBinary. rewrite Z.div_mul, Nat2Z.id by lia.
  unfold EndianessCopy, IsBigEndian, object_bytes.
  change (negb (nth 0 (little_endian_bytes 2 1) 0 =? 0)) with true. cbv iota.
  unfold EndianessCopyBigEndian, reversed_copy, memcpy. rewrite firstn_all.
  destruct (negb (sel =? 0)).
  - rewrite <- (length_rev buf) at 2 3.
    apply binary_text_of_bytes. apply Forall_rev. assumption.
  - apply binary_text_of_bytes. assumption.
Qed.

Lemma Forall_firstn_of {A : Type} (P : A -> Prop) (n : nat) (l : list A) :
  Forall P l -> Forall P (firstn n l).
Proof.
  intros Hl. revert n. induction Hl as [|x l Hx _ IH]; intros [|n]; simpl;
    constructor; auto.
Qed.

Lemma Forall_skipn_of {A : Type} (P : A -> Prop) (n : nat) (l : list A) :
  Forall P l -> Forall P (skipn n l).
Proof.
  intros Hl. revert n. induction Hl as [|x l Hx Hl IH]; intros [|n]; simpl;
    try constructor; auto.
Qed.

Lemma value_bits_length n v : String.length (value_bits n v) = (9 * n)%nat.
Proof.
  induction n as [|n IH]; [reflexivity|].
  cbn [value_bits]. rewrite length_append, byte_bits_length, IH. lia.
Qed.

Lemma little_endian_bytes_length n v : List.length (little_endian_bytes n v) = n.
Proof. revert v. induction n as [|n IH]; intros v; simpl; [|rewrite IH]; reflexivity. Qed.

Lemma little_endian_bytes_is_byte n v : Forall is_byte (little_endian_bytes n v).
Proof.
  revert v. induction n as [|n IH]; intros v; simpl; constructor; [|apply IH].
  unfold is_byte. apply Z.mod_pos_bound. lia.
Qed.

(** C7, as the claim states it, fails in three ways.  On its own example,
    the byte 0x0F as [U8] in binary radix is printed with a space after the
    eight bits.  An element cut off by the end of the buffer is printed with
    eight bits per byte read, not per byte of the type: a [U32] at the last
    byte of a four-byte buffer gives 8 bits, where the hexadecimal preview
    still shows the four bytes of the type.  On a big-endian host the bytes
    come least significant first: the decoded [U16] is 0x3412 and the text
    starts with the bits of 0x12. *)
Lemma FormatBinary_claimed_layout_fails :
  (FormatBinary [0x0F] 8 = "00001111 "%string /\
   DrawPreviewData true unused_printf_f None 0 0 (Some [0x0F]) 1
     DataType_U8 DataFormat_Bin 128 = "00001111 "%string /\
   DrawPreviewData true unused_printf_f None 0 0x0F None 0
     DataType_U8 DataFormat_Bin 128 = "00001111 "%string /\
   DrawPreviewData true unused_printf_f None 0 0 (Some [0x0F]) 1
     DataType_U8 DataFormat_Bin 128 <> "00001111"%string) /\
  (DataTypeGetSize DataType_U32 = 4%nat /\
   DrawPreviewData true unused_printf_f None 0 3 (Some [0x01; 0x02; 0x03; 0x0F]) 4
     DataType_U32 DataFormat_Bin 128 = "00001111 "%string /\
   DrawPreviewData true unused_printf_f None 0 3 (Some [0x01; 0x02; 0x03; 0x0F]) 4
     DataType_U32 DataFormat_Hex 128 = "0x0000000f"%string) /\
  (decode false 0 DataType_U16 [0x12; 0x34] 2 = 0x3412 /\
   DrawPreviewData false unused_printf_f None 0 0 (Some [0x12; 0x34]) 2
     DataType_U16 DataFormat_Hex 128 = "0x3412"%string /\
   DrawPreviewData false unused_printf_f None 0 0 (Some [0x12; 0x34]) 2
     DataType_U16 DataFormat_Bin 128 = "00010010 00110100 "%string /\
   DrawPreviewData false unused_printf_f None 0 0 (Some [0x12; 0x34]) 2
     DataType_U16 DataFormat_Bin 128
   <> value_bits 2 (decode false 0 DataType_U16 [0x12; 0x34] 2)).
Proof.
  vm_compute. repeat split; try reflexivity; discriminate.
Qed.

(** C7 (amended).  [FormatBinary] prints the bytes from the highest index
    down, each as eight '0'/'1' characters from bit 7 to bit 0 followed by
    one space, the last byte included: [9 * n] characters for [n] bytes.
    The binary preview at [addr] prints [size] bytes, where [size] is the
    number of bytes of the element that lie inside the buffer (the width of
    the type unless the end of the buffer cuts the element off).  On a
    little-endian host these are the [size] low bytes of the decoded value,
    most significant byte first, under either endianness selector, and the
    decoded value is the one that the decimal and hexadecimal previews
    print; the same holds when the value itself is passed in place of a
    buffer.  The byte 0x0F as [U8] gives "00001111 ". *)
Theorem FormatBinary_layout :
  (forall b : Z,
     byte_bits b =
     String (bit_text (Z.testbit b 7)) (String (bit_text (Z.testbit b 6))
     (String (bit_text (Z.testbit b 5)) (String (bit_text (Z.testbit b 4))
     (String (bit_text (Z.testbit b 3)) (String (bit_text (Z.testbit b 2))
     (String (bit_text (Z.testbit b 1)) (String (bit_text (Z.testbit b 0))
     (String " "%char EmptyString))))))))) /\
  (forall (buf : list Z) (n : nat),
     FormatBinary buf (Z.of_nat n * 8)
     = fold_right append EmptyString
         (map (fun j => byte_bits (nth j buf 0)) (rev (seq 0 n))) /\
     String.length (FormatBinary buf (Z.of_nat n * 8)) = (9 * n)%nat) /\
  (forall (printf_f : fp_value -> string) (PreviewEndianess : Z) (data_type : DataType_)
          (addr mem_size : Z) (mem : list Z),
     0 <= addr < mem_size -> mem_size + 8 <= SIZE_MAX ->
     mem_size <= Z.of_nat (List.length mem) -> Forall is_byte mem ->
     let size :=
       Z.to_nat (Z.min (Z.of_nat (DataTypeGetSize data_type)) (mem_size - addr)) in
     let buf := firstn size (skipn (Z.to_nat addr) mem) in
     let value := decode true PreviewEndianess data_type buf size in
     DrawPreviewData true printf_f None PreviewEndianess addr (Some mem) mem_size
       data_type DataFormat_Bin 128
     = value_bits size value /\
     String.length (DrawPreviewData true printf_f None PreviewEndianess addr (Some mem)
                      mem_size data_type DataFormat_Bin 128) = (9 * size)%nat /\
     0 <= value < 256 ^ Z.of_nat size /\
     (forall data_format, data_format <> DataFormat_Bin ->
        DrawPreviewData true printf_f None PreviewEndianess addr (Some mem) mem_size
          data_type data_format 128
        = snprintf 128 (format_value printf_f data_type data_format value))) /\
  (forall (printf_f : fp_value -> string) (PreviewEndianess : Z) (data_type : DataType_)
          (v mem_size : Z),
     let size := DataTypeGetSize data_type in
     let buf := firstn size (little_endian_bytes 8 v) in
     DrawPreviewData true printf_f None PreviewEndianess v None mem_size
       data_type DataFormat_Bin 128
     = value_bits size (decode true PreviewEndianess data_type buf size)) /\
  DrawPreviewData true unused_printf_f None 0 0 (Some [0x0F]) 1
    DataType_U8 DataFormat_Bin 128 = "00001111 "%string.
Proof.
  split; [exact byte_bits_spec|]. split; [|split; [|split]].
  - intros buf n. unfold FormatBinary.
    rewrite Z.div_mul, Nat2Z.id by lia. split; [|apply FormatBinary_from_length].
    induction n as [|n IH]; [reflexivity|].
    cbn [FormatBinary_from]. rewrite seq_S, rev_app_distr. cbn [rev app map Nat.add fold_right].
    rewrite IH. reflexivity.
  - intros printf_f sel data_type addr mem_size mem Haddr Hmem Hlen Hbytes size buf value.
    assert (Hn : (1 <= DataTypeGetSize data_type <= 8)%nat)
      by (destruct data_type; simpl; lia).
    pose proof (preview_read_size addr mem_size data_type Haddr Hmem) as Hsize.
    assert (Hbuflen : List.length buf = size).
    { unfold buf. rewrite length_firstn, length_skipn. unfold size. lia. }
    assert (Hbuf : Forall is_byte buf).
    { unfold buf. apply Forall_firstn_of, Forall_skipn_of. assumption. }
    assert (Hz : Z.min (Z.of_nat (DataTypeGetSize data_type)) (mem_size - addr)
                 = Z.of_nat size) by (unfold size; lia).
    assert (Htext : DrawPreviewData true printf_f None sel addr (Some mem) mem_size
                      data_type DataFormat_Bin 128 = value_bits size value).
    { unfold DrawPreviewData. cbv zeta. rewrite Hsize, Hz, Nat2Z.id. fold buf.
      unfold value. rewrite <- Hbuflen.
      rewrite <- (binary_text_little_endian_host sel data_type buf Hbuf).
      apply truncate_all. unfold FormatBinary.
      rewrite Z.div_mul, Nat2Z.id, FormatBinary_from_length by lia.
      rewrite Hbuflen. unfold size. simpl. lia. }
    split; [exact Htext|]. split; [|split].
    + rewrite Htext. apply value_bits_length.
    + unfold value. rewrite <- Hbuflen, decode_little_endian_host.
      assert (Hrange : forall l, Forall is_byte l ->
                0 <= little_endian_value l < 256 ^ Z.of_nat (List.length l)).
      { induction 1 as [|b l Hb _ IH]; [simpl; lia|].
        unfold is_byte in Hb. cbn [little_endian_value List.length].
        rewrite Nat2Z.inj_succ, Z.pow_succ_r by lia. lia. }
      destruct (negb (sel =? 0)).
      * rewrite <- (length_rev buf). apply Hrange, Forall_rev. assumption.
      * apply Hrange. assumption.
    + intros data_format Hfmt. unfold DrawPreviewData. cbv zeta.
      rewrite Hsize, Hz, Nat2Z.id. fold buf. fold value.
      destruct data_format; [congruence|reflexivity|reflexivity].
  - intros printf_f sel data_type v mem_size size buf.
    assert (Hn : (1 <= size <= 8)%nat) by (unfold size; destruct data_type; simpl; lia).
    assert (Hbuflen : List.length buf = size).
    { unfold buf. rewrite length_firstn, little_endian_bytes_length. lia. }
    assert (Hbuf : Forall is_byte buf).
    { unfold buf. apply Forall_firstn_of, little_endian_bytes_is_byte. }
    unfold DrawPreviewData. cbv zeta. unfold object_bytes. rewrite Nat2Z.id.
    fold size. fold buf. rewrite <- Hbuflen.
    rewrite <- (binary_text_little_endian_host sel data_type buf Hbuf).
    apply truncate_all. unfold FormatBinary.
    rewrite Z.div_mul, Nat2Z.id, FormatBinary_from_length by lia. lia.
  - vm_compute. reflexivity.
Qed.

Lemma FormatBinary_layout_witness :
  let mem := [0x01; 0x02; 0x03; 0x0F] in
  let size := Z.to_nat (Z.min (Z.of_nat (DataTypeGetSize DataType_U32)) (4 - 3)) in
  let buf := firstn size (skipn (Z.to_nat 3) mem) in
  let value := decode true 0 DataType_U32 buf size in
  DrawPreviewData true unused_printf_f None 0 3 (Some mem) 4 DataType_U32 DataFormat_Bin 128
  = value_bits size value /\
  String.length (DrawPreviewData true unused_printf_f None 0 3 (Some mem) 4
                   DataType_U32 DataFormat_Bin 128) = (9 * size)%nat /\
  0 <= value < 256 ^ Z.of_nat size /\
  (forall data_format, data_format <> DataFormat_Bin ->
     DrawPreviewData true unused_printf_f None 0 3 (Some mem) 4 DataType_U32 data_format 128
     = snprintf 128 (format_value unused_printf_f DataType_U32 data_format value)).
Proof.
  intros mem.
  destruct FormatBinary_layout as (_ & _ & Hpreview & _).
  apply (Hpreview unused_printf_f 0 DataType_U32 3 4 mem).
  - lia.
  - vm_compute. discriminate.
  - simpl. lia.
  - repeat constructor; unfold is_byte; lia.
Defined.

Lemma land_ones_to_signed bits raw :
  0 < bits -> 0 <= raw < 2 ^ bits -> Z.land (to_signed bits raw) (Z.ones bits) = raw.
Proof.
  intros Hbits Hraw. rewrite Z.land_ones by lia. unfold to_signed.
  destruct (raw <? 2 ^ (bits - 1)).
  - apply Z.mod_small. assumption.
  - replace (raw - 2 ^ bits) with (raw + (-1) * 2 ^ bits) by lia.
    rewrite Z.mod_add by lia. apply Z.mod_small. assumption.
Qed.

Lemma mod_to_signed bits raw :
  0 < bits -> 0 <= raw < 2 ^ bits -> to_signed bits raw mod 2 ^ bits = raw.
Proof.
  intros Hbits Hraw. rewrite <- Z.land_ones by lia.
  apply land_ones_to_signed; assumption.
Qed.

(** C3, as the claim states it, fails on the three floating-point types:
    the hexadecimal text of a float is the [%a] rendering, and the unsigned
    hexadecimal scan reads only its leading digit.  1.0 is printed as
    "0x1p+0" and read back as 1. *)
Lemma hex_round_trip_fails_on_floats :
  format_value unused_printf_f DataType_Float DataFormat_Hex 0x3F800000 = "0x1p+0"%string /\
  sscanf_zX (format_value unused_printf_f DataType_Float DataFormat_Hex 0x3F800000)
    = Some 1 /\
  sscanf_zX (format_value unused_printf_f DataType_Float DataFormat_Hex 0x3F800000)
    <> Some 0x3F800000 /\
  sscanf_zX (format_value unused_printf_f DataType_HalfFloat DataFormat_Hex 0x3C00)
    <> Some 0x3C00 /\
  sscanf_zX (format_value unused_printf_f DataType_Double DataFormat_Hex 0x3FF0000000000000)
    <> Some 0x3FF0000000000000 /\
  (let text := DrawPreviewData true unused_printf_f None 0 0x3F800000 None 0
                 DataType_Float DataFormat_Hex 128 in
   ValueToConvert
     (parse_input true unused_sscanf unused_sscanf
        (mkConverterState 0x3F800000 DataType_Float DataFormat_Hex text)) = 1).
Proof.
  vm_compute. repeat split; try reflexivity; discriminate.
Qed.

(** C3 (amended).  For each of the eight integer types and every bit
    pattern of that type's width, the hexadecimal text printed for the
    decoded value is read back by the hexadecimal scan as the same bit
    pattern. *)
Theorem hex_round_trip_integers :
  forall (printf_f : fp_value -> string) (data_type : DataType_) (raw : Z),
  is_integer_type data_type = true ->
  0 <= raw < 2 ^ (8 * Z.of_nat (DataTypeGetSize data_type)) ->
  sscanf_zX (format_value printf_f data_type DataFormat_Hex raw) = Some raw.
Proof.
  intros printf_f data_type raw Hint Hraw.
  destruct data_type; try discriminate Hint; cbn [format_value];
    cbn [DataTypeGetSize] in Hraw.
  - change 0xFF with (Z.ones 8). rewrite land_ones_to_signed by (simpl in *; lia).
    apply sscanf_zX_printf_0x; simpl in *; lia.
  - change 0xFF with (Z.ones 8). rewrite Z.land_ones, Z.mod_small by (simpl in *; lia).
    apply sscanf_zX_printf_0x; simpl in *; lia.
  - change 0xFFFF with (Z.ones 16). rewrite land_ones_to_signed by (simpl in *; lia).
    apply sscanf_zX_printf_0x; simpl in *; lia.
  - change 0xFFFF with (Z.ones 16). rewrite Z.land_ones, Z.mod_small by (simpl in *; lia).
    apply sscanf_zX_printf_0x; simpl in *; lia.
  - rewrite mod_to_signed by (simpl in *; lia).
    apply sscanf_zX_printf_0x; simpl in *; lia.
  - apply sscanf_zX_printf_0x; simpl in *; lia.
  - rewrite mod_to_signed by (simpl in *; lia).
    apply sscanf_zX_printf_0x; simpl in *; lia.
  - apply sscanf_zX_printf_0x; simpl in *; lia.
Qed.

Lemma hex_round_trip_integers_witness :
  sscanf_zX (format_value unused_printf_f DataType_S16 DataFormat_Hex 0x8001) = Some 0x8001.
Proof.
  apply (hex_round_trip_integers unused_printf_f DataType_S16 0x8001).
  - reflexivity.
  - simpl. lia.
Defined.

(** C9.  Whatever the conversion type and radix, when the scan of the
    converter's input text fails, the parsing step leaves [ValueToConvert]
    (and the rest of the converter's state) exactly as it was.  Texts such
    as "zz", "-" or the empty text fail for the hexadecimal and the integer
    conversions. *)
Theorem parse_input_failure_keeps_value :
  forall (host_little_endian : bool) (sscanf_f sscanf_lf : string -> option Z)
         (st : ConverterState),
  converter_scan host_little_endian sscanf_f sscanf_lf st = None ->
  parse_input host_little_endian sscanf_f sscanf_lf st = st /\
  ValueToConvert (parse_input host_little_endian sscanf_f sscanf_lf st) = ValueToConvert st.
Proof.
  intros host sscanf_f sscanf_lf st Hfail. unfold parse_input. rewrite Hfail.
  split; reflexivity.
Qed.

Lemma parse_input_failure_keeps_value_witness :
  let st := mkConverterState 0x2A DataType_S32 DataFormat_Dec "zz" in
  parse_input true unused_sscanf unused_sscanf st = st /\
  ValueToConvert (parse_input true unused_sscanf unused_sscanf st) = ValueToConvert st.
Proof.
  intros st. apply (parse_input_failure_keeps_value true unused_sscanf unused_sscanf st).
  vm_compute. reflexivity.
Defined.

(** Malformed texts for the integer scans, and well-formed ones. *)
Example converter_scan_examples :
  forall (host_little_endian : bool) (sscanf_f sscanf_lf : string -> option Z) (v : Z),
  let scan t f text :=
    converter_scan host_little_endian sscanf_f sscanf_lf (mkConverterState v t f text) in
  scan DataType_U32 DataFormat_Hex "zz"%string = None /\
  scan DataType_Double DataFormat_Hex EmptyString = None /\
  scan DataType_S8 DataFormat_Dec "-"%string = None /\
  scan DataType_U64 DataFormat_Bin "x1"%string = None /\
  scan DataType_U32 DataFormat_Hex "1F"%string = Some (IntoValueToConvert 31) /\
  scan DataType_S8 DataFormat_Dec "-1"%string = Some (IntoValueToConvert SIZE_MAX) /\
  scan DataType_U16 DataFormat_Bin " 42abc"%string = Some (IntoValueToConvert 42).
Proof.
  intros. vm_compute. repeat split; reflexivity.
Qed.

(** C10.  With [DataType_HalfFloat] selected and the radix decimal or binary,
    the parsing step never changes [ValueToConvert], even when the scan
    succeeds: the scanned number goes to a local.  For every other type a
    successful scan is stored in [ValueToConvert]. *)
Theorem parse_input_HalfFloat_never_updates :
  forall (host_little_endian : bool) (sscanf_f sscanf_lf : string -> option Z)
         (st : ConverterState),
  (ConvertValueType st = DataType_HalfFloat ->
   ConvertValueFormat st = DataFormat_Dec \/ ConvertValueFormat st = DataFormat_Bin ->
   parse_input host_little_endian sscanf_f sscanf_lf st = st) /\
  (ConvertValueType st <> DataType_HalfFloat ->
   forall target,
     converter_scan host_little_endian sscanf_f sscanf_lf st = Some target ->
     exists v, target = IntoValueToConvert v /\
       ValueToConvert (parse_input host_little_endian sscanf_f sscanf_lf st) = v).
Proof.
  intros host sscanf_f sscanf_lf st. split.
  - intros Htype Hformat. unfold parse_input, converter_scan. rewrite Htype.
    destruct Hformat as [-> | ->]; destruct (sscanf_f (ValueConverterInputBuf st));
      reflexivity.
  - intros Htype target Hscan. unfold parse_input. rewrite Hscan.
    unfold converter_scan in Hscan.
    destruct (ConvertValueFormat st), (ConvertValueType st); try congruence;
      cbn [DataType_index Z.rem Z.eqb] in Hscan;
      repeat match type of Hscan with
             | context [if ?c then _ else _] => destruct c
             end;
      match type of Hscan with
      | option_map _ ?x = _ => destruct x; simpl in Hscan; [|discriminate Hscan]
      end;
      injection Hscan as <-; eexists; split; reflexivity.
Qed.

Lemma parse_input_HalfFloat_never_updates_witness :
  let scan_1_5 := fun _ : string => Some 0x3FC00000 in
  let st := mkConverterState 7 DataType_HalfFloat DataFormat_Dec "1.5" in
  parse_input true scan_1_5 unused_sscanf st = st.
Proof.
  intros scan_1_5 st.
  apply (proj1 (parse_input_HalfFloat_never_updates true scan_1_5 unused_sscanf st)).
  - reflexivity.
  - left. reflexivity.
Defined.

(** The converter's register through the hexadecimal preview and back, on a
    little-endian host with the "LE" selector. *)
Example converter_hex_round_trip_examples :
  let round_trip v t :=
    ValueToConvert
      (parse_input true unused_sscanf unused_sscanf
         (mkConverterState v t DataFormat_Hex
            (DrawPreviewData true unused_printf_f None 0 v None 0 t DataFormat_Hex 128))) in
  round_trip 0x80 DataType_S8 = 0x80 /\
  round_trip 0xFFFFFFFFFFFFFF80 DataType_S8 = 0x80 /\
  round_trip 0xDEADBEEF DataType_S32 = 0xDEADBEEF /\
  round_trip 0xFEDCBA9876543210 DataType_U64 = 0xFEDCBA9876543210 /\
  round_trip 0x3F800000 DataType_Float = 1.
Proof. vm_compute. repeat split; reflexivity. Qed.

End CodecFacts.

(** ** More on the range lookup *)

Module RangeIndexExtra.
Import BinarySearch RangeIndex RangeIndexFacts.

Section WithRange.
Context {T : Type} `{RangeLike T}.

(** The state that the binary search hands back: untouched on not-found,
    the found range's colour otherwise. *)
Lemma binary_find_state (rs : list T) addr o :
  match binary_find rs (range_cmp addr) o with
  | (None, o1) => o1 = o
  | (Some i, o1) =>
      exists r, nth_error rs i = Some r /\ o1 = set_color (RangeColor r) o
  end.
Proof.
  unfold binary_find.
  assert (Hgen : forall n lo hi, (hi - lo <= n)%nat ->
    match find_window midpoint midpoint_inside (range_cmp addr) rs lo hi o with
    | (None, o1) => o1 = o
    | (Some i, o1) =>
        exists r, nth_error rs i = Some r /\ o1 = set_color (RangeColor r) o
    end).
  { induction n as [|n IH]; intros lo hi Hn; rewrite find_window_unfold.
    - destruct (lt_dec lo hi); [lia|reflexivity].
    - destruct (lt_dec lo hi) as [Hlt|]; [|reflexivity].
      pose proof (midpoint_inside lo hi Hlt) as Hp.
      destruct (nth_error rs (midpoint lo hi)) as [x|] eqn:Hx; [|reflexivity].
      destruct (contains x addr) eqn:Hc.
      + rewrite (range_cmp_hit x addr o Hc). destruct (isActive x); [|reflexivity].
        simpl. exists x. split; [assumption|reflexivity].
      + destruct (range_cmp_miss x addr o Hc) as [[-> _]|[-> _]]; simpl; apply IH; lia. }
  apply (Hgen (List.length rs - 0)%nat). lia.
Qed.

Lemma binary_path_miss (rs : list T) addr o :
  fst (binary_path rs addr o) = NotInRange -> snd (binary_path rs addr o) = o.
Proof.
  unfold binary_path. pose proof (binary_find_state rs addr o) as Hst.
  destruct (binary_find rs (range_cmp addr) o) as [[i|] o1].
  - destruct Hst as (r & Hr & ->). rewrite Hr. simpl. intros Hcl.
    exfalso. exact (classify_not_NotInRange r addr Hcl).
  - intros _. simpl. assumption.
Qed.

Lemma linear_scan_miss (rs : list T) addr o :
  fst (linear_scan rs 0 addr o) = NotInRange ->
  range_idx (snd (linear_scan rs 0 addr o)) = range_idx o.
Proof.
  destruct (first_containing rs addr) as [Hnone|(l1 & r & l2 & -> & Hl1 & Hr)].
  - rewrite linear_scan_none by assumption. reflexivity.
  - rewrite linear_scan_first by assumption. destruct (isActive r); simpl.
    + intros Hcl. exfalso. exact (classify_not_NotInRange r addr Hcl).
    + reflexivity.
Qed.

Lemma last_default (l : list T) (d d' : T) : l <> [] -> last l d = last l d'.
Proof.
  induction l as [|x l IH]; intros Hne; [congruence|].
  destruct l as [|y l]; [reflexivity|]. cbn [last] in *. apply IH. discriminate.
Qed.

End WithRange.

(** X1.  Whenever [IsInRange] answers [NotInRange], on either path, the index
    out-parameter still holds what the caller put there; on the
    binary-search path the colour out-parameter is untouched as well. *)
Theorem IsInRange_miss_keeps_index :
  forall (T : Type) (R : RangeLike T) (linear : bool) (rs : list T) (addr : Z) (o : Out),
  fst (IsInRange_via linear rs addr o) = NotInRange ->
  range_idx (snd (IsInRange_via linear rs addr o)) = range_idx o /\
  (linear = false -> snd (IsInRange_via linear rs addr o) = o).
Proof.
  intros T R linear rs addr o. unfold IsInRange_via.
  destruct rs as [|front rest]; [intros _; split; reflexivity|].
  destruct ((addr <? RangeStartAddress front)
            || (addr >? RangeEndAddress (last (front :: rest) front)));
    [intros _; split; reflexivity|].
  destruct linear; intros Hmiss.
  - split; [apply linear_scan_miss; assumption|discriminate].
  - rewrite (binary_path_miss _ _ _ Hmiss). split; reflexivity.
Qed.

Lemma IsInRange_miss_keeps_index_witness :
  let rs := [mkHighlightRange 0 100 1 false; mkHighlightRange 200 300 2 true] in
  range_idx (snd (IsInRange_via true rs 50 out0)) = range_idx out0 /\
  (true = false -> snd (IsInRange_via true rs 50 out0) = out0).
Proof.
  intros rs. apply (IsInRange_miss_keeps_index HighlightRange _ true rs 50 out0).
  vm_compute. reflexivity.
Defined.

(** X2.  Below a hundred ranges, sorted or not, overlapping or not, the
    range reported is the first one in insertion order that contains the
    address, provided it is active and the address passes the pre-filter
    (it lies between the first range's start and the last range's end). *)
Theorem IsInRange_first_match_wins :
  forall (T : Type) (R : RangeLike T) (l1 l2 : list T) (r : T) (addr : Z) (o : Out),
  (List.length (l1 ++ r :: l2) < 100)%nat ->
  Forall (fun x => contains x addr = false) l1 ->
  contains r addr = true -> isActive r = true ->
  RangeStartAddress (hd r (l1 ++ r :: l2)) <= addr <= RangeEndAddress (last (l1 ++ r :: l2) r) ->
  IsInRange (l1 ++ r :: l2) addr o
  = (classify r addr, mkOut (RangeColor r) (Z.of_nat (List.length l1))).
Proof.
  intros T R l1 l2 r addr o Hlen Hl1 Hr Ha [Hlo Hhi].
  unfold IsInRange, IsInRange_via.
  destruct (Z.ltb_spec (Z.of_nat (List.length (l1 ++ r :: l2))) 100); [|lia].
  destruct (l1 ++ r :: l2) as [|front rest] eqn:Heq;
    [destruct l1; discriminate Heq|].
  simpl hd in Hlo.
  rewrite (last_default (front :: rest) r front) in Hhi by discriminate.
  destruct (Z.ltb_spec addr (RangeStartAddress front)); [lia|].
  destruct (Z.gtb_spec addr (RangeEndAddress (last (front :: rest) front))); [lia|].
  simpl orb. cbv iota. rewrite <- Heq, linear_scan_first by assumption.
  rewrite Ha. reflexivity.
Qed.

Lemma IsInRange_first_match_wins_witness :
  let l1 := [mkHighlightRange 0 5 1 true] in
  let r := mkHighlightRange 3 100 2 true in
  let l2 := [mkHighlightRange 0 100 3 true] in
  IsInRange (l1 ++ r :: l2) 7 out0
  = (classify r 7, mkOut (RangeColor r) (Z.of_nat (List.length l1))).
Proof.
  intros l1 r l2.
  apply (IsInRange_first_match_wins HighlightRange _ l1 l2 r 7 out0).
  - simpl. lia.
  - repeat constructor.
  - reflexivity.
  - reflexivity.
  - vm_compute. split; discriminate.
Defined.

Lemma nth_error_last {A : Type} (l : list A) (d : A) :
  l <> [] -> nth_error l (List.length l - 1) = Some (last l d).
Proof.
  induction l as [|x l IH]; intros Hne; [congruence|].
  destruct l as [|y l]; [reflexivity|].
  specialize (IH ltac:(discriminate)).
  change (last (x :: y :: l) d) with (last (y :: l) d). rewrite <- IH.
  cbn [List.length].
  replace (S (S (List.length l)) - 1)%nat with (S (S (List.length l) - 1)) by lia.
  reflexivity.
Qed.

(** X3.  On a sequence sorted by start address and pairwise non-overlapping
    whose last range is well formed (start < end), every address inside an
    active range is reported, on either path and hence for any number of
    ranges, with that range's classification, colour and index. *)
Theorem IsInRange_sorted_complete :
  forall (T : Type) (R : RangeLike T) (rs : list T) (i : nat) (r : T) (addr : Z) (o : Out),
  SortedDisjoint rs -> well_formed (last rs r) ->
  nth_error rs i = Some r -> contains r addr = true -> isActive r = true ->
  (forall linear,
     IsInRange_via linear rs addr o
     = (classify r addr, mkOut (RangeColor r) (Z.of_nat i))) /\
  IsInRange rs addr o = (classify r addr, mkOut (RangeColor r) (Z.of_nat i)).
Proof.
  intros T R rs i r addr o Hsorted Hlast Hi Hr Ha.
  assert (Hall : forall linear,
            IsInRange_via linear rs addr o
            = (classify r addr, mkOut (RangeColor r) (Z.of_nat i)));
    [|split; [exact Hall|apply Hall]].
  intros linear.
  pose proof (proj1 (contains_iff r addr) Hr) as [Hlo Hhi].
  destruct (nth_error_split rs i Hi) as (l1 & l2 & Heq & Hlen).
  assert (Hl1 : Forall (fun x => contains x addr = false) l1).
  { apply Forall_forall. intros x Hx.
    destruct (In_nth_error _ _ Hx) as [j Hj].
    assert (Hjlt : (j < i)%nat).
    { rewrite <- Hlen. apply nth_error_Some. congruence. }
    assert (Hjrs : nth_error rs j = Some x).
    { rewrite Heq, nth_error_app1 by lia. assumption. }
    destruct (SortedDisjoint_nth rs Hsorted _ _ _ _ Hjlt Hjrs Hi) as [_ He].
    apply contains_false_iff. lia. }
  unfold IsInRange_via. destruct rs as [|front rest] eqn:Hrs;
    [destruct i; discriminate Hi|].
  rewrite <- Hrs in *.
  assert (Hfront : RangeStartAddress front <= addr).
  { destruct i as [|i'].
    - rewrite Hrs in Hi. simpl in Hi. injection Hi as ->. assumption.
    - assert (H0 : nth_error rs 0 = Some front) by (rewrite Hrs; reflexivity).
      destruct (SortedDisjoint_nth rs Hsorted 0%nat (S i') front r ltac:(lia) H0 Hi).
      lia. }
  assert (Hback : addr <= RangeEndAddress (last rs front)).
  { assert (Hne : rs <> []) by (rewrite Hrs; discriminate).
    rewrite (last_default rs front r Hne).
    pose proof (nth_error_last rs r Hne) as Hnl.
    assert (Hilt : (i < List.length rs)%nat) by (apply nth_error_Some; congruence).
    destruct (Nat.eq_dec i (List.length rs - 1)) as [->|Hneq].
    - rewrite Hnl in Hi. injection Hi as Hi. rewrite Hi. lia.
    - destruct (SortedDisjoint_nth rs Hsorted i (List.length rs - 1)%nat r (last rs r)
                  ltac:(lia) Hi Hnl) as [_ He].
      unfold well_formed in Hlast. lia. }
  destruct (Z.ltb_spec addr (RangeStartAddress front)); [lia|].
  destruct (Z.gtb_spec addr (RangeEndAddress (last rs front))); [lia|].
  simpl orb. cbv iota. rewrite Heq in *.
  destruct linear.
  - rewrite linear_scan_first by assumption. rewrite Ha, Hlen. reflexivity.
  - rewrite binary_path_hit by assumption. rewrite Ha, Hlen. reflexivity.
Qed.

Lemma IsInRange_sorted_complete_witness :
  let rs := sample_ranges [] in
  let r := mkHighlightRange 420 425 42 true in
  IsInRange rs 424 out0 = (classify r 424, mkOut (RangeColor r) (Z.of_nat 42)).
Proof.
  intros rs r.
  apply (proj2 (IsInRange_sorted_complete HighlightRange _ rs 42 r 424 out0
                  ltac:(unfold rs, SortedDisjoint;
                        repeat (constructor; unfold precedes; simpl; try lia))
                  ltac:(vm_compute; reflexivity)
                  ltac:(reflexivity) ltac:(reflexivity) ltac:(reflexivity))).
Defined.

(** X4.  A last range that ends before the first range starts blinds the
    pre-filter.  In particular, once the "+" button has appended the default
    note [0, 1) to a note list whose first note starts above address 1,
    [IsInRange] on the notes answers [NotInRange] for every address and
    leaves the out-parameters alone. *)
Theorem add_note_hides_every_note :
  forall (DEFAULT_NOTE_COLOR : Z) (first : NoteRange) (rest : list NoteRange)
         (addr : Z) (o : Out),
  1 < nr_RangeStartAddress first ->
  IsInRange (Cell.add_note DEFAULT_NOTE_COLOR (first :: rest)) addr o = (NotInRange, o).
Proof.
  intros c first rest addr o Hstart.
  unfold IsInRange, IsInRange_via, Cell.add_note.
  cbn [app].
  rewrite (last_default (first :: rest ++ [mkNoteRange 0 1 c "Some description" true])
             first (mkNoteRange 0 1 c "Some description" true)) by discriminate.
  change (first :: rest ++ [mkNoteRange 0 1 c "Some description" true])
    with ((first :: rest) ++ [mkNoteRange 0 1 c "Some description" true]).
  rewrite last_last.
  change (RangeStartAddress first) with (nr_RangeStartAddress first).
  change (RangeEndAddress (mkNoteRange 0 1 c "Some description" true)) with 1.
  destruct (Z.ltb_spec addr (nr_RangeStartAddress first)); [reflexivity|].
  destruct (Z.gtb_spec addr 1); [reflexivity|lia].
Qed.

Lemma add_note_hides_every_note_witness :
  IsInRange (Cell.add_note 7 (mkNoteRange 16 32 1 "header" true :: [])) 20 out0
  = (NotInRange, out0).
Proof.
  apply (add_note_hides_every_note 7 (mkNoteRange 16 32 1 "header" true) [] 20 out0).
  simpl. lia.
Defined.

End RangeIndexExtra.

(** ** More on the note outlines *)

Module OutlineExtra.
Import RangeIndex RangeIndexFacts Outline OutlineFacts.

(** What the scan over the later notes leaves in [rangesInNextLine]: its
    initial content, or the end and the activity flag of a scanned note that
    starts at or before the next line and ends after the cell below. *)
Lemma scan_notes_below_origin (notes : list NoteRange) :
  forall first next cell acc,
  let res := scan_notes_below notes first next cell acc in
  res = acc \/
  exists k note, nth_error notes k = Some note /\
    nr_RangeStartAddress note <= next /\ cell < nr_RangeEndAddress note /\
    nl_RangeEndAddress res = nr_RangeEndAddress note /\
    nl_isActive res = nr_isActive note.
Proof.
  induction notes as [|note rest IH]; intros first next cell acc; [left; reflexivity|].
  cbn [scan_notes_below].
  destruct (Z.geb_spec next (nr_RangeStartAddress note)) as [Hs|Hs].
  - destruct (Z.ltb_spec cell (nr_RangeEndAddress note)) as [He|He]; [|left; reflexivity].
    match goal with
    | |- context [scan_notes_below rest false next cell ?a] =>
        destruct (IH false next cell a) as [Heq|(k & n & Hk & H1 & H2 & H3 & H4)]
    end.
    + right. exists 0%nat, note. cbv zeta in Heq. rewrite Heq.
      repeat split; try reflexivity; lia.
    + right. exists (S k), n. repeat split; assumption.
  - destruct (IH false next cell acc) as [Heq|(k & n & Hk & H1 & H2 & H3 & H4)].
    + left. exact Heq.
    + right. exists (S k), n. repeat split; assumption.
Qed.

(** X5.  [hasRangeBelow] never answers true without cause: when it does, the
    line is not the last visible one and either the matched note extends
    past the cell directly below, or a note stored after it is active and
    covers that cell. *)
Theorem hasRangeBelow_sound :
  forall (ed : Editor) (lastLineAddr note_idx lineIdx colIdx line_max_idx : Z),
  0 <= lastLineAddr -> 0 <= colIdx -> lastLineAddr + 1 + colIdx <= SIZE_MAX ->
  hasRangeBelow ed lastLineAddr note_idx lineIdx colIdx line_max_idx = true ->
  let cellBelow := lastLineAddr + 1 + colIdx in
  lineIdx < line_max_idx /\
  ((exists note, vector_at (Notes ed) note_idx = Some note /\
      lastLineAddr + 1 < nr_RangeEndAddress note /\ cellBelow < nr_RangeEndAddress note) \/
   (exists (k : nat) note,
      nth_error (Notes ed) (S (Z.to_nat note_idx) + k) = Some note /\
      nr_isActive note = true /\
      nr_RangeStartAddress note <= cellBelow < nr_RangeEndAddress note)).
Proof.
  intros ed lastLineAddr note_idx lineIdx colIdx line_max_idx Hlast Hcol Hfit.
  unfold hasRangeBelow.
  replace (wrap (lastLineAddr + 1)) with (lastLineAddr + 1) by (unwrap; reflexivity).
  replace (wrap (lastLineAddr + 1 + colIdx)) with (lastLineAddr + 1 + colIdx)
    by (unwrap; reflexivity).
  destruct (vector_at (Notes ed) note_idx) as [note|] eqn:Hnote; cbv zeta beta iota.
  - intros Htrue. apply andb_true_iff in Htrue. destruct Htrue as [Hline Hbelow].
    apply Z.ltb_lt in Hline. split; [assumption|].
    apply orb_true_iff in Hbelow. destruct Hbelow as [Hsame|Hother].
    + left. exists note. apply andb_true_iff in Hsame. destruct Hsame as [H1 H2].
      apply Z.ltb_lt in H1. apply Z.ltb_lt in H2. repeat split; assumption.
    + right. apply andb_true_iff in Hother. destruct Hother as [Hend Hact].
      apply Z.ltb_lt in Hend.
      destruct (scan_notes_below_origin (skipn (S (Z.to_nat note_idx)) (Notes ed)) true
                  (lastLineAddr + 1) (lastLineAddr + 1 + colIdx) (mkNextLine 0 0 false))
        as [Heq|(k & n & Hk & H1 & H2 & H3 & H4)].
      * cbv zeta in Heq. rewrite Heq in Hend. simpl in Hend. lia.
      * exists k, n. rewrite nth_error_skipn in Hk.
        cbv zeta in H4. rewrite H4 in Hact.
        repeat split; try assumption; lia.
  - cbn [nl_isActive nl_RangeEndAddress andb orb]. rewrite !andb_false_r. discriminate.
Qed.

Lemma hasRangeBelow_sound_witness :
  let ed := sample_editor SIZE_MAX []
              [mkNoteRange 0 20 1 "first" true; mkNoteRange 10 40 2 "second" true] in
  let cellBelow := 15 + 1 + 5 in
  0 < 3 /\
  ((exists note, vector_at (Notes ed) 0 = Some note /\
      15 + 1 < nr_RangeEndAddress note /\ cellBelow < nr_RangeEndAddress note) \/
   (exists (k : nat) note,
      nth_error (Notes ed) (S (Z.to_nat 0) + k) = Some note /\
      nr_isActive note = true /\
      nr_RangeStartAddress note <= cellBelow < nr_RangeEndAddress note)).
Proof.
  intros ed.
  apply (hasRangeBelow_sound ed 15 0 0 5 3);
    [lia | lia | vm_compute; discriminate | vm_compute; reflexivity].
Defined.

(** X6.  On a line that lies inside the address space, the left edge of a
    note cell is drawn iff the cell is the [Start] of the note or stands in
    column 0, and the right edge iff the cell is the [End] of the note or
    stands in the last column. *)
Theorem drawNoteRect_side_edges :
  forall (F : Type) (ops : FloatOps F) (ed : Editor) (note_idx addr : Z) (pos_x pos_y : F)
         (col : Color) (range_position : RangePosition) (width : F)
         (colIdx lineIdx line_max_idx : Z) (s : Sizes F),
  0 <= colIdx < Cols ed -> colIdx <= addr -> addr + Cols ed <= SIZE_MAX ->
  let rect := drawNoteRect ed note_idx addr pos_x pos_y col range_position width
                colIdx lineIdx line_max_idx s in
  (VerticalLeft rect <> None <-> range_position = Start \/ colIdx = 0) /\
  (VerticalRight rect <> None <-> range_position = End \/ colIdx + 1 = Cols ed).
Proof.
  intros F ops ed note_idx addr pos_x pos_y col range_position width
         colIdx lineIdx line_max_idx s Hcol Haddr Hfit rect.
  unfold rect, drawNoteRect.
  replace (wrap (addr - colIdx)) with (addr - colIdx) by (unwrap; reflexivity).
  replace (wrap (Cols ed - colIdx - 1)) with (Cols ed - colIdx - 1) by (unwrap; reflexivity).
  replace (wrap (addr + (Cols ed - colIdx - 1))) with (addr + (Cols ed - colIdx - 1))
    by (unwrap; reflexivity).
  destruct (negb (mid_cols_gap ed colIdx) && _); cbn [VerticalLeft VerticalRight].
  all: destruct (RangePosition_eq_dec range_position Start) as [Hs|Hs];
       destruct (RangePosition_eq_dec range_position End) as [He|He];
       destruct (Z.eqb_spec addr (addr - colIdx));
       destruct (Z.eqb_spec addr (addr + (Cols ed - colIdx - 1)));
       cbn [orb]; split; split; intros Hx;
       try discriminate; try congruence; try (left; assumption); try (right; lia);
       try (exfalso; apply Hx; reflexivity);
       try (destruct Hx as [Hx|Hx]; [congruence|lia]).
Qed.

Lemma drawNoteRect_side_edges_witness :
  let ed := sample_editor SIZE_MAX [] [mkNoteRange 16 40 1 "Some description" true] in
  let rect := drawNoteRect ed 0 31 0 0 1 Middle (HexCellWidth sample_sizes) 15 1 5
                sample_sizes in
  (VerticalLeft rect <> None <-> Middle = Start \/ 15 = 0) /\
  (VerticalRight rect <> None <-> Middle = End \/ 15 + 1 = Cols ed).
Proof.
  intros ed.
  apply (drawNoteRect_side_edges Z Z_FloatOps ed 0 31 0 0 1 Middle
           (HexCellWidth sample_sizes) 15 1 5 sample_sizes);
    [vm_compute; split; [discriminate|reflexivity] | lia | vm_compute; discriminate].
Defined.

End OutlineExtra.

(** ** More text conversions *)

Module LibcTextFacts.
Import Libc LibcText LibcFacts.

Lemma hex_digit_cases d :
  0 <= d < 16 ->
  d = 0 \/ d = 1 \/ d = 2 \/ d = 3 \/ d = 4 \/ d = 5 \/ d = 6 \/ d = 7 \/
  d = 8 \/ d = 9 \/ d = 10 \/ d = 11 \/ d = 12 \/ d = 13 \/ d = 14 \/ d = 15.
Proof. lia. Qed.

Lemma digit_of_hex_digit_upper d :
  0 <= d < 16 ->
  digit_in_base 16 (hex_digit_upper d) = Some d /\
  (Ascii.eqb (hex_digit_upper d) "x" || Ascii.eqb (hex_digit_upper d) "X")%bool = false /\
  is_space (hex_digit_upper d) = false /\
  read_sign (String (hex_digit_upper d) EmptyString)
  = (false, String (hex_digit_upper d) EmptyString).
Proof.
  intros Hd. pose proof (hex_digit_cases d Hd) as Hcases.
  repeat (destruct Hcases as [->|Hcases]; [repeat split; reflexivity|]).
  subst d. repeat split; reflexivity.
Qed.

Lemma read_digits_hex_digits_upper n v acc :
  read_digits 16 (hex_digits_upper n v) acc
  = acc * 16 ^ Z.of_nat n + v mod 16 ^ Z.of_nat n.
Proof.
  revert acc. induction n as [|n IH]; intros acc.
  - simpl. rewrite Z.mod_1_r. lia.
  - cbn [hex_digits_upper read_digits].
    rewrite (proj1 (digit_of_hex_digit_upper _ (Z.mod_pos_bound _ 16 ltac:(lia)))).
    rewrite IH. rewrite Nat2Z.inj_succ, Z.pow_succ_r by lia.
    set (p := 16 ^ Z.of_nat n).
    assert (Hp : 0 < p) by (apply Z.pow_pos_nonneg; lia).
    rewrite (Z.mul_comm 16 p), Z.rem_mul_r by lia.
    lia.
Qed.

Lemma hex_length_pos v : (1 <= hex_length v)%nat.
Proof.
  unfold hex_length. destruct (v <=? 0); [lia|].
  pose proof (Z.log2_nonneg v).
  assert (0 <= Z.log2 v / 4) by (apply Z.div_pos; lia). lia.
Qed.

(** The digits counted by [hex_length] hold the whole value. *)
Lemma hex_length_enough v : 0 <= v -> v < 16 ^ Z.of_nat (hex_length v).
Proof.
  intros Hv. unfold hex_length. destruct (Z.leb_spec v 0).
  - replace v with 0 by lia. reflexivity.
  - pose proof (Z.log2_nonneg v).
    assert (0 <= Z.log2 v / 4) by (apply Z.div_pos; lia).
    rewrite Z2Nat.id by lia.
    change 16 with (2 ^ 4). rewrite <- Z.pow_mul_r by lia.
    apply Z.log2_lt_pow2; [lia|].
    pose proof (Z.mul_div_le (Z.log2 v) 4 ltac:(lia)).
    pose proof (Z.mod_pos_bound (Z.log2 v) 4 ltac:(lia)).
    pose proof (Z.div_mod (Z.log2 v) 4 ltac:(lia)). lia.
Qed.

Lemma hex_length_bound v n :
  0 <= v < 16 ^ Z.of_nat n -> (1 <= n)%nat -> (hex_length v <= n)%nat.
Proof. intros; apply hex_length_le; assumption. Qed.

Lemma length_hex_digits n v : String.length (hex_digits n v) = n.
Proof. induction n as [|n IH]; simpl; [|rewrite IH]; reflexivity. Qed.

Lemma length_hex_digits_upper n v : String.length (hex_digits_upper n v) = n.
Proof. induction n as [|n IH]; simpl; [|rewrite IH]; reflexivity. Qed.

Lemma skip_0x_no_prefix (c1 c2 : ascii) (r : string) :
  (Ascii.eqb c2 "x" || Ascii.eqb c2 "X")%bool = false ->
  skip_0x (String c1 (String c2 r)) = String c1 (String c2 r).
Proof.
  intros Hx. unfold skip_0x.
  destruct c1 as [[|] [|] [|] [|] [|] [|] [|] [|]]; try reflexivity.
  destruct r; [reflexivity|]. rewrite Hx. reflexivity.
Qed.

Lemma skip_0x_short (c : ascii) : skip_0x (String c EmptyString) = String c EmptyString.
Proof.
  unfold skip_0x. destruct c as [[|] [|] [|] [|] [|] [|] [|] [|]]; reflexivity.
Qed.

(** [sscanf("%zX")] reads back what ["%lX"] prints, over all of [size_t]. *)
Lemma sscanf_zX_printf_X v : is_size_t v -> sscanf_zX (printf_X v) = Some v.
Proof.
  intros [Hv Hmax]. unfold printf_X, printf_0X. rewrite Nat.max_r by lia.
  pose proof (hex_length_pos v) as Hpos. pose proof (hex_length_enough v Hv) as Hfit.
  pose proof (read_digits_hex_digits_upper (hex_length v) v 0) as Hread.
  rewrite Z.mod_small in Hread by lia. simpl (0 * _ + v) in Hread.
  destruct (hex_length v) as [|n]; [lia|].
  cbn [hex_digits_upper] in *.
  set (d := (v / 16 ^ Z.of_nat n) mod 16) in *.
  destruct (digit_of_hex_digit_upper d (Z.mod_pos_bound _ 16 ltac:(lia)))
    as (Hdig & _ & Hsp & Hsign).
  unfold sscanf_zX, scan_unsigned. cbn [skip_space]. rewrite Hsp.
  assert (Hsign' : forall r, read_sign (String (hex_digit_upper d) r)
                             = (false, String (hex_digit_upper d) r)).
  { intros r. unfold read_sign in *.
    destruct (hex_digit_upper d) as [[|] [|] [|] [|] [|] [|] [|] [|]];
      try reflexivity; discriminate Hsign. }
  rewrite Hsign'. change (16 =? 16) with true. cbv iota.
  assert (Hskip : skip_0x (String (hex_digit_upper d) (hex_digits_upper n v))
                  = String (hex_digit_upper d) (hex_digits_upper n v)).
  { destruct n as [|m]; [apply skip_0x_short|].
    cbn [hex_digits_upper]. apply skip_0x_no_prefix.
    apply (digit_of_hex_digit_upper _ (Z.mod_pos_bound _ 16 ltac:(lia))). }
  rewrite Hskip. cbn [starts_with_digit]. rewrite Hdig, Hread.
  destruct (Z.gtb_spec v SIZE_MAX); [lia|]. reflexivity.
Qed.

Lemma length_printf_X v : is_size_t v -> (String.length (printf_X v) <= 16)%nat.
Proof.
  intros [Hv Hmax]. unfold printf_X, printf_0X.
  rewrite Nat.max_r by lia. rewrite length_hex_digits_upper.
  apply hex_length_le; [|lia]. unfold SIZE_MAX, SIZE_BITS in Hmax.
  change (16 ^ Z.of_nat 16) with (2 ^ 64). lia.
Qed.

(** *** Decimal text *)

Lemma read_digits_uint_acc (d : Decimal.uint) :
  forall acc : positive,
  read_digits 10 (NilEmpty.string_of_uint d) (Z.pos acc) = Z.pos (Pos.of_uint_acc d acc).
Proof.
  induction d; intros acc; cbn [NilEmpty.string_of_uint read_digits Pos.of_uint_acc];
    try reflexivity.
  all: match goal with
       | |- context [digit_in_base 10 ?c] =>
           let v := eval vm_compute in (digit_in_base 10 c) in
           change (digit_in_base 10 c) with v
       end; cbv iota.
  all: rewrite <- IHd; f_equal; lia.
Qed.

Lemma read_digits_uint (d : Decimal.uint) :
  read_digits 10 (NilEmpty.string_of_uint d) 0 = Z.of_N (Pos.of_uint d).
Proof.
  induction d; cbn [NilEmpty.string_of_uint read_digits Pos.of_uint]; try reflexivity.
  all: match goal with
       | |- context [digit_in_base 10 ?c] =>
           let v := eval vm_compute in (digit_in_base 10 c) in
           change (digit_in_base 10 c) with v
       end; cbv iota.
  - exact IHd.
  - apply (read_digits_uint_acc d 1).
  - apply (read_digits_uint_acc d 2).
  - apply (read_digits_uint_acc d 3).
  - apply (read_digits_uint_acc d 4).
  - apply (read_digits_uint_acc d 5).
  - apply (read_digits_uint_acc d 6).
  - apply (read_digits_uint_acc d 7).
  - apply (read_digits_uint_acc d 8).
  - apply (read_digits_uint_acc d 9).
Qed.

(** The head of a non-empty digit text: a decimal digit, neither a space
    nor a sign. *)
Lemma uint_text_head (d : Decimal.uint) :
  d <> Decimal.Nil ->
  exists c r, NilEmpty.string_of_uint d = String c r /\
    is_space c = false /\
    (forall s, read_sign (String c s) = (false, String c s)) /\
    starts_with_digit 10 (String c r) = true.
Proof.
  destruct d; intros Hne; [congruence| | | | | | | | | |];
    eexists; eexists; (split; [reflexivity|]); repeat split; reflexivity.
Qed.

Lemma pos_text (p : positive) :
  exists c r, NilZero.string_of_uint (Pos.to_uint p) = String c r /\
    is_space c = false /\
    (forall s, read_sign (String c s) = (false, String c s)) /\
    starts_with_digit 10 (String c r) = true /\
    read_digits 10 (String c r) 0 = Z.pos p.
Proof.
  pose proof (DecimalPos.Unsigned.to_uint_nonnil p) as Hne.
  destruct (uint_text_head _ Hne) as (c & r & Heq & Hsp & Hsign & Hdig).
  exists c, r.
  assert (Hz : NilZero.string_of_uint (Pos.to_uint p)
               = NilEmpty.string_of_uint (Pos.to_uint p))
    by (destruct (Pos.to_uint p); [congruence|reflexivity..]).
  rewrite Hz. repeat split; try assumption.
  rewrite <- Heq, read_digits_uint, DecimalPos.Unsigned.of_to. reflexivity.
Qed.

(** ["%lu"] read back by ["%lu"], over all of [size_t]. *)
Lemma sscanf_lu_printf_d v : is_size_t v -> sscanf_lu (printf_d v) = Some v.
Proof.
  intros [Hv Hmax]. destruct v as [|p|p]; [reflexivity| |lia].
  unfold printf_d. cbn [Z.to_int NilZero.string_of_int].
  destruct (pos_text p) as (c & r & -> & Hsp & Hsign & Hdig & Hread).
  unfold sscanf_lu, scan_unsigned. cbn [skip_space]. rewrite Hsp, Hsign.
  change (10 =? 16) with false. cbv iota. rewrite Hdig, Hread.
  destruct (Z.gtb_spec (Z.pos p) SIZE_MAX); [lia|]. reflexivity.
Qed.

(** ["%ld"] read back by ["%ld"], over all of [long]. *)
Lemma sscanf_ld_printf_d v :
  - 2 ^ 63 <= v <= 2 ^ 63 - 1 -> sscanf_ld (printf_d v) = Some v.
Proof.
  intros Hv. destruct v as [|p|p]; [reflexivity| |].
  - unfold printf_d. cbn [Z.to_int NilZero.string_of_int].
    destruct (pos_text p) as (c & r & -> & Hsp & Hsign & Hdig & Hread).
    unfold sscanf_ld, scan_signed. cbn [skip_space]. rewrite Hsp, Hsign, Hdig, Hread.
    f_equal. lia.
  - unfold printf_d. cbn [Z.to_int NilZero.string_of_int].
    destruct (pos_text p) as (c & r & -> & Hsp & Hsign & Hdig & Hread).
    unfold sscanf_ld, scan_signed. cbn [skip_space is_space].
    change (is_space "-") with false. cbv iota. cbn [read_sign].
    rewrite Hdig, Hread. f_equal. lia.
Qed.

Lemma length_string_of_uint (d : Decimal.uint) :
  String.length (NilEmpty.string_of_uint d) = Decimal.nb_digits d.
Proof. induction d; simpl; congruence. Qed.

Lemma of_uint_acc_lower (d : Decimal.uint) :
  forall acc : positive,
  Z.pos acc * 10 ^ Z.of_nat (Decimal.nb_digits d) <= Z.pos (Pos.of_uint_acc d acc).
Proof.
  induction d; intros acc; cbn [Decimal.nb_digits Pos.of_uint_acc];
    [rewrite Z.pow_0_r; lia|..].
  all: rewrite Nat2Z.inj_succ, Z.pow_succ_r by lia.
  all: match goal with
       | |- _ <= Z.pos (Pos.of_uint_acc _ ?a) =>
           specialize (IHd a);
           assert (Z.pos acc * 10 <= Z.pos a) by lia
       end.
  all: assert (0 < 10 ^ Z.of_nat (Decimal.nb_digits d)) by (apply Z.pow_pos_nonneg; lia).
  all: nia.
Qed.

Lemma to_uint_no_leading_zero (p : positive) (d : Decimal.uint) :
  Pos.to_uint p <> Decimal.D0 d.
Proof.
  pose proof (DecimalPos.Unsigned.to_of (Pos.to_uint p)) as Hnorm.
  rewrite DecimalPos.Unsigned.of_to in Hnorm. cbn [N.to_uint] in Hnorm.
  pose proof (DecimalPos.Unsigned.to_uint_nonzero p) as Hnz.
  assert (Hhead : Decimal.nzhead (Pos.to_uint p) <> Decimal.Nil).
  { intros Hnil. apply Hnz. rewrite Hnorm. apply DecimalFacts.unorm_0. assumption. }
  rewrite (DecimalFacts.unorm_nzhead _ Hhead) in Hnorm.
  rewrite Hnorm. apply DecimalFacts.nzhead_nonzero.
Qed.

(** A positive number below [10 ^ n] is printed in at most [n] digits. *)
Lemma length_pos_text (p : positive) (n : nat) :
  Z.pos p < 10 ^ Z.of_nat n ->
  (String.length (NilZero.string_of_uint (Pos.to_uint p)) <= n)%nat.
Proof.
  intros Hlt.
  pose proof (DecimalPos.Unsigned.of_to p) as Hof.
  pose proof (to_uint_no_leading_zero p) as Hlead.
  pose proof (DecimalPos.Unsigned.to_uint_nonnil p) as Hne.
  assert (Hz : NilZero.string_of_uint (Pos.to_uint p)
               = NilEmpty.string_of_uint (Pos.to_uint p))
    by (destruct (Pos.to_uint p); [congruence|reflexivity..]).
  rewrite Hz, length_string_of_uint.
  destruct (Pos.to_uint p) as [|l|l|l|l|l|l|l|l|l|l];
    [congruence|exfalso; exact (Hlead l eq_refl)|..].
  all: cbn [Pos.of_uint] in Hof; injection Hof as Hof; cbn [Decimal.nb_digits].
  all: match type of Hof with
       | Pos.of_uint_acc _ ?a = _ => pose proof (of_uint_acc_lower l a) as Hlow
       end.
  all: rewrite Hof in Hlow.
  all: assert (Hpow : 10 ^ Z.of_nat (Decimal.nb_digits l) < 10 ^ Z.of_nat n)
         by (assert (0 < 10 ^ Z.of_nat (Decimal.nb_digits l))
               by (apply Z.pow_pos_nonneg; lia); nia).
  all: apply Z.pow_lt_mono_r_iff in Hpow; lia.
Qed.

(** The decimal text of any [long] or [size_t] fits in twenty characters. *)
Lemma length_printf_d v :
  - 2 ^ 63 <= v <= SIZE_MAX -> (String.length (printf_d v) <= 20)%nat.
Proof.
  intros [Hlo Hhi]. unfold SIZE_MAX, SIZE_BITS in Hhi.
  destruct v as [|p|p]; [simpl; lia| |].
  - unfold printf_d. cbn [Z.to_int NilZero.string_of_int].
    apply length_pos_text. change (10 ^ Z.of_nat 20) with 100000000000000000000.
    change (2 ^ 64) with 18446744073709551616 in Hhi. lia.
  - unfold printf_d. cbn [Z.to_int NilZero.string_of_int String.length].
    assert ((String.length (NilZero.string_of_uint (Pos.to_uint p)) <= 19)%nat); [|lia].
    apply length_pos_text. change (10 ^ Z.of_nat 19) with 10000000000000000000.
    change (2 ^ 63) with 9223372036854775808 in Hlo. lia.
Qed.

End LibcTextFacts.

(** ** More on the codec *)

Module CodecExtra.
Import Libc LibcFacts LibcText LibcTextFacts Codec CodecFacts.

(** X7.  Whatever the host's byte order, a full-width read decodes the bytes
    as a little-endian number under the "LE" selector (0) and as a
    big-endian number under any other selector value, for all eleven
    types. *)
Theorem decode_follows_selector :
  forall (host_little_endian : bool) (PreviewEndianess : Z) (data_type : DataType_)
         (bytes : list Z),
  List.length bytes = DataTypeGetSize data_type ->
  decode host_little_endian PreviewEndianess data_type bytes (DataTypeGetSize data_type)
  = if PreviewEndianess =? 0
    then little_endian_value bytes
    else little_endian_value (rev bytes).
Proof.
  intros host sel data_type bytes Hlen.
  unfold decode, EndianessCopy, IsBigEndian, object_bytes, object_value.
  rewrite <- Hlen.
  destruct host.
  - change (negb (nth 0 (little_endian_bytes 2 1) 0 =? 0)) with true. cbv iota.
    unfold EndianessCopyBigEndian, reversed_copy, memcpy.
    rewrite firstn_all, skipn_all2, app_nil_r, app_nil_r by (rewrite repeat_length; lia).
    destruct (sel =? 0); reflexivity.
  - change (negb (nth 0 (rev (little_endian_bytes 2 1)) 0 =? 0)) with false. cbv iota.
    unfold EndianessCopyLittleEndian, reversed_copy, memcpy.
    rewrite firstn_all, skipn_all2, app_nil_r, app_nil_r by (rewrite repeat_length; lia).
    destruct (sel =? 0); simpl negb; cbv iota; [rewrite rev_involutive|]; reflexivity.
Qed.

Lemma decode_follows_selector_witness :
  decode false 1 DataType_U16 [0x12; 0x34] (DataTypeGetSize DataType_U16)
  = if 1 =? 0 then little_endian_value [0x12; 0x34]
    else little_endian_value (rev [0x12; 0x34]).
Proof.
  apply (decode_follows_selector false 1 DataType_U16 [0x12; 0x34]). reflexivity.
Defined.

Lemma firstn_skipn_prefix {A : Type} (l : list A) (a n m : nat) :
  (a + n <= m)%nat -> firstn n (skipn a (firstn m l)) = firstn n (skipn a l).
Proof.
  intros Hle. rewrite skipn_firstn_comm, firstn_firstn.
  f_equal. lia.
Qed.

(** X8.  A preview never looks past the end of the buffer: with
    [addr < mem_size], the text depends only on the first [mem_size] bytes,
    and a read callback is only consulted at offsets of
    [addr .. mem_size - 1]; this for every host, selector, type and
    radix. *)
Theorem DrawPreviewData_stays_in_buffer :
  forall (host_little_endian : bool) (printf_f : fp_value -> string) (PreviewEndianess : Z)
         (addr mem_size : Z) (data_type : DataType_) (data_format : DataFormat)
         (out_buf_size : Z),
  0 <= addr < mem_size -> mem_size + 8 <= SIZE_MAX ->
  (forall mem mem' : list Z,
     firstn (Z.to_nat mem_size) mem = firstn (Z.to_nat mem_size) mem' ->
     DrawPreviewData host_little_endian printf_f None PreviewEndianess addr (Some mem)
       mem_size data_type data_format out_buf_size
     = DrawPreviewData host_little_endian printf_f None PreviewEndianess addr (Some mem')
         mem_size data_type data_format out_buf_size) /\
  (forall (read read' : list Z -> Z -> Z) (mem : list Z),
     (forall off, addr <= off < mem_size -> read mem off = read' mem off) ->
     DrawPreviewData host_little_endian printf_f (Some read) PreviewEndianess addr (Some mem)
       mem_size data_type data_format out_buf_size
     = DrawPreviewData host_little_endian printf_f (Some read') PreviewEndianess addr
         (Some mem) mem_size data_type data_format out_buf_size).
Proof.
  intros host printf_f sel addr mem_size data_type data_format out_buf_size Haddr Hmem.
  pose proof (preview_read_size addr mem_size data_type Haddr Hmem) as Hsize.
  assert (Hn : (1 <= DataTypeGetSize data_type <= 8)%nat)
    by (destruct data_type; simpl; lia).
  split.
  - intros mem mem' Hprefix. unfold DrawPreviewData. cbv zeta. rewrite Hsize.
    set (n := Z.to_nat (Z.min (Z.of_nat (DataTypeGetSize data_type)) (mem_size - addr))).
    assert (Hbuf : firstn n (skipn (Z.to_nat addr) mem)
                   = firstn n (skipn (Z.to_nat addr) mem')).
    { rewrite <- (firstn_skipn_prefix mem (Z.to_nat addr) n (Z.to_nat mem_size))
        by (unfold n; lia).
      rewrite <- (firstn_skipn_prefix mem' (Z.to_nat addr) n (Z.to_nat mem_size))
        by (unfold n; lia).
      rewrite Hprefix. reflexivity. }
    rewrite Hbuf. reflexivity.
  - intros read read' mem Hagree. unfold DrawPreviewData. cbv zeta. rewrite Hsize.
    set (n := Z.to_nat (Z.min (Z.of_nat (DataTypeGetSize data_type)) (mem_size - addr))).
    assert (Hbuf : map (fun i : nat => read mem (wrap (addr + Z.of_nat i))) (seq 0 n)
                   = map (fun i : nat => read' mem (wrap (addr + Z.of_nat i))) (seq 0 n)).
    { apply map_ext_in. intros i Hi. apply in_seq in Hi.
      rewrite wrap_small by (unfold is_size_t, n in *; lia).
      apply Hagree. unfold n in Hi. lia. }
    rewrite Hbuf. reflexivity.
Qed.

Lemma DrawPreviewData_stays_in_buffer_witness :
  DrawPreviewData true unused_printf_f None 0 2 (Some [1; 2; 3; 4; 99; 98]) 4
    DataType_U32 DataFormat_Hex 128
  = DrawPreviewData true unused_printf_f None 0 2 (Some [1; 2; 3; 4]) 4
      DataType_U32 DataFormat_Hex 128.
Proof.
  apply (proj1 (DrawPreviewData_stays_in_buffer true unused_printf_f 0 2 4
                  DataType_U32 DataFormat_Hex 128
                  ltac:(lia) ltac:(vm_compute; discriminate))).
  reflexivity.
Defined.

(** X9.  On a little-endian host with the "LE" selector, the decimal and
    hexadecimal previews at [addr < mem_size] show the little-endian number
    made of the element's bytes that lie inside the buffer: bytes past the
    end of the buffer count as zero. *)
Theorem DrawPreviewData_zero_pads :
  forall (printf_f : fp_value -> string) (addr mem_size : Z) (mem : list Z)
         (data_type : DataType_) (data_format : DataFormat) (out_buf_size : Z),
  0 <= addr < mem_size -> mem_size + 8 <= SIZE_MAX ->
  data_format <> DataFormat_Bin ->
  DrawPreviewData true printf_f None 0 addr (Some mem) mem_size data_type data_format
    out_buf_size
  = snprintf out_buf_size
      (format_value printf_f data_type data_format
         (little_endian_value
            (firstn (DataTypeGetSize data_type)
               (skipn (Z.to_nat addr) (firstn (Z.to_nat mem_size) mem))))).
Proof.
  intros printf_f addr mem_size mem data_type data_format out_buf_size Haddr Hmem Hfmt.
  pose proof (preview_read_size addr mem_size data_type Haddr Hmem) as Hsize.
  assert (Hn : (1 <= DataTypeGetSize data_type <= 8)%nat)
    by (destruct data_type; simpl; lia).
  unfold DrawPreviewData. cbv zeta. rewrite Hsize.
  set (n := Z.to_nat (Z.min (Z.of_nat (DataTypeGetSize data_type)) (mem_size - addr))).
  set (bytes := firstn n (skipn (Z.to_nat addr) mem)).
  assert (Hsame : firstn (DataTypeGetSize data_type)
                    (skipn (Z.to_nat addr) (firstn (Z.to_nat mem_size) mem)) = bytes).
  { unfold bytes. rewrite skipn_firstn_comm, firstn_firstn. f_equal. unfold n. lia. }
  rewrite Hsame.
  assert (Hdec : decode true 0 data_type bytes n = little_endian_value bytes).
  { unfold decode, EndianessCopy, IsBigEndian, object_bytes, object_value.
    change (negb (nth 0 (little_endian_bytes 2 1) 0 =? 0)) with true. cbv iota.
    unfold EndianessCopyBigEndian, memcpy. simpl negb. cbv iota.
    rewrite skipn_repeat. unfold bytes. rewrite firstn_firstn, Nat.min_id.
    apply little_endian_value_padded. }
  rewrite Hdec. destruct data_format; [congruence|reflexivity|reflexivity].
Qed.

Lemma DrawPreviewData_zero_pads_witness :
  DrawPreviewData true unused_printf_f None 0 3 (Some [1; 2; 3; 0x2A; 5; 6]) 4
    DataType_U32 DataFormat_Dec 128
  = snprintf 128
      (format_value unused_printf_f DataType_U32 DataFormat_Dec
         (little_endian_value
            (firstn (DataTypeGetSize DataType_U32)
               (skipn (Z.to_nat 3) (firstn (Z.to_nat 4) [1; 2; 3; 0x2A; 5; 6]))))).
Proof.
  apply (DrawPreviewData_zero_pads unused_printf_f 3 4 [1; 2; 3; 0x2A; 5; 6]
           DataType_U32 DataFormat_Dec 128);
    [lia | vm_compute; discriminate | discriminate].
Defined.

Definition type_bits (t : DataType_) : Z := 8 * Z.of_nat (DataTypeGetSize t).

(** The number that the decimal preview of an integer type prints. *)
Definition typed_value (t : DataType_) (raw : Z) : Z :=
  if Z.rem (DataType_index t) 2 =? 0 then to_signed (type_bits t) raw else raw.

Lemma format_value_hex_integer (printf_f : fp_value -> string) (t : DataType_) (raw : Z) :
  is_integer_type t = true -> 0 <= raw < 2 ^ type_bits t ->
  format_value printf_f t DataFormat_Hex raw
  = ("0x" ++ hex_digits (2 * DataTypeGetSize t) raw)%string.
Proof.
  intros Hint Hraw. unfold type_bits in Hraw.
  destruct t; try discriminate Hint; cbn [format_value DataTypeGetSize] in *.
  all: try (change 0xFF with (Z.ones 8)); try (change 0xFFFF with (Z.ones 16)).
  all: rewrite ?land_ones_to_signed, ?mod_to_signed by (simpl in *; lia).
  all: rewrite ?Z.land_ones, ?Z.mod_small by (simpl in *; lia).
  all: unfold printf_0x; rewrite Nat.max_l; [reflexivity|].
  all: apply hex_length_le; simpl in *; lia.
Qed.

Lemma format_value_dec_integer (printf_f : fp_value -> string) (t : DataType_) (raw : Z) :
  is_integer_type t = true ->
  format_value printf_f t DataFormat_Dec raw = printf_d (typed_value t raw).
Proof.
  intros Hint. destruct t; try discriminate Hint; reflexivity.
Qed.

(** X10.  For the eight integer types the hexadecimal preview is "0x"
    followed by exactly two lower-case digits per byte of the type, zero
    padded. *)
Theorem hex_preview_width :
  forall (printf_f : fp_value -> string) (data_type : DataType_) (raw : Z),
  is_integer_type data_type = true -> 0 <= raw < 2 ^ type_bits data_type ->
  format_value printf_f data_type DataFormat_Hex raw
  = ("0x" ++ hex_digits (2 * DataTypeGetSize data_type) raw)%string /\
  String.length (format_value printf_f data_type DataFormat_Hex raw)
  = (2 + 2 * DataTypeGetSize data_type)%nat.
Proof.
  intros printf_f t raw Hint Hraw.
  rewrite (format_value_hex_integer printf_f t raw Hint Hraw). split; [reflexivity|].
  cbn [append String.length]. rewrite length_hex_digits. reflexivity.
Qed.

Lemma hex_preview_width_witness :
  format_value unused_printf_f DataType_S16 DataFormat_Hex 0x000F
  = ("0x" ++ hex_digits (2 * DataTypeGetSize DataType_S16) 0x000F)%string /\
  String.length (format_value unused_printf_f DataType_S16 DataFormat_Hex 0x000F)
  = (2 + 2 * DataTypeGetSize DataType_S16)%nat.
Proof.
  apply (hex_preview_width unused_printf_f DataType_S16 0x000F);
    [reflexivity | vm_compute; split; [discriminate|reflexivity]].
Defined.

Lemma to_signed_range bits raw :
  0 < bits -> 0 <= raw < 2 ^ bits ->
  - 2 ^ (bits - 1) <= to_signed bits raw < 2 ^ (bits - 1).
Proof.
  intros Hbits Hraw. unfold to_signed.
  assert (Hpow : 2 ^ bits = 2 * 2 ^ (bits - 1)).
  { replace bits with (Z.succ (bits - 1)) at 1 by lia. apply Z.pow_succ_r. lia. }
  destruct (Z.ltb_spec raw (2 ^ (bits - 1))); lia.
Qed.

Lemma wrap_to_signed_mod bits raw :
  0 < bits <= 64 -> 0 <= raw < 2 ^ bits -> wrap (to_signed bits raw) mod 2 ^ bits = raw.
Proof.
  intros Hbits Hraw. unfold wrap, SIZE_BITS.
  assert (Hsplit : 2 ^ 64 = 2 ^ bits * 2 ^ (64 - bits)).
  { rewrite <- Z.pow_add_r by lia. f_equal. lia. }
  assert (0 < 2 ^ bits) by (apply Z.pow_pos_nonneg; lia).
  assert (0 < 2 ^ (64 - bits)) by (apply Z.pow_pos_nonneg; lia).
  rewrite Hsplit, Z.rem_mul_r by lia.
  rewrite (Z.mul_comm (2 ^ bits)), Z.mod_add by lia.
  rewrite Z.mod_mod by lia. apply mod_to_signed; lia.
Qed.

(** X11.  Decimal round trip of the converter for the eight integer types:
    the decimal preview of a bit pattern, typed into the converter under the
    same type and the decimal radix, is scanned into a register whose low
    bytes are that bit pattern (the sign extended for a negative number). *)
Theorem decimal_round_trip_integers :
  forall (host_little_endian : bool) (printf_f : fp_value -> string)
         (sscanf_f sscanf_lf : string -> option Z) (old : Z) (data_type : DataType_) (raw : Z),
  is_integer_type data_type = true -> 0 <= raw < 2 ^ type_bits data_type ->
  let st := mkConverterState old data_type DataFormat_Dec
              (format_value printf_f data_type DataFormat_Dec raw) in
  ValueToConvert (parse_input host_little_endian sscanf_f sscanf_lf st)
  = wrap (typed_value data_type raw) /\
  ValueToConvert (parse_input host_little_endian sscanf_f sscanf_lf st)
    mod 2 ^ type_bits data_type = raw.
Proof.
  intros host printf_f sscanf_f sscanf_lf old t raw Hint Hraw st.
  assert (Hbits : 0 < type_bits t <= 64)
    by (unfold type_bits; destruct t; simpl; try lia; discriminate Hint).
  assert (Hscan : converter_scan host sscanf_f sscanf_lf st
                  = Some (IntoValueToConvert (wrap (typed_value t raw)))).
  { unfold converter_scan, st.
    cbn [ValueConverterInputBuf ConvertValueFormat ConvertValueType ValueToConvert].
    rewrite (format_value_dec_integer printf_f t raw Hint). unfold typed_value.
    destruct t; try discriminate Hint;
      cbn [DataType_index Z.rem Z.eqb Z.quotrem Z.pos_div_eucl] in *.
    all: match goal with
         | |- context [Z.rem ?a ?b =? 0] =>
             let v := eval vm_compute in (Z.rem a b =? 0) in
             change (Z.rem a b =? 0) with v
         end; cbv iota.
    all: try (rewrite sscanf_ld_printf_d;
              [reflexivity|
               pose proof (to_signed_range _ raw (proj1 Hbits) Hraw) as Hr;
               unfold type_bits in *; simpl in *; lia]).
    all: rewrite sscanf_lu_printf_d;
         [simpl option_map; rewrite wrap_small; [reflexivity|]|];
         unfold is_size_t, SIZE_MAX, SIZE_BITS, type_bits in *; simpl in *; lia. }
  unfold parse_input. rewrite Hscan.
  cbn [ValueToConvert]. split; [reflexivity|].
  unfold typed_value.
  destruct (Z.rem (DataType_index t) 2 =? 0).
  - apply wrap_to_signed_mod; assumption.
  - rewrite wrap_small, Z.mod_small; [reflexivity|lia|].
    unfold is_size_t, SIZE_MAX, SIZE_BITS.
    assert (2 ^ type_bits t <= 2 ^ 64) by (apply Z.pow_le_mono_r; lia). lia.
Qed.

Lemma decimal_round_trip_integers_witness :
  let st := mkConverterState 0 DataType_S8 DataFormat_Dec
              (format_value unused_printf_f DataType_S8 DataFormat_Dec 0xFE) in
  ValueToConvert (parse_input true unused_sscanf unused_sscanf st)
  = wrap (typed_value DataType_S8 0xFE) /\
  ValueToConvert (parse_input true unused_sscanf unused_sscanf st)
    mod 2 ^ type_bits DataType_S8 = 0xFE.
Proof.
  apply (decimal_round_trip_integers true unused_printf_f unused_sscanf unused_sscanf
           0 DataType_S8 0xFE);
    [reflexivity | vm_compute; split; [discriminate|reflexivity]].
Defined.

End CodecExtra.

(** ** The converter panel *)

Module ConverterPanelFacts.
Import Libc LibcText LibcTextFacts Codec CodecFacts CodecExtra ConverterPanel.

Section Panel.
Variable host_little_endian : bool.
Variable printf_f : fp_value -> string.
Variable sscanf_f sscanf_lf : string -> option Z.

Local Definition parse := parse_input host_little_endian sscanf_f sscanf_lf.

Lemma wrap_to_signed_64 v : is_size_t v -> wrap (to_signed 64 v) = v.
Proof.
  intros [Hv Hmax]. unfold SIZE_MAX, SIZE_BITS in Hmax.
  pose proof (wrap_to_signed_mod 64 v ltac:(lia) ltac:(lia)) as Hmod.
  pose proof (wrap_range (to_signed 64 v)) as [H1 H2].
  unfold SIZE_MAX, SIZE_BITS in H2.
  rewrite Z.mod_small in Hmod by lia. exact Hmod.
Qed.

(** Re-rendering the register as ["%lX"] and scanning it in the hexadecimal
    radix gives the register back. *)
Lemma parse_render_lX (st : ConverterState) :
  is_size_t (ValueToConvert st) -> ConvertValueFormat st = DataFormat_Hex ->
  ValueToConvert (parse (render_lX st)) = ValueToConvert st.
Proof.
  intros Hv Hfmt. unfold parse, parse_input, converter_scan, render_lX, set_text.
  cbn [ValueConverterInputBuf ConvertValueFormat ConvertValueType ValueToConvert].
  rewrite Hfmt. unfold snprintf, INPUT_BUF_SIZE.
  rewrite truncate_all by (pose proof (length_printf_X _ Hv); simpl; lia).
  rewrite (sscanf_zX_printf_X _ Hv). reflexivity.
Qed.

(** The same for ["%ld"] and ["%lu"] under a signed and an unsigned integer
    type, and under [HalfFloat], whose scan goes to a local. *)
Lemma parse_render_dec (st : ConverterState) :
  is_size_t (ValueToConvert st) -> ConvertValueFormat st <> DataFormat_Hex ->
  is_integer_type (ConvertValueType st) = true
  \/ ConvertValueType st = DataType_HalfFloat ->
  ValueToConvert
    (parse (if is_even_type (ConvertValueType st) then render_ld st else render_lu st))
  = ValueToConvert st.
Proof.
  intros Hv Hfmt Htype.
  assert (Hsigned : - 2 ^ 63 <= to_signed 64 (ValueToConvert st) <= 2 ^ 63 - 1).
  { destruct Hv as [H1 H2]. unfold SIZE_MAX, SIZE_BITS in H2.
    pose proof (to_signed_range 64 (ValueToConvert st) ltac:(lia) ltac:(lia)).
    simpl (64 - 1) in *. lia. }
  assert (Hlen1 : truncate (Z.to_nat (INPUT_BUF_SIZE - 1))
                    (printf_d (to_signed 64 (ValueToConvert st)))
                  = printf_d (to_signed 64 (ValueToConvert st))).
  { apply truncate_all.
    pose proof (length_printf_d (to_signed 64 (ValueToConvert st))) as Hl.
    destruct Hv as [H1 H2].
    assert (to_signed 64 (ValueToConvert st) <= SIZE_MAX)
      by (unfold SIZE_MAX, SIZE_BITS; lia).
    unfold INPUT_BUF_SIZE. simpl Z.to_nat. lia. }
  assert (Hlen2 : truncate (Z.to_nat (INPUT_BUF_SIZE - 1)) (printf_d (ValueToConvert st))
                  = printf_d (ValueToConvert st)).
  { apply truncate_all. pose proof (length_printf_d (ValueToConvert st)) as Hl.
    destruct Hv as [H1 H2]. unfold INPUT_BUF_SIZE. simpl Z.to_nat.
    assert (- 2 ^ 63 <= ValueToConvert st) by lia. lia. }
  unfold parse, parse_input, converter_scan, is_even_type, render_ld, render_lu, set_text,
    snprintf.
  destruct (ConvertValueType st) eqn:Ht;
    try (destruct Htype as [Hx|Hx]; discriminate Hx);
    cbn [DataType_index];
    match goal with
    | |- context [Z.rem ?a ?b =? 0] =>
        let v := eval vm_compute in (Z.rem a b =? 0) in
        change (Z.rem a b =? 0) with v
    end; cbv iota;
    cbn [ValueConverterInputBuf ConvertValueFormat ConvertValueType ValueToConvert];
    rewrite ?Ht; cbn [DataType_index];
    try match goal with
    | |- context [Z.rem ?a ?b =? 0] =>
        let v := eval vm_compute in (Z.rem a b =? 0) in
        change (Z.rem a b =? 0) with v
    end; cbv iota;
    rewrite ?Hlen1, ?Hlen2;
    try rewrite (sscanf_ld_printf_d _ Hsigned); try rewrite (sscanf_lu_printf_d _ Hv);
    destruct (ConvertValueFormat st); try congruence;
    cbn [option_map ValueToConvert];
    try rewrite (wrap_to_signed_64 _ Hv); try reflexivity;
    destruct (sscanf_f _); reflexivity.
Qed.

Definition with_format (f : DataFormat) (st : ConverterState) : ConverterState :=
  mkConverterState (ValueToConvert st) (ConvertValueType st) f (ValueConverterInputBuf st).

Definition with_type (t : DataType_) (st : ConverterState) : ConverterState :=
  mkConverterState (ValueToConvert st) t (ConvertValueFormat st) (ValueConverterInputBuf st).

(** A frame in which another radix is clicked: re-render, then scan. *)
Lemma frame_format_click (st : ConverterState) (f : DataFormat) (edit : option string) :
  DataFormat_eqb (ConvertValueFormat st) f = false ->
  converter_frame host_little_endian printf_f sscanf_f sscanf_lf
    (mkPanelInput (Some (Some f)) None edit) st
  = parse (match f with
           | DataFormat_Hex => render_lX (with_format f st)
           | _ => if is_even_type (ConvertValueType (with_format f st))
                  then render_ld (with_format f st) else render_lu (with_format f st)
           end).
Proof.
  intros Hneq. unfold converter_frame, format_combo, with_format, parse.
  cbn [format_event type_event orb ConvertValueFormat ConvertValueType].
  rewrite Hneq. destruct f; reflexivity.
Qed.

Lemma parse_keeps_selectors (s : ConverterState) :
  ConvertValueFormat (parse s) = ConvertValueFormat s /\
  ConvertValueType (parse s) = ConvertValueType s.
Proof.
  unfold parse, parse_input.
  destruct (converter_scan host_little_endian sscanf_f sscanf_lf s) as [[v|v]|];
    split; reflexivity.
Qed.

(** A frame in which a type is clicked: [type_combo], then the scan. *)
Lemma frame_type_click (st : ConverterState) (t : DataType_) (edit : option string) :
  converter_frame host_little_endian printf_f sscanf_f sscanf_lf
    (mkPanelInput None (Some (Some t)) edit) st
  = parse (type_combo printf_f (Some t) st).
Proof. reflexivity. Qed.

Lemma type_combo_hex (st : ConverterState) (t : DataType_) :
  ConvertValueFormat st = DataFormat_Hex ->
  type_combo printf_f (Some t) st = render_lX (with_type t st).
Proof.
  intros Hfmt. unfold type_combo, with_type. cbn [ConvertValueFormat]. rewrite Hfmt.
  reflexivity.
Qed.

Lemma type_combo_from_float (st : ConverterState) (t : DataType_) :
  ConvertValueFormat st <> DataFormat_Hex ->
  is_integer_type (ConvertValueType st) = false -> is_integer_type t = true ->
  type_combo printf_f (Some t) st
  = if is_even_type (ConvertValueType (with_type t st))
    then render_ld (with_type t st) else render_lu (with_type t st).
Proof.
  intros Hfmt Hprev Ht. unfold type_combo, with_type.
  cbn [ConvertValueFormat ConvertValueType].
  destruct (ConvertValueFormat st); [| |congruence];
    destruct (ConvertValueType st); try discriminate Hprev;
    destruct t; try discriminate Ht; reflexivity.
Qed.

Lemma type_combo_to_unsigned (st : ConverterState) (t : DataType_) :
  ConvertValueFormat st <> DataFormat_Hex ->
  is_integer_type (ConvertValueType st) = true ->
  is_even_type (ConvertValueType st) = true ->
  is_integer_type t = true -> is_even_type t = false ->
  type_combo printf_f (Some t) st
  = if is_even_type (ConvertValueType (with_type t st))
    then render_ld (with_type t st) else render_lu (with_type t st).
Proof.
  intros Hfmt Hprev Hsigned Ht Hunsigned. unfold type_combo, with_type.
  cbn [ConvertValueFormat ConvertValueType].
  destruct (ConvertValueFormat st); [| |congruence];
    destruct (ConvertValueType st); try discriminate Hprev; try discriminate Hsigned;
    destruct t; try discriminate Ht; try discriminate Hunsigned; reflexivity.
Qed.

Lemma type_combo_keeps (st : ConverterState) (t : DataType_) :
  ValueToConvert (type_combo printf_f (Some t) st) = ValueToConvert st /\
  ConvertValueType (type_combo printf_f (Some t) st) = t /\
  ConvertValueFormat (type_combo printf_f (Some t) st) = ConvertValueFormat st.
Proof.
  unfold type_combo. cbn [ConvertValueFormat ConvertValueType].
  destruct (ConvertValueFormat st), (ConvertValueType st), t;
    repeat split; reflexivity.
Qed.

Lemma parse_HalfFloat (s : ConverterState) :
  ConvertValueType s = DataType_HalfFloat -> ConvertValueFormat s <> DataFormat_Hex ->
  parse s = s.
Proof.
  intros Ht Hfmt. unfold parse, parse_input, converter_scan. rewrite Ht.
  destruct (ConvertValueFormat s); [| |congruence];
    destruct (sscanf_f (ValueConverterInputBuf s)); reflexivity.
Qed.

End Panel.

(** X12.  Selecting another radix in the converter never changes the stored
    value when the new radix is hexadecimal, or when the selected type is
    one of the eight integer types or [HalfFloat]: the field is re-rendered
    from the register and scanned back to the same register. *)
Theorem radix_switch_keeps_value :
  forall (host_little_endian : bool) (printf_f : fp_value -> string)
         (sscanf_f sscanf_lf : string -> option Z)
         (st : ConverterState) (f : DataFormat) (edit : option string),
  is_size_t (ValueToConvert st) ->
  f <> ConvertValueFormat st ->
  f = DataFormat_Hex \/ is_integer_type (ConvertValueType st) = true
  \/ ConvertValueType st = DataType_HalfFloat ->
  let st' := converter_frame host_little_endian printf_f sscanf_f sscanf_lf
               (mkPanelInput (Some (Some f)) None edit) st in
  ValueToConvert st' = ValueToConvert st /\ ConvertValueFormat st' = f /\
  ConvertValueType st' = ConvertValueType st.
Proof.
  intros host printf_f sscanf_f sscanf_lf st f edit Hv Hneq Hcase st'.
  assert (Heqb : DataFormat_eqb (ConvertValueFormat st) f = false)
    by (destruct (ConvertValueFormat st), f; try reflexivity; congruence).
  unfold st'. rewrite (frame_format_click host printf_f sscanf_f sscanf_lf st f edit Heqb).
  assert (Hv1 : is_size_t (ValueToConvert (with_format f st))) by exact Hv.
  assert (Hsel : forall s, ConvertValueFormat s = f ->
                   ConvertValueType s = ConvertValueType st ->
                   ConvertValueFormat (parse host sscanf_f sscanf_lf s) = f /\
                   ConvertValueType (parse host sscanf_f sscanf_lf s) = ConvertValueType st).
  { intros s H1 H2.
    destruct (parse_keeps_selectors host sscanf_f sscanf_lf s) as [-> ->]. auto. }
  destruct f.
  - destruct Hcase as [Hx|Hcase]; [discriminate Hx|].
    pose proof (parse_render_dec host sscanf_f sscanf_lf (with_format DataFormat_Bin st) Hv1
                  ltac:(discriminate) Hcase) as Hval.
    split; [exact Hval|].
    destruct (is_even_type (ConvertValueType (with_format DataFormat_Bin st)));
      apply Hsel; reflexivity.
  - destruct Hcase as [Hx|Hcase]; [discriminate Hx|].
    pose proof (parse_render_dec host sscanf_f sscanf_lf (with_format DataFormat_Dec st) Hv1
                  ltac:(discriminate) Hcase) as Hval.
    split; [exact Hval|].
    destruct (is_even_type (ConvertValueType (with_format DataFormat_Dec st)));
      apply Hsel; reflexivity.
  - split; [exact (parse_render_lX host sscanf_f sscanf_lf _ Hv1 eq_refl)|].
    apply Hsel; reflexivity.
Qed.

Lemma radix_switch_keeps_value_witness :
  let st := mkConverterState 0xFFFFFFFFFFFFFFFE DataType_S32 DataFormat_Hex "FFFFFFFFFFFFFFFE" in
  let st' := converter_frame true unused_printf_f unused_sscanf unused_sscanf
               (mkPanelInput (Some (Some DataFormat_Dec)) None None) st in
  ValueToConvert st' = ValueToConvert st /\ ConvertValueFormat st' = DataFormat_Dec /\
  ConvertValueType st' = ConvertValueType st.
Proof.
  intros st.
  apply (radix_switch_keeps_value true unused_printf_f unused_sscanf unused_sscanf st
           DataFormat_Dec None).
  - vm_compute. split; discriminate.
  - discriminate.
  - right. left. reflexivity.
Defined.

(** X13.  Selecting another type in the converter keeps the stored value in
    four situations: in the hexadecimal radix; when the new type is
    [HalfFloat]; when a floating-point type is replaced by an integer type;
    and when a signed integer type is replaced by an unsigned one. *)
Theorem type_switch_keeps_value :
  forall (host_little_endian : bool) (printf_f : fp_value -> string)
         (sscanf_f sscanf_lf : string -> option Z)
         (st : ConverterState) (t : DataType_) (edit : option string),
  is_size_t (ValueToConvert st) ->
  ConvertValueFormat st = DataFormat_Hex
  \/ t = DataType_HalfFloat
  \/ (is_integer_type (ConvertValueType st) = false /\ is_integer_type t = true)
  \/ (is_integer_type (ConvertValueType st) = true /\
      is_even_type (ConvertValueType st) = true /\
      is_integer_type t = true /\ is_even_type t = false) ->
  let st' := converter_frame host_little_endian printf_f sscanf_f sscanf_lf
               (mkPanelInput None (Some (Some t)) edit) st in
  ValueToConvert st' = ValueToConvert st /\ ConvertValueType st' = t /\
  ConvertValueFormat st' = ConvertValueFormat st.
Proof.
  intros host printf_f sscanf_f sscanf_lf st t edit Hv Hcase st'.
  unfold st'. rewrite frame_type_click.
  destruct (type_combo_keeps printf_f st t) as (Hval & Htype & Hfmt).
  destruct (parse_keeps_selectors host sscanf_f sscanf_lf (type_combo printf_f (Some t) st))
    as [Hf Ht].
  split; [|split; [rewrite Ht; exact Htype|rewrite Hf; exact Hfmt]].
  assert (Hv1 : is_size_t (ValueToConvert (with_type t st))) by exact Hv.
  destruct (DataFormat_eqb (ConvertValueFormat st) DataFormat_Hex) eqn:Hhex.
  { assert (Hx : ConvertValueFormat st = DataFormat_Hex)
      by (destruct (ConvertValueFormat st); try discriminate Hhex; reflexivity).
    rewrite (type_combo_hex printf_f st t Hx).
    exact (parse_render_lX host sscanf_f sscanf_lf (with_type t st) Hv1 Hx). }
  assert (Hnx : ConvertValueFormat st <> DataFormat_Hex)
    by (intros Hx; rewrite Hx in Hhex; discriminate Hhex).
  destruct Hcase as [Hx|[Hhalf|[[Hprev Hint]|(Hprev & Hsigned & Hint & Hunsigned)]]].
  - congruence.
  - rewrite (parse_HalfFloat host sscanf_f sscanf_lf); [exact Hval| |].
    + rewrite Htype. exact Hhalf.
    + rewrite Hfmt. exact Hnx.
  - rewrite (type_combo_from_float printf_f st t Hnx Hprev Hint).
    exact (parse_render_dec host sscanf_f sscanf_lf (with_type t st) Hv1 Hnx
             (or_introl Hint)).
  - rewrite (type_combo_to_unsigned printf_f st t Hnx Hprev Hsigned Hint Hunsigned).
    exact (parse_render_dec host sscanf_f sscanf_lf (with_type t st) Hv1 Hnx
             (or_introl Hint)).
Qed.

Lemma type_switch_keeps_value_witness :
  let st := mkConverterState 0xFFFFFFFFFFFFFFFF DataType_S8 DataFormat_Dec "-1" in
  let st' := converter_frame true unused_printf_f unused_sscanf unused_sscanf
               (mkPanelInput None (Some (Some DataType_U64)) None) st in
  ValueToConvert st' = ValueToConvert st /\ ConvertValueType st' = DataType_U64 /\
  ConvertValueFormat st' = ConvertValueFormat st.
Proof.
  intros st.
  apply (type_switch_keeps_value true unused_printf_f unused_sscanf unused_sscanf st
           DataType_U64 None).
  - vm_compute. split; discriminate.
  - right. right. right. repeat split; reflexivity.
Defined.

End ConverterPanelFacts.

(** ** The grid and the address column *)

Module GridFacts.
Import Libc LibcFacts LibcText LibcTextFacts Grid CodecFacts.

Lemma to_int_small z : - 2 ^ 31 <= z < 2 ^ 31 -> to_int z = z.
Proof. intros Hz. unfold to_int. rewrite Z.mod_small by lia. lia. Qed.

(** The cells of a line entered at column [c] and address [a] with exactly
    the fuel the remaining columns need. *)
Lemma hex_cells_from_spec (Cols mem_size : Z) :
  forall (fuel : nat) (c a : Z),
  Z.of_nat fuel = Cols - c -> 0 <= a -> a + Z.of_nat fuel <= SIZE_MAX ->
  hex_cells_from fuel Cols mem_size c a
  = map (fun k : nat => (c + Z.of_nat k, a + Z.of_nat k))
        (seq 0 (Z.to_nat (Z.min (Cols - c) (mem_size - a)))).
Proof.
  induction fuel as [|fuel IH]; intros c a Hfuel Ha Hfit.
  - replace (Z.to_nat (Z.min (Cols - c) (mem_size - a))) with 0%nat by lia. reflexivity.
  - cbn [hex_cells_from].
    destruct (Z.ltb_spec c Cols); [|lia].
    destruct (Z.ltb_spec a mem_size); cbn [andb].
    + rewrite wrap_small by (unfold is_size_t; lia).
      rewrite IH by lia.
      replace (Z.to_nat (Z.min (Cols - c) (mem_size - a)))
        with (S (Z.to_nat (Z.min (Cols - (c + 1)) (mem_size - (a + 1))))) by lia.
      cbn [seq map]. rewrite <- seq_shift, map_map.
      f_equal; [f_equal; lia|].
      apply map_ext. intros k. f_equal; lia.
    + replace (Z.to_nat (Z.min (Cols - c) (mem_size - a))) with 0%nat by lia. reflexivity.
Qed.

Lemma hex_cells_spec (Cols mem_size line_i : Z) :
  1 <= Cols -> 0 <= line_i -> (line_i + 1) * Cols < 2 ^ 31 ->
  hex_cells Cols mem_size line_i
  = map (fun k : nat => (Z.of_nat k, line_i * Cols + Z.of_nat k))
        (seq 0 (Z.to_nat (Z.min Cols (mem_size - line_i * Cols)))).
Proof.
  intros HCols Hline Hint. unfold hex_cells.
  assert (0 <= line_i * Cols) by nia.
  rewrite to_int_small by nia.
  rewrite wrap_small by (unfold is_size_t, SIZE_MAX, SIZE_BITS; simpl (2 ^ 64); nia).
  rewrite (hex_cells_from_spec Cols mem_size (Z.to_nat Cols) 0 (line_i * Cols)).
  - rewrite Z.sub_0_r. apply map_ext. intros k. f_equal.
  - lia.
  - assumption.
  - unfold SIZE_MAX, SIZE_BITS. simpl (2 ^ 64). nia.
Qed.

(** X14.  The grid shows every byte of the buffer exactly where its address
    says: line [line_i] holds, from left to right, the addresses
    [line_i * Cols + c] for the columns [c] from 0 up to the last column
    or the end of the buffer; the address [addr] therefore sits on line
    [addr / Cols] in column [addr mod Cols], and the lines that hold a cell
    are exactly the [line_total_count] first ones. *)
Theorem grid_covers_buffer :
  forall (Cols mem_size : Z),
  1 <= Cols -> 0 <= mem_size -> mem_size + 2 * Cols < 2 ^ 31 ->
  line_total_count Cols mem_size = (mem_size + Cols - 1) / Cols /\
  (forall line_i, 0 <= line_i < line_total_count Cols mem_size ->
     hex_cells Cols mem_size line_i
     = map (fun k : nat => (Z.of_nat k, line_i * Cols + Z.of_nat k))
           (seq 0 (Z.to_nat (Z.min Cols (mem_size - line_i * Cols)))) /\
     hex_cells Cols mem_size line_i <> []) /\
  (forall addr, 0 <= addr < mem_size ->
     0 <= addr / Cols < line_total_count Cols mem_size /\
     In (addr mod Cols, addr) (hex_cells Cols mem_size (addr / Cols))) /\
  hex_cells Cols mem_size (line_total_count Cols mem_size) = [].
Proof.
  intros Cols mem_size HCols Hmem Hint.
  assert (Htotal : line_total_count Cols mem_size = (mem_size + Cols - 1) / Cols).
  { unfold line_total_count.
    rewrite (wrap_small Cols), (wrap_small (mem_size + Cols)), (wrap_small (_ - 1))
      by (unfold is_size_t, SIZE_MAX, SIZE_BITS; simpl (2 ^ 64); lia).
    apply to_int_small.
    assert (0 <= (mem_size + Cols - 1) / Cols) by (apply Z.div_pos; lia).
    assert ((mem_size + Cols - 1) / Cols <= mem_size + Cols - 1)
      by (apply Z.div_le_upper_bound; nia).
    lia. }
  assert (Hdiv : Cols * ((mem_size + Cols - 1) / Cols) <= mem_size + Cols - 1)
    by (apply Z.mul_div_le; lia).
  assert (Hdiv2 : mem_size + Cols - 1 < Cols * ((mem_size + Cols - 1) / Cols) + Cols).
  { pose proof (Z.div_mod (mem_size + Cols - 1) Cols ltac:(lia)).
    pose proof (Z.mod_pos_bound (mem_size + Cols - 1) Cols ltac:(lia)). lia. }
  rewrite Htotal. split; [reflexivity|]. split; [|split].
  - intros line_i Hline.
    assert (Hstart : line_i * Cols < mem_size) by nia.
    rewrite hex_cells_spec by nia. split; [reflexivity|].
    replace (Z.to_nat (Z.min Cols (mem_size - line_i * Cols)))
      with (S (Z.to_nat (Z.min Cols (mem_size - line_i * Cols)) - 1)) by lia.
    discriminate.
  - intros addr Haddr.
    pose proof (Z.div_mod addr Cols ltac:(lia)) as Hdm.
    pose proof (Z.mod_pos_bound addr Cols ltac:(lia)) as Hmod.
    assert (0 <= addr / Cols) by (apply Z.div_pos; lia).
    assert (Hline : addr / Cols < (mem_size + Cols - 1) / Cols).
    { apply Z.div_lt_upper_bound; [lia|]. nia. }
    split; [lia|].
    rewrite hex_cells_spec by nia.
    apply in_map_iff. exists (Z.to_nat (addr mod Cols)). split.
    + f_equal; lia.
    + apply in_seq. nia.
  - rewrite hex_cells_spec by nia.
    replace (Z.to_nat (Z.min Cols (mem_size - (mem_size + Cols - 1) / Cols * Cols)))
      with 0%nat by nia.
    reflexivity.
Qed.

Lemma grid_covers_buffer_witness :
  line_total_count 16 40 = (40 + 16 - 1) / 16 /\
  (forall line_i, 0 <= line_i < line_total_count 16 40 ->
     hex_cells 16 40 line_i
     = map (fun k : nat => (Z.of_nat k, line_i * 16 + Z.of_nat k))
           (seq 0 (Z.to_nat (Z.min 16 (40 - line_i * 16)))) /\
     hex_cells 16 40 line_i <> []) /\
  (forall addr, 0 <= addr < 40 ->
     0 <= addr / 16 < line_total_count 16 40 /\
     In (addr mod 16, addr) (hex_cells 16 40 (addr / 16))) /\
  hex_cells 16 40 (line_total_count 16 40) = [].
Proof.
  apply (grid_covers_buffer 16 40); [lia | lia | vm_compute; reflexivity].
Defined.

(** The shift loop counts the hexadecimal digits of its argument. *)
Lemma count_shifts_spec :
  forall (fuel : nat) (n count : Z),
  0 <= n < 16 ^ Z.of_nat fuel ->
  let r := count_shifts fuel n count - count in
  0 <= r <= Z.of_nat fuel /\ n < 16 ^ r /\ (0 < n -> 16 ^ (r - 1) <= n).
Proof.
  induction fuel as [|fuel IH]; intros n count Hn r; unfold r; cbn [count_shifts].
  - change (16 ^ Z.of_nat 0) with 1 in Hn. rewrite Z.sub_diag.
    change (16 ^ 0) with 1. repeat split; lia.
  - destruct (Z.gtb_spec n 0) as [Hpos|Hzero].
    + rewrite Z.shiftr_div_pow2 by lia. change (2 ^ 4) with 16.
      rewrite Nat2Z.inj_succ, Z.pow_succ_r in Hn by lia.
      assert (Hq : 0 <= n / 16 < 16 ^ Z.of_nat fuel).
      { split; [apply Z.div_pos; lia|]. apply Z.div_lt_upper_bound; lia. }
      destruct (IH (n / 16) (count + 1) Hq) as (Hr & Hup & Hlow).
      set (q := count_shifts fuel (n / 16) (count + 1) - (count + 1)) in *.
      replace (count_shifts fuel (n / 16) (count + 1) - count) with (q + 1) by (unfold q; lia).
      pose proof (Z.div_mod n 16 ltac:(lia)) as Hdm.
      pose proof (Z.mod_pos_bound n 16 ltac:(lia)) as Hmod.
      rewrite Z.pow_add_r by lia. change (16 ^ 1) with 16.
      replace (q + 1 - 1) with q by lia.
      repeat split; try lia.
      intros _. destruct (Z.eq_dec (n / 16) 0) as [Hz|Hnz].
      * assert (q = 0).
        { destruct (Z.eq_dec q 0) as [|Hq0]; [assumption|exfalso].
          unfold q in Hq0. rewrite Hz in Hq0.
          destruct fuel; cbn [count_shifts] in Hq0; [lia|].
          change (0 >? 0) with false in Hq0. lia. }
        subst q. replace (count_shifts fuel (n / 16) (count + 1) - (count + 1)) with 0 by lia.
        change (16 ^ 0) with 1. lia.
      * specialize (Hlow ltac:(lia)).
        replace q with (Z.succ (q - 1)) by lia. rewrite Z.pow_succ_r; [lia|].
        destruct (Z.eq_dec q 0) as [Hq0|]; [|lia].
        rewrite Hq0 in Hup. change (16 ^ 0) with 1 in Hup. lia.
    + rewrite Z.sub_diag. change (16 ^ 0) with 1. repeat split; lia.
Qed.

Lemma length_printf_0star (upper : bool) (digits v : Z) :
  0 <= digits -> 0 <= v < 16 ^ digits -> 1 <= digits ->
  String.length (printf_0star upper digits v) = Z.to_nat digits.
Proof.
  intros Hd Hv Hone. unfold printf_0star.
  destruct (Z.ltb_spec digits 0); [lia|].
  assert (Hlen : (hex_length v <= Z.to_nat digits)%nat).
  { apply hex_length_le; [rewrite Z2Nat.id by lia; assumption|lia]. }
  destruct upper; unfold printf_0X, printf_0x; rewrite Nat.max_l by assumption.
  - apply length_hex_digits_upper.
  - apply length_hex_digits.
Qed.

(** X15.  With [OptAddrDigitsCount = 0] and a last displayed address above
    zero, [CalcSizes] counts exactly the hexadecimal digits of the last
    displayed address, and every line's address label then has that many
    digits followed by ": ", so that the labels all have the same width. *)
Theorem address_column_fits :
  forall (OptUpperCaseHex : bool) (mem_size base_display_addr : Z),
  0 <= base_display_addr -> 1 <= mem_size ->
  1 <= base_display_addr + mem_size - 1 <= SIZE_MAX ->
  let digits := AddrDigitsCount 0 mem_size base_display_addr in
  1 <= digits <= 16 /\
  16 ^ (digits - 1) <= base_display_addr + mem_size - 1 < 16 ^ digits /\
  (forall addr, 0 <= addr < mem_size ->
     String.length (address_label OptUpperCaseHex digits base_display_addr addr)
     = (Z.to_nat digits + 2)%nat).
Proof.
  intros upper mem_size base Hbase Hmem Hlast digits.
  assert (Hn : wrap (wrap (base + mem_size) - 1) = base + mem_size - 1).
  { unfold wrap, SIZE_BITS. unfold SIZE_MAX, SIZE_BITS in Hlast.
    destruct (Z.eq_dec (base + mem_size) (2 ^ 64)) as [Heq|Hneq].
    - rewrite Heq. vm_compute. reflexivity.
    - rewrite (Z.mod_small (base + mem_size)) by lia. apply Z.mod_small. lia. }
  assert (Hspec := count_shifts_spec 16 (base + mem_size - 1) 0).
  unfold SIZE_MAX, SIZE_BITS in Hlast.
  specialize (Hspec ltac:(change (16 ^ Z.of_nat 16) with (2 ^ 64); lia)).
  cbv zeta in Hspec. rewrite Z.sub_0_r in Hspec.
  assert (Hdigits : digits = count_shifts 16 (base + mem_size - 1) 0).
  { unfold digits, AddrDigitsCount. change (0 =? 0) with true. cbv iota.
    rewrite Hn. reflexivity. }
  rewrite <- Hdigits in Hspec. destruct Hspec as (Hr & Hup & Hlow).
  specialize (Hlow ltac:(lia)).
  assert (Hone : 1 <= digits).
  { destruct (Z.eq_dec digits 0) as [Hz|]; [|lia].
    rewrite Hz in Hup. change (16 ^ 0) with 1 in Hup. lia. }
  split; [simpl Z.of_nat in Hr; lia|]. split; [lia|].
  intros addr Haddr. unfold address_label.
  rewrite length_append.
  rewrite wrap_small by (unfold is_size_t, SIZE_MAX, SIZE_BITS; lia).
  rewrite length_printf_0star by lia. simpl String.length. lia.
Qed.

Lemma address_column_fits_witness :
  let digits := AddrDigitsCount 0 0x10000 0 in
  1 <= digits <= 16 /\
  16 ^ (digits - 1) <= 0 + 0x10000 - 1 < 16 ^ digits /\
  (forall addr, 0 <= addr < 0x10000 ->
     String.length (address_label true digits 0 addr) = (Z.to_nat digits + 2)%nat).
Proof.
  apply (address_column_fits true 0x10000 0);
    [lia | lia | vm_compute; split; discriminate].
Defined.

End GridFacts.

(** ** Cursor and go-to *)

Module NavigationFacts.
Import Libc LibcFacts LibcText LibcTextFacts Grid GridFacts Navigation.

Lemma digit_of_hex_digit_lower d :
  0 <= d < 16 ->
  digit_in_base 16 (hex_digit_lower d) = Some d /\
  (Ascii.eqb (hex_digit_lower d) "x" || Ascii.eqb (hex_digit_lower d) "X")%bool = false /\
  is_space (hex_digit_lower d) = false /\
  read_sign (String (hex_digit_lower d) EmptyString)
  = (false, String (hex_digit_lower d) EmptyString).
Proof.
  intros Hd. pose proof (hex_digit_cases d Hd) as Hcases.
  repeat (destruct Hcases as [->|Hcases]; [repeat split; reflexivity|]).
  subst d. repeat split; reflexivity.
Qed.

(** A run of hexadecimal digits that starts the text is read whole, in
    either case. *)
Lemma sscanf_zX_digits (upper : bool) (n : nat) (v : Z) :
  (1 <= n <= 16)%nat -> 0 <= v < 16 ^ Z.of_nat n ->
  sscanf_zX (if upper then hex_digits_upper n v else hex_digits n v) = Some v.
Proof.
  intros Hn Hv.
  assert (Hmax : v <= SIZE_MAX).
  { unfold SIZE_MAX, SIZE_BITS.
    assert (16 ^ Z.of_nat n <= 2 ^ 64).
    { change 16 with (2 ^ 4). rewrite <- Z.pow_mul_r by lia.
      apply Z.pow_le_mono_r; lia. }
    lia. }
  assert (Hsign : forall c r, read_sign (String c EmptyString) = (false, String c EmptyString) ->
                    read_sign (String c r) = (false, String c r)).
  { intros c r Hc. unfold read_sign in *.
    destruct c as [[|] [|] [|] [|] [|] [|] [|] [|]]; try reflexivity; discriminate Hc. }
  destruct n as [|m]; [lia|]. destruct upper.
  - pose proof (read_digits_hex_digits_upper (S m) v 0) as Hread.
    rewrite Z.mod_small in Hread by lia. simpl (0 * _ + v) in Hread.
    cbn [hex_digits_upper] in *.
    set (d := (v / 16 ^ Z.of_nat m) mod 16) in *.
    destruct (digit_of_hex_digit_upper d (Z.mod_pos_bound _ 16 ltac:(lia)))
      as (Hdig & _ & Hsp & Hs).
    unfold sscanf_zX, scan_unsigned. cbn [skip_space]. rewrite Hsp, (Hsign _ _ Hs).
    change (16 =? 16) with true. cbv iota.
    assert (Hskip : skip_0x (String (hex_digit_upper d) (hex_digits_upper m v))
                    = String (hex_digit_upper d) (hex_digits_upper m v)).
    { destruct m as [|k]; [apply skip_0x_short|].
      cbn [hex_digits_upper]. apply skip_0x_no_prefix.
      apply (digit_of_hex_digit_upper _ (Z.mod_pos_bound _ 16 ltac:(lia))). }
    rewrite Hskip. cbn [starts_with_digit]. rewrite Hdig, Hread.
    destruct (Z.gtb_spec v SIZE_MAX); [lia|]. reflexivity.
  - pose proof (read_digits_hex_digits (S m) v 0) as Hread.
    rewrite Z.mod_small in Hread by lia. simpl (0 * _ + v) in Hread.
    cbn [hex_digits] in *.
    set (d := (v / 16 ^ Z.of_nat m) mod 16) in *.
    destruct (digit_of_hex_digit_lower d (Z.mod_pos_bound _ 16 ltac:(lia)))
      as (Hdig & _ & Hsp & Hs).
    unfold sscanf_zX, scan_unsigned. cbn [skip_space]. rewrite Hsp, (Hsign _ _ Hs).
    change (16 =? 16) with true. cbv iota.
    assert (Hskip : skip_0x (String (hex_digit_lower d) (hex_digits m v))
                    = String (hex_digit_lower d) (hex_digits m v)).
    { destruct m as [|k]; [apply skip_0x_short|].
      cbn [hex_digits]. apply skip_0x_no_prefix.
      apply (digit_of_hex_digit_lower _ (Z.mod_pos_bound _ 16 ltac:(lia))). }
    rewrite Hskip. cbn [starts_with_digit]. rewrite Hdig, Hread.
    destruct (Z.gtb_spec v SIZE_MAX); [lia|]. reflexivity.
Qed.

Lemma sscanf_zX_printf_0star (upper : bool) (digits v : Z) :
  0 <= digits <= 16 -> is_size_t v ->
  sscanf_zX (printf_0star upper digits v) = Some v.
Proof.
  intros Hd [Hv Hmax]. unfold printf_0star.
  destruct (Z.ltb_spec digits 0); [lia|].
  pose proof (hex_length_pos v). pose proof (hex_length_enough v Hv) as Hfit.
  assert (Hlen : (hex_length v <= 16)%nat).
  { apply hex_length_le; [|lia]. unfold SIZE_MAX, SIZE_BITS in Hmax.
    change (16 ^ Z.of_nat 16) with (2 ^ 64). lia. }
  set (n := Nat.max (Z.to_nat digits) (hex_length v)).
  assert (Hn : (1 <= n <= 16)%nat) by (unfold n; lia).
  assert (Hvn : 0 <= v < 16 ^ Z.of_nat n).
  { split; [assumption|]. eapply Z.lt_le_trans; [exact Hfit|].
    apply Z.pow_le_mono_r; unfold n; lia. }
  pose proof (sscanf_zX_digits upper n v Hn Hvn) as Hscan.
  destruct upper; exact Hscan.
Qed.






(** X17.  Go-to.  Entering an address exactly as the address column prints
    it (in either case, with up to sixteen digits) moves the preview and
    editing cursors to that byte, clears the user highlight, scrolls to the
    byte's line and takes the focus.  A request made with
    [GotoAddrAndHighlight] for an address inside the buffer does the same
    but highlights [addr_min, addr_max); for an address outside the buffer
    the cursors stay in place while the highlight is still set.  In every
    case the request is consumed. *)
Theorem goto_moves_cursor :
  forall (Cols mem_size base_display_addr : Z) (st : NavState),
  1 <= Cols < 2 ^ 31 -> mem_size <= SIZE_MAX ->
  (forall (OptUpperCaseHex : bool) (digits addr : Z),
     0 <= digits <= 16 -> 0 <= base_display_addr -> 0 <= addr < mem_size ->
     base_display_addr + addr <= SIZE_MAX ->
     AddrInputBuf st = printf_0star OptUpperCaseHex digits (base_display_addr + addr) ->
     goto_step true Cols mem_size base_display_addr st
     = (mkNavState SIZE_MAX SIZE_MAX SIZE_MAX addr addr true (AddrInputBuf st),
        Some (addr / Cols))) /\
  (forall addr_min addr_max,
     0 <= addr_min < mem_size ->
     goto_step false Cols mem_size base_display_addr
       (GotoAddrAndHighlight addr_min addr_max st)
     = (mkNavState SIZE_MAX addr_min addr_max addr_min addr_min true (AddrInputBuf st),
        Some (addr_min / Cols))) /\
  (forall addr_min addr_max,
     mem_size <= addr_min ->
     goto_step false Cols mem_size base_display_addr
       (GotoAddrAndHighlight addr_min addr_max st)
     = (mkNavState SIZE_MAX addr_min addr_max (DataPreviewAddr st) (DataEditingAddr st)
          (DataEditingTakeFocus st) (AddrInputBuf st),
        None)).
Proof.
  intros Cols mem_size base st HCols Hmem.
  assert (HwCols : wrap Cols = Cols)
    by (apply wrap_small; unfold is_size_t, SIZE_MAX, SIZE_BITS; lia).
  split; [|split].
  - intros upper digits addr Hd Hbase Haddr Hfit Htext.
    unfold goto_step. rewrite Htext.
    rewrite sscanf_zX_printf_0star by (unfold is_size_t; lia).
    replace (base + addr - base) with addr by lia.
    rewrite wrap_small by (unfold is_size_t; lia).
    cbn [GotoAddr]. destruct (Z.eqb_spec addr SIZE_MAX); [lia|]. cbn [negb].
    destruct (Z.ltb_spec addr mem_size); [|lia]. rewrite <- Htext, HwCols. reflexivity.
  - intros addr_min addr_max Haddr.
    unfold goto_step, GotoAddrAndHighlight. cbn [GotoAddr].
    destruct (Z.eqb_spec addr_min SIZE_MAX); [lia|]. cbn [negb].
    destruct (Z.ltb_spec addr_min mem_size); [|lia]. rewrite HwCols. reflexivity.
  - intros addr_min addr_max Haddr.
    unfold goto_step, GotoAddrAndHighlight. cbn [GotoAddr].
    destruct (Z.eqb_spec addr_min SIZE_MAX) as [Heq|Hneq]; cbn [negb].
    + rewrite Heq. reflexivity.
    + destruct (Z.ltb_spec addr_min mem_size); [lia|]. reflexivity.
Qed.

Lemma goto_moves_cursor_witness :
  let st := mkNavState SIZE_MAX 3 9 SIZE_MAX SIZE_MAX false "1F" in
  goto_step true 16 0x100 0 st
  = (mkNavState SIZE_MAX SIZE_MAX SIZE_MAX 0x1F 0x1F true (AddrInputBuf st),
     Some (0x1F / 16)).
Proof.
  intros st.
  assert (HCols : 1 <= 16 < 2 ^ 31) by lia.
  assert (Hmem : 0x100 <= SIZE_MAX) by (vm_compute; discriminate).
  destruct (goto_moves_cursor 16 0x100 0 st HCols Hmem) as [Htyped _].
  apply (Htyped true 2 0x1F); try lia; reflexivity.
Defined.

End NavigationFacts.

(** ** The hex cell of [DrawContents] (lines 433-485) *)

Module CellFacts.
Import BinarySearch RangeIndex RangeIndexFacts RangeIndexExtra Outline Cell.

Section WithRange.
Context {T : Type} `{RangeLike T}.

(** The comparator's verdict does not read the captured colour, so the
    search visits the same elements whatever the state it starts from. *)
Lemma binary_find_any_state (rs : list T) addr o1 o2 :
  fst (binary_find rs (range_cmp addr) o1) = fst (binary_find rs (range_cmp addr) o2).
Proof.
  unfold binary_find.
  assert (Hgen : forall n lo hi, (hi - lo <= n)%nat ->
    fst (find_window midpoint midpoint_inside (range_cmp addr) rs lo hi o1)
    = fst (find_window midpoint midpoint_inside (range_cmp addr) rs lo hi o2)).
  { induction n as [|n IH]; intros lo hi Hn; rewrite !find_window_unfold.
    - destruct (lt_dec lo hi); [lia|reflexivity].
    - destruct (lt_dec lo hi) as [Hlt|]; [|reflexivity].
      pose proof (midpoint_inside lo hi Hlt) as Hp.
      destruct (nth_error rs (midpoint lo hi)) as [x|] eqn:Hx; [|reflexivity].
      destruct (contains x addr) eqn:Hc.
      + rewrite (range_cmp_hit x addr o1 Hc), (range_cmp_hit x addr o2 Hc).
        destruct (isActive x); reflexivity.
      + destruct (range_cmp_miss x addr o1 Hc) as [[E1 Hlo]|[E1 Hhi]];
          destruct (range_cmp_miss x addr o2 Hc) as [[E2 Hlo']|[E2 Hhi']];
          try lia; rewrite E1, E2; simpl; apply IH; lia. }
  apply (Hgen (List.length rs - 0)%nat). lia.
Qed.

(** The verdict of [IsInRange] does not depend on what the out-parameters
    held; when a range is reported, neither do their final contents. *)
Lemma IsInRange_via_any_state (linear : bool) (rs : list T) addr o1 o2 :
  fst (IsInRange_via linear rs addr o1) = fst (IsInRange_via linear rs addr o2) /\
  (fst (IsInRange_via linear rs addr o1) <> NotInRange ->
   snd (IsInRange_via linear rs addr o1) = snd (IsInRange_via linear rs addr o2)).
Proof.
  unfold IsInRange_via. destruct rs as [|front rest]; [split; [reflexivity|simpl; congruence]|].
  destruct ((addr <? RangeStartAddress front)
            || (addr >? RangeEndAddress (last (front :: rest) front)));
    [split; [reflexivity|simpl; congruence]|].
  destruct linear.
  - destruct (first_containing (front :: rest) addr) as [Hnone|(l1 & r & l2 & -> & Hl1 & Hr)].
    + rewrite !linear_scan_none by assumption. split; [reflexivity|simpl; congruence].
    + rewrite !linear_scan_first by assumption.
      destruct (isActive r); split; try reflexivity; simpl; congruence.
  - unfold binary_path.
    pose proof (binary_find_any_state (front :: rest) addr o1 o2) as Hidx.
    pose proof (binary_find_state (front :: rest) addr o1) as H1.
    pose proof (binary_find_state (front :: rest) addr o2) as H2.
    destruct (binary_find (front :: rest) (range_cmp addr) o1) as [[i|] s1];
      destruct (binary_find (front :: rest) (range_cmp addr) o2) as [[j|] s2];
      simpl in Hidx; try discriminate.
    + injection Hidx as <-.
      destruct H1 as (r & Hr & ->). destruct H2 as (r' & Hr' & ->).
      rewrite Hr in Hr'. injection Hr' as <-. rewrite Hr. split; reflexivity.
    + split; [reflexivity|simpl; congruence].
Qed.

(** The index out-parameter after the call depends only on the index it
    held before, never on the colour. *)
Lemma IsInRange_index_any_colour (rs : list T) addr c1 c2 i :
  range_idx (snd (IsInRange rs addr (mkOut c1 i)))
  = range_idx (snd (IsInRange rs addr (mkOut c2 i))).
Proof.
  unfold IsInRange. set (linear := Z.of_nat (List.length rs) <? 100).
  destruct (IsInRange_via_any_state linear rs addr (mkOut c1 i) (mkOut c2 i)) as [Hpos Hout].
  destruct (RangePosition_eq_dec (fst (IsInRange_via linear rs addr (mkOut c1 i))) NotInRange)
    as [Hmiss|Hhit].
  - assert (Hmiss2 : fst (IsInRange_via linear rs addr (mkOut c2 i)) = NotInRange)
      by congruence.
    revert Hmiss Hmiss2. unfold IsInRange_via.
    destruct rs as [|front rest]; [reflexivity|].
    destruct ((addr <? RangeStartAddress front)
              || (addr >? RangeEndAddress (last (front :: rest) front))); [reflexivity|].
    destruct linear; intros Hm1 Hm2.
    + rewrite !linear_scan_miss by assumption. reflexivity.
    + rewrite !binary_path_miss by assumption. reflexivity.
  - rewrite (Hout Hhit). reflexivity.
Qed.

End WithRange.

Section Draw.
Variable host_little_endian : bool.
Context {F : Type} `{FloatOps F}.

(** The note outline does not depend on the colour that the lookup in
    [Notes] starts from. *)
Lemma note_outline_any_colour (ed : Editor) (s : Sizes F) addr (pos_x pos_y : F)
    (c1 c2 : Color) colIdx line_idx line_max_idx :
  note_outline ed s addr pos_x pos_y c1 colIdx line_idx line_max_idx
  = note_outline ed s addr pos_x pos_y c2 colIdx line_idx line_max_idx.
Proof.
  unfold note_outline, IsInRange.
  set (linear := Z.of_nat (List.length (Notes ed)) <? 100).
  destruct (IsInRange_via_any_state linear (Notes ed) addr
              (mkOut c1 SIZE_MAX) (mkOut c2 SIZE_MAX)) as [Hpos Hout].
  destruct (IsInRange_via linear (Notes ed) addr (mkOut c1 SIZE_MAX)) as [p1 o1].
  destruct (IsInRange_via linear (Notes ed) addr (mkOut c2 SIZE_MAX)) as [p2 o2].
  simpl in Hpos, Hout. subst p2. unfold is_in_range.
  destruct (RangePosition_eq_dec p1 NotInRange) as [|Hhit]; [reflexivity|].
  rewrite (Hout Hhit). reflexivity.
Qed.

(** X18.  The local [highlight_range_color] of the cell loop is declared
    without an initial value and handed to [IsInRange] by reference.  Its
    indeterminate content never reaches the draw list: the filled rectangle
    and the note outline of a cell are the same whatever that content is.
    Moreover the outline is the one of the lookup in [Notes] alone: it does
    not depend on whether the cell is highlighted or lies in a colour
    range. *)
Theorem draw_hex_cell_ignores_uninitialised :
  forall (ed : Editor) (s : Sizes F) (HighlightColor : Z) (mem_data : list Z)
         (mem_size preview_data_type_size addr colIdx line_idx line_max_idx : Z)
         (pos_x pos_y : F) (u1 u2 : Color),
  draw_hex_cell host_little_endian ed s HighlightColor mem_data mem_size
    preview_data_type_size addr colIdx line_idx line_max_idx pos_x pos_y u1
  = draw_hex_cell host_little_endian ed s HighlightColor mem_data mem_size
      preview_data_type_size addr colIdx line_idx line_max_idx pos_x pos_y u2 /\
  outline (draw_hex_cell host_little_endian ed s HighlightColor mem_data mem_size
             preview_data_type_size addr colIdx line_idx line_max_idx pos_x pos_y u1)
  = note_outline ed s addr pos_x pos_y u2 colIdx line_idx line_max_idx.
Proof.
  intros ed s HighlightColor mem_data mem_size psize addr colIdx line_idx line_max_idx
    pos_x pos_y u1 u2.
  unfold draw_hex_cell.
  pose proof (IsInRange_index_any_colour (Ranges ed) addr u1 u2 SIZE_MAX) as Hidx.
  revert Hidx. unfold IsInRange.
  set (linear := Z.of_nat (List.length (Ranges ed)) <? 100).
  destruct (IsInRange_via_any_state linear (Ranges ed) addr
              (mkOut u1 SIZE_MAX) (mkOut u2 SIZE_MAX)) as [Hpos Hout].
  destruct (IsInRange_via linear (Ranges ed) addr (mkOut u1 SIZE_MAX)) as [p1 o1].
  destruct (IsInRange_via linear (Ranges ed) addr (mkOut u2 SIZE_MAX)) as [p2 o2].
  simpl in Hpos, Hout. subst p2. simpl. intros Hidx. rewrite Hidx.
  rewrite (note_outline_any_colour ed s addr pos_x pos_y (RangeIndex.color o1)
             (RangeIndex.color o2)).
  split.
  - unfold is_in_range.
    destruct (RangePosition_eq_dec p1 NotInRange) as [|Hhit]; [reflexivity|].
    rewrite (Hout Hhit). reflexivity.
  - rewrite (note_outline_any_colour ed s addr pos_x pos_y (RangeIndex.color o2) u2).
    destruct ((addr >=? HighlightMin ed) && (addr <? HighlightMax ed)
              || match HighlightFn ed with Some fn => fn mem_data addr | None => false end
              || (addr >=? DataPreviewAddr ed)
                 && (addr <? wrap (DataPreviewAddr ed + psize))); [reflexivity|].
    destruct (is_in_range p1); reflexivity.
Qed.

End Draw.
End CellFacts.
